(** * Clusters: the puzzle state machine and the row-packing layout

    A shallow embedding of the game logic of the Clusters puzzle
    ([src/hooks/useGameState.ts], [src/data/samplePuzzle.ts],
    [src/utils/gridLayout.ts], [src/types/game.ts]) together with the
    properties its design document states about it.

    Conventions of the embedding.
    - JS arrays are lists; [find], [filter], [includes], [concat] are the
      list functions of the same name on boolean predicates.
    - JS strings are [string]; [===] on strings is [String.eqb].
    - Counters and lengths are [nat]; wall-clock readings ([Date.now()])
      are [Z] values handed to the operation that reads the clock.
    - [Math.random] is an oracle handed to the operation that shuffles.
    - The hook's four [useState] cells are the four fields of [HookState];
      an action runs to completion on the state it is invoked on, which is
      the sequential model of section 5 of the design document: the
      snapshot a callback closes over and the [prev] its updaters receive
      are the same state. *)

From Stdlib Require Import String Ascii List Bool Arith ZArith Lia.
From Stdlib Require Import Permutation DecimalString Finite.
Import ListNotations.
Local Open Scope string_scope.
Local Open Scope list_scope.

(* ===================================================================== *)
(** ** Data model ([src/types/game.ts]) *)
(* ===================================================================== *)

(** [difficulty] is the literal type [1 | ... | 10] in the source; no
    function of the core inspects it. *)
Module Category.
Record t := mk { id : string; name : string; items : list string; difficulty : nat }.
End Category.
Abbreviation Category := Category.t.

Module Puzzle.
Record t := mk { id : string; month : string; categories : list Category }.
End Puzzle.
Abbreviation Puzzle := Puzzle.t.

Module GridSquare.
Record t := mk { id : string; items : list string; categoryId : string; isSolved : bool }.
End GridSquare.
Abbreviation GridSquare := GridSquare.t.

Inductive Status := playing | won.

Module GameState.
Record t := mk {
  puzzleId : string;
  grid : list GridSquare;
  mistakes : nat;
  solvedCategoryIds : list string;
  status : Status;
  startTime : Z;
  endTime : option Z
}.
End GameState.
Abbreviation GameState := GameState.t.

Definition SelectedSquareIds := list string.

(** The only failure reason the source has. *)
Inductive FailureReason := different_categories.

Inductive MergeResult :=
| MergeSuccess (mergedSquare : GridSquare) (solvedCategory : option Category)
| MergeFailure (reason : FailureReason).

Definition success (r : MergeResult) : bool :=
  match r with MergeSuccess _ _ => true | MergeFailure _ => false end.

Module LayoutRow.
Record t := mk { squares : list GridSquare; totalItems : nat }.
End LayoutRow.
Abbreviation LayoutRow := LayoutRow.t.

(* ===================================================================== *)
(** ** Sample puzzle ([src/data/samplePuzzle.ts]) *)
(* ===================================================================== *)

Definition fruits : Category := Category.mk "cat-fruits" "Fruits"
  ["Apple"; "Banana"; "Orange"; "Grape"; "Mango";
   "Pineapple"; "Strawberry"; "Watermelon"; "Peach"; "Cherry"] 1.

Definition countries : Category := Category.mk "cat-countries" "Countries"
  ["France"; "Japan"; "Brazil"; "Egypt"; "Canada";
   "Australia"; "Mexico"; "India"; "Spain"; "Italy"] 2.

Definition dogBreeds : Category := Category.mk "cat-dogs" "Dog Breeds"
  ["Labrador"; "Poodle"; "Bulldog"; "Beagle"; "Husky";
   "Boxer"; "Dalmatian"; "Chihuahua"; "Rottweiler"; "Collie"] 3.

Definition elements : Category := Category.mk "cat-elements" "Chemical Elements"
  ["Oxygen"; "Hydrogen"; "Carbon"; "Gold"; "Silver";
   "Iron"; "Copper"; "Helium"; "Neon"; "Zinc"] 4.

Definition greekGods : Category := Category.mk "cat-greek-gods" "Greek Gods"
  ["Zeus"; "Hera"; "Poseidon"; "Athena"; "Apollo";
   "Artemis"; "Hermes"; "Hades"; "Ares"; "Aphrodite"] 5.

Definition pasta : Category := Category.mk "cat-pasta" "Pasta Shapes"
  ["Spaghetti"; "Penne"; "Rigatoni"; "Fusilli"; "Linguine";
   "Fettuccine"; "Ravioli"; "Lasagna"; "Orzo"; "Farfalle"] 6.

Definition instruments : Category := Category.mk "cat-instruments" "Musical Instruments"
  ["Piano"; "Guitar"; "Violin"; "Drums"; "Flute";
   "Trumpet"; "Saxophone"; "Cello"; "Harp"; "Clarinet"] 7.

Definition gemstones : Category := Category.mk "cat-gemstones" "Gemstones"
  ["Diamond"; "Ruby"; "Emerald"; "Sapphire"; "Amethyst";
   "Topaz"; "Opal"; "Pearl"; "Jade"; "Garnet"] 8.

Definition currencies : Category := Category.mk "cat-currencies" "World Currencies"
  ["Dollar"; "Euro"; "Pound"; "Yen"; "Peso";
   "Franc"; "Rupee"; "Won"; "Krona"; "Baht"] 9.

Definition dances : Category := Category.mk "cat-dances" "Types of Dance"
  ["Waltz"; "Tango"; "Salsa"; "Ballet"; "Foxtrot";
   "Rumba"; "Swing"; "Polka"; "Mambo"; "Samba"] 10.

Definition SAMPLE_PUZZLE : Puzzle := Puzzle.mk "puzzle-sample-001" "2026-01"
  [fruits; countries; dogBreeds; elements; greekGods;
   pasta; instruments; gemstones; currencies; dances].

(* ===================================================================== *)
(** ** Arrays: indexed read and write *)
(* ===================================================================== *)

(** [arr[i] = x] for an index inside the array.  The shuffle only writes
    inside the array, so the JS behaviour of extending the array on an
    out-of-range write is never exercised; outside the range [assign]
    leaves the list as it is. *)
Fixpoint assign {T} (i : nat) (x : T) (arr : list T) : list T :=
  match arr, i with
  | [], _ => []
  | _ :: rest, O => x :: rest
  | y :: rest, S i' => y :: assign i' x rest
  end.

(** [[arr[i], arr[j]] = [arr[j], arr[i]]]: the right-hand side is read
    first, then [arr[i]] and [arr[j]] are written in that order.  Every
    call the shuffle makes has both indexes inside the array. *)
Definition swap {T} (i j : nat) (arr : list T) : list T :=
  match nth_error arr i, nth_error arr j with
  | Some ai, Some aj => assign j ai (assign i aj arr)
  | _, _ => arr
  end.

(* ===================================================================== *)
(** ** shuffleArray ([src/data/samplePuzzle.ts]) *)
(* ===================================================================== *)

(** The random source.  At loop index [i] the source draws
    [j = Math.floor(Math.random() * (i + 1))], some index in [0..i];
    the oracle's answer for [i] is reduced into that range. *)
Definition Random := nat -> nat.

Definition draw (rnd : Random) (i : nat) : nat := rnd i mod (i + 1).

(** The loop [for (i = length - 1; i > 0; i--)], entered with [i]. *)
Fixpoint shuffleLoop {T} (rnd : Random) (i : nat) (shuffled : list T) : list T :=
  match i with
  | O => shuffled
  | S i' => shuffleLoop rnd i' (swap i (draw rnd i) shuffled)
  end.

Definition shuffleArray {T} (rnd : Random) (array : list T) : list T :=
  shuffleLoop rnd (length array - 1) array.

(* ===================================================================== *)
(** ** Initialization ([src/hooks/useGameState.ts]) *)
(* ===================================================================== *)

(** [String(index)] for an array index. *)
Definition indexToString (index : nat) : string :=
  NilEmpty.string_of_uint (Nat.to_uint index).

(** The template literal [`${category.id}-${index}`]. *)
Definition squareId (categoryId : string) (index : nat) : string :=
  categoryId ++ "-" ++ indexToString index.

(** [category.items.forEach((item, index) => squares.push(...))], entered
    at [index]. *)
Fixpoint pushItems (categoryId : string) (index : nat) (items : list string)
  : list GridSquare :=
  match items with
  | [] => []
  | item :: rest =>
      GridSquare.mk (squareId categoryId index) [item] categoryId false
        :: pushItems categoryId (S index) rest
  end.

(** The array [squares] as it stands before the shuffle. *)
Definition unitSquares (puzzle : Puzzle) : list GridSquare :=
  flat_map (fun category =>
              pushItems (Category.id category) 0 (Category.items category))
           (Puzzle.categories puzzle).

Definition initializeGrid (rnd : Random) (puzzle : Puzzle) : list GridSquare :=
  shuffleArray rnd (unitSquares puzzle).

Definition initializeGameState (rnd : Random) (now : Z) (puzzle : Puzzle) : GameState :=
  GameState.mk (Puzzle.id puzzle) (initializeGrid rnd puzzle) 0 [] playing now None.

(* ===================================================================== *)
(** ** The hook state and its queries ([useGameState]) *)
(* ===================================================================== *)

(** The four [useState] cells of the hook. *)
Module HookState.
Record t := mk {
  gameState : GameState;
  selectedSquareIds : SelectedSquareIds;
  lastMergeResult : option MergeResult;
  shakingSquareIds : list string
}.
End HookState.
Abbreviation HookState := HookState.t.

Definition includes (ids : list string) (squareId : string) : bool :=
  existsb (String.eqb squareId) ids.

Definition isSquareSelected (st : HookState) (squareId : string) : bool :=
  includes (HookState.selectedSquareIds st) squareId.

(** [grid.find((sq) => sq.id === squareId)]; [undefined] is [None]. *)
Definition getSquareById (grid : list GridSquare) (squareId : string)
  : option GridSquare :=
  find (fun sq => GridSquare.id sq =? squareId) grid.

Definition getCategoryById (puzzle : Puzzle) (categoryId : string)
  : option Category :=
  find (fun cat => Category.id cat =? categoryId) (Puzzle.categories puzzle).

(** [{ ...prev, mistakes: prev.mistakes + 1 }] *)
Definition withMistake (prev : GameState) : GameState :=
  GameState.mk (GameState.puzzleId prev) (GameState.grid prev)
    (GameState.mistakes prev + 1) (GameState.solvedCategoryIds prev)
    (GameState.status prev) (GameState.startTime prev) (GameState.endTime prev).

(* ===================================================================== *)
(** ** Merge logic *)
(* ===================================================================== *)

Definition mergeSquares (squareA squareB : GridSquare) : GridSquare :=
  GridSquare.mk (GridSquare.id squareA)
    (GridSquare.items squareA ++ GridSquare.items squareB)
    (GridSquare.categoryId squareA)
    (length (GridSquare.items squareA) + length (GridSquare.items squareB) =? 10)%nat.

(** The updater handed to [setGameState] on a successful merge. *)
Definition applyMerge (now : Z) (squareIdA squareIdB : string)
  (mergedSquare : GridSquare) (prev : GameState) : GameState :=
  let newGrid :=
    filter (fun sq => negb (GridSquare.id sq =? squareIdA)
                      && negb (GridSquare.id sq =? squareIdB))
           (GameState.grid prev)
    ++ [mergedSquare] in
  let newSolvedCategoryIds :=
    if GridSquare.isSolved mergedSquare
    then GameState.solvedCategoryIds prev ++ [GridSquare.categoryId mergedSquare]
    else GameState.solvedCategoryIds prev in
  let isWon := (length newSolvedCategoryIds =? 10)%nat in
  GameState.mk (GameState.puzzleId prev) newGrid (GameState.mistakes prev)
    newSolvedCategoryIds
    (if isWon then won else playing)
    (GameState.startTime prev)
    (if isWon then Some now else None).

(** [attemptMerge]: the result it returns and the game state its
    [setGameState] call, if any, leaves behind. *)
Definition attemptMerge (puzzle : Puzzle) (now : Z)
  (squareIdA squareIdB : string) (gs : GameState) : MergeResult * GameState :=
  match getSquareById (GameState.grid gs) squareIdA,
        getSquareById (GameState.grid gs) squareIdB with
  | Some squareA, Some squareB =>
      if negb (GridSquare.categoryId squareA =? GridSquare.categoryId squareB)
      then (MergeFailure different_categories, withMistake gs)
      else
        let mergedSquare := mergeSquares squareA squareB in
        let solvedCategory :=
          if GridSquare.isSolved mergedSquare
          then getCategoryById puzzle (GridSquare.categoryId mergedSquare)
          else None in
        (MergeSuccess mergedSquare solvedCategory,
         applyMerge now squareIdA squareIdB mergedSquare gs)
  | _, _ => (MergeFailure different_categories, gs)
  end.

(* ===================================================================== *)
(** ** Selection logic and game control *)
(* ===================================================================== *)

(** [selectSquare], returning next to the new hook state the merge attempt
    its updater made, if it made one.  The second component is a record of
    the call to [attemptMerge]; the source function itself returns nothing
    and is [selectSquare] below. *)
Definition selectSquareTraced (puzzle : Puzzle) (now : Z) (squareId : string)
  (st : HookState) : HookState * option MergeResult :=
  let gs := HookState.gameState st in
  match GameState.status gs with
  | won => (st, None)
  | playing =>
      match getSquareById (GameState.grid gs) squareId with
      | None => (st, None)
      | Some square =>
          if GridSquare.isSolved square then (st, None)
          else
            let prev := HookState.selectedSquareIds st in
            if includes prev squareId
            then (HookState.mk gs
                    (filter (fun id => negb (id =? squareId)) prev) None [],
                  None)
            else if (length prev =? 1)%nat
            then
              let first := nth 0 prev "" in
              let (result, gs') := attemptMerge puzzle now first squareId gs in
              (HookState.mk gs' [] (Some result)
                 (if success result then [] else [first; squareId]),
               Some result)
            else (HookState.mk gs [squareId] None [], None)
      end
  end.

Definition selectSquare (puzzle : Puzzle) (now : Z) (squareId : string)
  (st : HookState) : HookState :=
  fst (selectSquareTraced puzzle now squareId st).

Definition clearSelection (st : HookState) : HookState :=
  HookState.mk (HookState.gameState st) [] None [].

Definition clearShake (st : HookState) : HookState :=
  HookState.mk (HookState.gameState st) (HookState.selectedSquareIds st)
    (HookState.lastMergeResult st) [].

Definition resetGame (puzzle : Puzzle) (rnd : Random) (now : Z) (st : HookState)
  : HookState :=
  HookState.mk (initializeGameState rnd now puzzle) [] None [].

(** The state the hook is mounted with. *)
Definition useGameState (puzzle : Puzzle) (rnd : Random) (now : Z) : HookState :=
  HookState.mk (initializeGameState rnd now puzzle) [] None [].

(** The actions the hook exposes, each with the clock reading or random
    source it consumes. *)
Inductive Action :=
| SelectSquare (now : Z) (squareId : string)
| ResetGame (rnd : Random) (now : Z)
| ClearSelection
| ClearShake.

Definition perform (puzzle : Puzzle) (st : HookState) (a : Action) : HookState :=
  match a with
  | SelectSquare now squareId => selectSquare puzzle now squareId st
  | ResetGame rnd now => resetGame puzzle rnd now st
  | ClearSelection => clearSelection st
  | ClearShake => clearShake st
  end.

(** A session: mount the hook, then perform the actions in order. *)
Definition play (puzzle : Puzzle) (rnd : Random) (now : Z) (actions : list Action)
  : HookState :=
  fold_left (perform puzzle) actions (useGameState puzzle rnd now).

(** The states a session can be in. *)
Inductive reachable (puzzle : Puzzle) : HookState -> Prop :=
| reachable_mount rnd now : reachable puzzle (useGameState puzzle rnd now)
| reachable_perform st a :
    reachable puzzle st -> reachable puzzle (perform puzzle st a).

(** [getAllItems] ([src/data/samplePuzzle.ts]). *)
Definition getAllItems (puzzle : Puzzle) : list string :=
  flat_map Category.items (Puzzle.categories puzzle).

(** The precondition on puzzles: ten categories with pairwise distinct
    ids, ten items each, no item occurring twice in the puzzle. *)
Definition wellFormed (puzzle : Puzzle) : Prop :=
  length (Puzzle.categories puzzle) = 10
  /\ Forall (fun cat => length (Category.items cat) = 10) (Puzzle.categories puzzle)
  /\ NoDup (map Category.id (Puzzle.categories puzzle))
  /\ NoDup (getAllItems puzzle).

(** [wellFormed] as a check that can be run on a given puzzle. *)
Fixpoint distinct (l : list string) : bool :=
  match l with
  | [] => true
  | x :: rest => negb (existsb (String.eqb x) rest) && distinct rest
  end.

Definition checkPuzzle (puzzle : Puzzle) : bool :=
  (length (Puzzle.categories puzzle) =? 10)%nat
  && forallb (fun cat => (length (Category.items cat) =? 10)%nat)
             (Puzzle.categories puzzle)
  && distinct (map Category.id (Puzzle.categories puzzle))
  && distinct (getAllItems puzzle).

(** Sample sessions on the sample puzzle.  Under [keepOrder] every draw
    is the loop index itself, so the shuffle leaves the squares in puzzle
    order. *)
Definition keepOrder : Random := fun i => i.

(** Merging the ten items of one category into its first square. *)
Definition solveCategory (categoryId : string) : list Action :=
  flat_map (fun k => [SelectSquare 0 (squareId categoryId 0);
                      SelectSquare 0 (squareId categoryId k)])
           (seq 1 9).

Definition solveAll : list Action :=
  flat_map solveCategory (map Category.id (Puzzle.categories SAMPLE_PUZZLE)).

(** Sum of [items.length] over a list of squares. *)
Definition itemCount (squares : list GridSquare) : nat :=
  list_sum (map (fun sq => length (GridSquare.items sq)) squares).

(* ===================================================================== *)
(** ** Row packing ([src/utils/gridLayout.ts]) *)
(* ===================================================================== *)

Definition TARGET_ITEMS_PER_ROW : nat := 5.
Definition MAX_ITEMS_PER_ROW : nat := 10.

(** The comparator [(a, b) => b.items.length - a.items.length]. *)
Definition bySizeDescending (a b : GridSquare) : Z :=
  Z.of_nat (length (GridSquare.items b)) - Z.of_nat (length (GridSquare.items a)).

(** [Array.prototype.sort] is stable: elements the comparator does not
    order keep their relative position.  [insertSorted x l] puts [x], which
    stood before every element of [l], in front of the first element it
    need not follow. *)
Fixpoint insertSorted {T} (compareFn : T -> T -> Z) (x : T) (l : list T) : list T :=
  match l with
  | [] => [x]
  | y :: rest =>
      if (compareFn x y <=? 0)%Z then x :: y :: rest
      else y :: insertSorted compareFn x rest
  end.

Definition sort {T} (compareFn : T -> T -> Z) (array : list T) : list T :=
  fold_right (insertSorted compareFn) [] array.

(** The variables of the packing loop. *)
Module Packing.
Record t := mk {
  rows : list LayoutRow;
  currentSquares : list GridSquare;
  currentTotal : nat
}.
End Packing.

(** One iteration of [for (const square of sorted)]. *)
Definition packSquare (acc : Packing.t) (square : GridSquare) : Packing.t :=
  let itemCount := length (GridSquare.items square) in
  let wouldExceed := (MAX_ITEMS_PER_ROW <? Packing.currentTotal acc + itemCount)%nat in
  let isAtTarget := (TARGET_ITEMS_PER_ROW <=? Packing.currentTotal acc)%nat in
  if (wouldExceed || isAtTarget) && (0 <? length (Packing.currentSquares acc))%nat
  then Packing.mk
         (Packing.rows acc
          ++ [LayoutRow.mk (Packing.currentSquares acc) (Packing.currentTotal acc)])
         [square] itemCount
  else Packing.mk (Packing.rows acc)
         (Packing.currentSquares acc ++ [square])
         (Packing.currentTotal acc + itemCount).

(** "Don't forget the last row". *)
Definition closeLastRow (acc : Packing.t) : list LayoutRow :=
  if (0 <? length (Packing.currentSquares acc))%nat
  then Packing.rows acc
       ++ [LayoutRow.mk (Packing.currentSquares acc) (Packing.currentTotal acc)]
  else Packing.rows acc.

Definition packIntoRows (squares : list GridSquare) : list LayoutRow :=
  if (length squares =? 0)%nat then []
  else
    let sorted := sort bySizeDescending squares in
    closeLastRow (fold_left packSquare sorted (Packing.mk [] [] 0)).

Definition getUnsolvedSquares (squares : list GridSquare) : list GridSquare :=
  filter (fun sq => negb (GridSquare.isSolved sq)) squares.

Definition getSolvedSquares (squares : list GridSquare) : list GridSquare :=
  filter (fun sq => GridSquare.isSolved sq) squares.

(* ===================================================================== *)
(** ** The array-handling functions on a store *)
(* ===================================================================== *)

(** [shuffleArray], [initializeGrid] and [packIntoRows] work on arrays,
    which JS passes by reference and updates in place ([push], [sort],
    indexed assignment).  To speak about what they leave untouched, the
    three are given a second time over an explicit store: the puzzle object
    the hook was handed and the arrays of squares allocated so far, an
    array reference being its position in the store.  The list functions
    above are then shown to compute what these compute. *)

Module Store.
Record t := mk { puzzle : Puzzle; arrays : list (list GridSquare) }.
End Store.
Abbreviation Store := Store.t.

Definition Ref := nat.

Definition M (A : Type) : Type := Store -> A * Store.

Definition ret {A} (a : A) : M A := fun s => (a, s).

Definition bind {A B} (m : M A) (k : A -> M B) : M B :=
  fun s => let (a, s') := m s in k a s'.

Declare Scope store_scope.
Delimit Scope store_scope with store.
Notation "x <- m ;; k" := (bind m (fun x => k))
  (at level 61, m at next level, right associativity) : store_scope.
Notation "m ;; k" := (bind m (fun _ => k))
  (at level 61, right associativity) : store_scope.
Local Open Scope store_scope.

(** Reading the puzzle object; nothing below writes to it. *)
Definition getPuzzle : M Puzzle := fun s => (Store.puzzle s, s).

(** An array literal: a new array with the given contents. *)
Definition newArray (contents : list GridSquare) : M Ref :=
  fun s => (length (Store.arrays s),
            Store.mk (Store.puzzle s) (Store.arrays s ++ [contents])).

Definition readArray (r : Ref) : M (list GridSquare) :=
  fun s => (nth r (Store.arrays s) [], s).

Definition writeArray (r : Ref) (contents : list GridSquare) : M unit :=
  fun s => (tt, Store.mk (Store.puzzle s) (assign r contents (Store.arrays s))).

(** [[...array]] *)
Definition spread (array : Ref) : M Ref :=
  contents <- readArray array ;; newArray contents.

(** [array.push(x)] *)
Definition push (array : Ref) (x : GridSquare) : M unit :=
  contents <- readArray array ;; writeArray array (contents ++ [x]).

(** [array.sort(compareFn)]: sorts in place and returns the same array. *)
Definition sortInPlace (array : Ref) (compareFn : GridSquare -> GridSquare -> Z)
  : M Ref :=
  contents <- readArray array ;;
  writeArray array (sort compareFn contents) ;;
  ret array.

(** [[array[i], array[j]] = [array[j], array[i]]] *)
Definition swapInPlace (array : Ref) (i j : nat) : M unit :=
  contents <- readArray array ;; writeArray array (swap i j contents).

Fixpoint shuffleLoopM (rnd : Random) (i : nat) (shuffled : Ref) : M unit :=
  match i with
  | O => ret tt
  | S i' => swapInPlace shuffled i (draw rnd i) ;; shuffleLoopM rnd i' shuffled
  end.

Definition shuffleArrayM (rnd : Random) (array : Ref) : M Ref :=
  shuffled <- spread array ;;
  contents <- readArray shuffled ;;
  shuffleLoopM rnd (length contents - 1) shuffled ;;
  ret shuffled.

(** [items.forEach((item, index) => squares.push({...}))], entered at
    [index]. *)
Fixpoint pushItemsM (squares : Ref) (categoryId : string) (index : nat)
  (items : list string) : M unit :=
  match items with
  | [] => ret tt
  | item :: rest =>
      push squares
        (GridSquare.mk (squareId categoryId index) [item] categoryId false) ;;
      pushItemsM squares categoryId (S index) rest
  end.

Fixpoint pushCategoriesM (squares : Ref) (categories : list Category) : M unit :=
  match categories with
  | [] => ret tt
  | category :: rest =>
      pushItemsM squares (Category.id category) 0 (Category.items category) ;;
      pushCategoriesM squares rest
  end.

Definition initializeGridM (rnd : Random) : M Ref :=
  squares <- newArray [] ;;
  puzzle <- getPuzzle ;;
  pushCategoriesM squares (Puzzle.categories puzzle) ;;
  shuffleArrayM rnd squares.

(** The game state holds the array [initializeGrid] returned. *)
Definition initializeGameStateM (rnd : Random) (now : Z) : M GameState :=
  puzzle <- getPuzzle ;;
  gridRef <- initializeGridM rnd ;;
  grid <- readArray gridRef ;;
  ret (GameState.mk (Puzzle.id puzzle) grid 0 [] playing now None).

(** A row whose [squares] field is the array it refers to. *)
Module RowRef.
Record t := mk { squares : Ref; totalItems : nat }.
End RowRef.

Module PackingM.
Record t := mk {
  rows : list RowRef.t;
  currentSquares : Ref;
  currentTotal : nat
}.
End PackingM.

Definition packSquareM (acc : PackingM.t) (square : GridSquare) : M PackingM.t :=
  let itemCount := length (GridSquare.items square) in
  let wouldExceed := (MAX_ITEMS_PER_ROW <? PackingM.currentTotal acc + itemCount)%nat in
  let isAtTarget := (TARGET_ITEMS_PER_ROW <=? PackingM.currentTotal acc)%nat in
  current <- readArray (PackingM.currentSquares acc) ;;
  if (wouldExceed || isAtTarget) && (0 <? length current)%nat
  then
    fresh <- newArray [square] ;;
    ret (PackingM.mk
           (PackingM.rows acc
            ++ [RowRef.mk (PackingM.currentSquares acc) (PackingM.currentTotal acc)])
           fresh itemCount)
  else
    push (PackingM.currentSquares acc) square ;;
    ret (PackingM.mk (PackingM.rows acc) (PackingM.currentSquares acc)
           (PackingM.currentTotal acc + itemCount)).

(** The loop over the elements of [sorted]; the body writes no element of
    [sorted], so the loop runs over the contents read at its entry. *)
Fixpoint packLoopM (sorted : list GridSquare) (acc : PackingM.t) : M PackingM.t :=
  match sorted with
  | [] => ret acc
  | square :: rest => acc' <- packSquareM acc square ;; packLoopM rest acc'
  end.

Definition packIntoRowsM (squares : Ref) : M (list RowRef.t) :=
  input <- readArray squares ;;
  if (length input =? 0)%nat then ret []
  else
    copy <- spread squares ;;
    sorted <- sortInPlace copy bySizeDescending ;;
    currentSquares <- newArray [] ;;
    elements <- readArray sorted ;;
    acc <- packLoopM elements (PackingM.mk [] currentSquares 0) ;;
    current <- readArray (PackingM.currentSquares acc) ;;
    if (0 <? length current)%nat
    then ret (PackingM.rows acc
              ++ [RowRef.mk (PackingM.currentSquares acc) (PackingM.currentTotal acc)])
    else ret (PackingM.rows acc).

(** The rows as the caller reads them: each reference followed. *)
Definition followRows (s : Store) (rows : list RowRef.t) : list LayoutRow :=
  map (fun r => LayoutRow.mk (nth (RowRef.squares r) (Store.arrays s) [])
                             (RowRef.totalItems r))
      rows.

(* ===================================================================== *)
(** ** What holds in every state of a session *)
(* ===================================================================== *)

(** Sum of [items.length] over the squares of one category. *)
Definition categoryItemCount (categoryId : string) (squares : list GridSquare) : nat :=
  itemCount (filter (fun sq => GridSquare.categoryId sq =? categoryId) squares).

(** The filter [applyMerge] runs over the grid. *)
Definition others (squareIdA squareIdB : string) (sq : GridSquare) : bool :=
  negb (GridSquare.id sq =? squareIdA) && negb (GridSquare.id sq =? squareIdB).

(** The game state of a session on a well-formed puzzle. *)
Record GameInv (gs : GameState) : Prop := {
  inv_ids : NoDup (map GridSquare.id (GameState.grid gs));
  inv_total : itemCount (GameState.grid gs) = 100;
  inv_category : forall c, categoryItemCount c (GameState.grid gs) <= 10;
  inv_flag : forall s, In s (GameState.grid gs) ->
      GridSquare.isSolved s = (length (GridSquare.items s) =? 10)%nat;
  inv_items : forall s, In s (GameState.grid gs) -> GridSquare.items s <> [];
  inv_solved_NoDup : NoDup (GameState.solvedCategoryIds gs);
  inv_solved_square : forall c, In c (GameState.solvedCategoryIds gs) ->
      exists s, In s (GameState.grid gs)
                /\ GridSquare.categoryId s = c /\ GridSquare.isSolved s = true;
  inv_won : GameState.status gs = won <-> length (GameState.solvedCategoryIds gs) = 10;
  inv_endTime : GameState.endTime gs <> None <-> GameState.status gs = won
}.

(** The selection is empty, or one unsolved square of a game still being
    played. *)
Definition SelectionInv (st : HookState) : Prop :=
  HookState.selectedSquareIds st = []
  \/ exists squareId square,
       HookState.selectedSquareIds st = [squareId]
       /\ getSquareById (GameState.grid (HookState.gameState st)) squareId = Some square
       /\ GridSquare.isSolved square = false
       /\ GameState.status (HookState.gameState st) = playing.

Definition Inv (st : HookState) : Prop :=
  GameInv (HookState.gameState st) /\ SelectionInv st.

(** What the packing loop keeps true of its variables: the rows emitted so
    far are non-empty, record the sum of their squares' item counts and
    stay within the ceiling, and the running total is the item count of the
    current row, within the ceiling too. *)
Definition RowOk (row : LayoutRow) : Prop :=
  LayoutRow.squares row <> []
  /\ LayoutRow.totalItems row = itemCount (LayoutRow.squares row)
  /\ LayoutRow.totalItems row <= MAX_ITEMS_PER_ROW.

Record PackingOk (acc : Packing.t) : Prop := {
  ok_rows : Forall RowOk (Packing.rows acc);
  ok_total : Packing.currentTotal acc = itemCount (Packing.currentSquares acc);
  ok_ceiling : Packing.currentTotal acc <= MAX_ITEMS_PER_ROW
}.

(** Larger squares first. *)
Fixpoint descending (squares : list GridSquare) : Prop :=
  match squares with
  | [] => True
  | x :: rest =>
      Forall (fun y => length (GridSquare.items y) <= length (GridSquare.items x)) rest
      /\ descending rest
  end.

(** The nine-item square and nine single squares of the design document's
    packing scenario. *)
Definition nineAndSingles : list GridSquare :=
  GridSquare.mk "cat-dogs-0"
    ["Labrador"; "Poodle"; "Bulldog"; "Beagle"; "Husky";
     "Boxer"; "Dalmatian"; "Chihuahua"; "Rottweiler"] "cat-dogs" false
  :: pushItems "cat-fruits" 0 (firstn 9 (Category.items fruits)).

(** How the packing loop on the store stands to the packing loop on
    lists: the rows emitted so far and the current row hold the same
    squares, the current row is an array of its own, allocated at or after
    [base], and no emitted row shares it. *)
Record Represents (base : nat) (s : Store) (accM : PackingM.t) (acc : Packing.t)
  : Prop := {
  rep_rows : followRows s (PackingM.rows accM) = Packing.rows acc;
  rep_current :
    nth (PackingM.currentSquares accM) (Store.arrays s) [] = Packing.currentSquares acc;
  rep_total : PackingM.currentTotal accM = Packing.currentTotal acc;
  rep_allocated : PackingM.currentSquares accM < length (Store.arrays s);
  rep_fresh : base <= PackingM.currentSquares accM;
  rep_closed :
    Forall (fun r => RowRef.squares r < length (Store.arrays s)
                     /\ RowRef.squares r <> PackingM.currentSquares accM)
           (PackingM.rows accM)
}.

(* ===================================================================== *)
(** ** Further functions of the cited files and of their callers *)
(* ===================================================================== *)

(** [findCategoryForItem] ([src/data/samplePuzzle.ts]):
    [puzzle.categories.find((cat) => cat.items.includes(item))]. *)
Definition findCategoryForItem (puzzle : Puzzle) (item : string) : option Category :=
  find (fun cat => includes (Category.items cat) item) (Puzzle.categories puzzle).

(** [getTotalRows] ([src/utils/gridLayout.ts]). *)
Definition getTotalRows (squares : list GridSquare) : nat :=
  length (packIntoRows squares).

(** A positioned item.  The source computes [widthFraction] as the
    floating-point quotient [square.items.length / row.totalItems]; the
    field holds the two operands of that division, dividend first. *)
Module LayoutItem.
Record t := mk { square : GridSquare; rowIndex : nat; widthFraction : nat * nat }.
End LayoutItem.
Abbreviation LayoutItem := LayoutItem.t.

(** [rows.forEach((row, rowIndex) => row.squares.forEach(...))], entered
    at [rowIndex]. *)
Fixpoint layoutRows (rowIndex : nat) (rows : list LayoutRow) : list LayoutItem :=
  match rows with
  | [] => []
  | row :: rest =>
      map (fun square =>
             LayoutItem.mk square rowIndex
               (length (GridSquare.items square), LayoutRow.totalItems row))
          (LayoutRow.squares row)
      ++ layoutRows (S rowIndex) rest
  end.

(** [calculateLayout] ([src/utils/gridLayout.ts]). *)
Definition calculateLayout (squares : list GridSquare) : list LayoutItem :=
  layoutRows 0 (packIntoRows squares).

(** The rule by which the packing loop closes a row: the square that
    opens the next row came when this row had reached the target, or would
    have taken it past the ceiling. *)
Definition closedBy (row next : LayoutRow) : Prop :=
  match LayoutRow.squares next with
  | [] => False
  | square :: _ =>
      TARGET_ITEMS_PER_ROW <= LayoutRow.totalItems row
      \/ MAX_ITEMS_PER_ROW
         < LayoutRow.totalItems row + length (GridSquare.items square)
  end.

Fixpoint greedy (rows : list LayoutRow) : Prop :=
  match rows with
  | row :: (next :: _) as rest => closedBy row next /\ greedy rest
  | _ => True
  end.

(** [formatTime] ([src/screens/GameScreen.tsx]).  Timestamps are whole
    milliseconds; on whole numbers of that size [Math.floor(x / d)] is the
    floor quotient, and [%] is the remainder that takes the sign of the
    dividend.  [toString] prints in decimal, and [padStart(2, '0')] puts
    zeros in front of a string shorter than two characters. *)
Definition numberToString (n : Z) : string := NilZero.string_of_int (Z.to_int n).

Definition padStart (targetLength : nat) (padChar : ascii) (s : string) : string :=
  string_of_list_ascii (repeat padChar (targetLength - String.length s)) ++ s.

Definition formatTime (now startTime : Z) (endTime : option Z) : string :=
  let elapsed := (match endTime with Some e => e | None => now end - startTime)%Z in
  let seconds := (elapsed / 1000)%Z in
  let mins := (seconds / 60)%Z in
  let secs := Z.rem seconds 60 in
  numberToString mins ++ ":" ++ padStart 2 "0"%char (numberToString secs).

(** What else holds of the game state in every state of a session: the
    items on the grid are the items of the puzzle, every square holds items
    of the category it names, the solved squares are the solved categories
    in the order they were solved, and every category has its ten items on
    the grid. *)
Record ContentInv (puzzle : Puzzle) (gs : GameState) : Prop := {
  content_items :
    Permutation (getAllItems puzzle) (flat_map GridSquare.items (GameState.grid gs));
  content_category : forall s, In s (GameState.grid gs) ->
      exists category,
        In category (Puzzle.categories puzzle)
        /\ Category.id category = GridSquare.categoryId s
        /\ incl (GridSquare.items s) (Category.items category);
  content_solved :
    map GridSquare.categoryId (getSolvedSquares (GameState.grid gs))
    = GameState.solvedCategoryIds gs;
  content_full : forall category, In category (Puzzle.categories puzzle) ->
      categoryItemCount (Category.id category) (GameState.grid gs) = 10
}.

(** The feedback markers: nothing shakes unless the last attempt failed,
    and then the two squares of that attempt shake; a successful result
    carries a square of the grid, with its category when that square is
    solved. *)
Definition FeedbackInv (puzzle : Puzzle) (st : HookState) : Prop :=
  (HookState.shakingSquareIds st = []
   \/ exists first second,
        HookState.shakingSquareIds st = [first; second]
        /\ first <> second
        /\ HookState.lastMergeResult st = Some (MergeFailure different_categories)
        /\ HookState.selectedSquareIds st = [])
  /\ (forall mergedSquare solvedCategory,
        HookState.lastMergeResult st = Some (MergeSuccess mergedSquare solvedCategory) ->
        In mergedSquare (GameState.grid (HookState.gameState st))
        /\ solvedCategory
           = (if GridSquare.isSolved mergedSquare
              then getCategoryById puzzle (GridSquare.categoryId mergedSquare)
              else None)
        /\ HookState.selectedSquareIds st = []).

(* ===================================================================== *)
(** ** Arrays: facts about [assign] and [swap] *)
(* ===================================================================== *)

Section Arrays.
Context {T : Type}.
Implicit Types (arr : list T) (x a : T) (i j : nat).

Lemma assign_length i x arr : length (assign i x arr) = length arr.
Proof.
  revert i; induction arr as [|y rest IH]; intros [|i]; simpl; auto.
Qed.

Lemma nth_error_assign_eq i x arr :
  i < length arr -> nth_error (assign i x arr) i = Some x.
Proof.
  revert i; induction arr as [|y rest IH]; intros [|i] Hi; simpl in *;
    try lia; auto.
  apply IH; lia.
Qed.

Lemma nth_error_assign_ne i j x arr :
  i <> j -> nth_error (assign i x arr) j = nth_error arr j.
Proof.
  revert i j; induction arr as [|y rest IH]; intros [|i] [|j] Hij; simpl;
    try congruence; auto.
Qed.

Lemma nth_assign_eq i x arr d :
  i < length arr -> nth i (assign i x arr) d = x.
Proof.
  intros Hi. apply nth_error_nth. now apply nth_error_assign_eq.
Qed.

Lemma nth_assign_ne i j x arr d :
  i <> j -> nth j (assign i x arr) d = nth j arr d.
Proof.
  revert i j; induction arr as [|y rest IH]; intros [|i] [|j] Hij; simpl;
    try congruence; auto.
Qed.

(** Writing [x] at [i] trades the old element at [i] for [x]. *)
Lemma assign_Permutation i x a arr :
  nth_error arr i = Some a ->
  Permutation (x :: arr) (a :: assign i x arr).
Proof.
  revert i; induction arr as [|y rest IH]; intros [|i] Hi; simpl in *;
    try discriminate.
  - injection Hi as ->. apply perm_swap.
  - apply perm_trans with (y :: x :: rest); [apply perm_swap|].
    apply perm_trans with (y :: a :: assign i x rest); [|apply perm_swap].
    now apply perm_skip, IH.
Qed.

Lemma swap_Permutation i j arr : Permutation arr (swap i j arr).
Proof.
  unfold swap.
  destruct (nth_error arr i) as [ai|] eqn:Hi; [|reflexivity].
  destruct (nth_error arr j) as [aj|] eqn:Hj; [|reflexivity].
  apply (Permutation_cons_inv (a := aj)).
  rewrite (assign_Permutation i aj ai arr Hi).
  apply assign_Permutation.
  destruct (Nat.eq_dec i j) as [->|Hne].
  - apply nth_error_assign_eq. apply nth_error_Some. congruence.
  - now rewrite nth_error_assign_ne.
Qed.

Lemma shuffleLoop_Permutation rnd i arr :
  Permutation arr (shuffleLoop rnd i arr).
Proof.
  revert arr; induction i as [|i IH]; intros arr; simpl.
  - reflexivity.
  - rewrite <- IH. apply swap_Permutation.
Qed.

Lemma shuffleArray_Permutation rnd arr :
  Permutation arr (shuffleArray rnd arr).
Proof. apply shuffleLoop_Permutation. Qed.
End Arrays.

(* ===================================================================== *)
(** ** Square ids *)
(* ===================================================================== *)

Lemma string_length_append (s t : string) :
  String.length (s ++ t) = String.length s + String.length t.
Proof. induction s as [|c s IH]; simpl; auto. Qed.

(** Two concatenations with tails of equal length agree piecewise. *)
Lemma append_same_tail_length (s1 s2 t1 t2 : string) :
  String.length t1 = String.length t2 ->
  (s1 ++ t1 = s2 ++ t2)%string -> s1 = s2 /\ t1 = t2.
Proof.
  revert s2; induction s1 as [|c1 s1 IH]; intros [|c2 s2] Hlen Heq; simpl in *.
  - auto.
  - apply (f_equal String.length) in Heq. simpl in Heq.
    rewrite string_length_append in Heq. lia.
  - apply (f_equal String.length) in Heq. simpl in Heq.
    rewrite string_length_append in Heq. lia.
  - injection Heq as -> Heq. destruct (IH s2 Hlen Heq) as [-> ->]. auto.
Qed.

(** Below ten an index prints as one digit, and different indexes print
    differently. *)
Lemma indexToString_digit (index : nat) :
  index < 10 -> String.length (indexToString index) = 1.
Proof.
  intros H. do 10 (destruct index as [|index]; [reflexivity|]). lia.
Qed.

Lemma indexToString_inj (i j : nat) :
  i < 10 -> j < 10 -> indexToString i = indexToString j -> i = j.
Proof.
  intros Hi Hj.
  do 10 (destruct i as [|i]; [do 10 (destruct j as [|j]; [vm_compute; congruence|]); lia|]).
  lia.
Qed.

Lemma squareId_inj (c1 c2 : string) (i j : nat) :
  i < 10 -> j < 10 -> squareId c1 i = squareId c2 j -> c1 = c2 /\ i = j.
Proof.
  intros Hi Hj Heq. unfold squareId in Heq.
  apply append_same_tail_length in Heq.
  - destruct Heq as [-> Heq]. split; [reflexivity|].
    injection Heq as Heq. now apply indexToString_inj.
  - simpl. now rewrite !indexToString_digit.
Qed.

(* ===================================================================== *)
(** ** Counting items *)
(* ===================================================================== *)

Lemma itemCount_cons s squares :
  itemCount (s :: squares) = length (GridSquare.items s) + itemCount squares.
Proof. reflexivity. Qed.

Lemma itemCount_app l1 l2 : itemCount (l1 ++ l2) = itemCount l1 + itemCount l2.
Proof. unfold itemCount. now rewrite map_app, list_sum_app. Qed.

Lemma itemCount_Permutation l1 l2 :
  Permutation l1 l2 -> itemCount l1 = itemCount l2.
Proof.
  intros H. unfold itemCount.
  apply Permutation_list_sum. now apply Permutation_map.
Qed.

Lemma filter_Permutation {T} (f : T -> bool) (l1 l2 : list T) :
  Permutation l1 l2 -> Permutation (filter f l1) (filter f l2).
Proof.
  induction 1 as [|x l1 l2 _ IH|x y l|l1 l2 l3 _ IH1 _ IH2]; simpl.
  - constructor.
  - destruct (f x); auto.
  - destruct (f x), (f y); auto. apply perm_swap.
  - now transitivity (filter f l2).
Qed.

Lemma categoryItemCount_Permutation c l1 l2 :
  Permutation l1 l2 -> categoryItemCount c l1 = categoryItemCount c l2.
Proof.
  intros H. apply itemCount_Permutation. now apply filter_Permutation.
Qed.

Lemma categoryItemCount_app c l1 l2 :
  categoryItemCount c (l1 ++ l2) = categoryItemCount c l1 + categoryItemCount c l2.
Proof. unfold categoryItemCount. now rewrite filter_app, itemCount_app. Qed.

Lemma categoryItemCount_cons c s l :
  categoryItemCount c (s :: l) =
  (if GridSquare.categoryId s =? c then length (GridSquare.items s) else 0)
  + categoryItemCount c l.
Proof.
  unfold categoryItemCount. simpl. now destruct (GridSquare.categoryId s =? c).
Qed.

(* ===================================================================== *)
(** ** The squares a puzzle expands to *)
(* ===================================================================== *)

(** What [pushItems] pushes, square by square. *)
Lemma pushItems_In categoryId index items s :
  In s (pushItems categoryId index items) <->
  exists k item,
    nth_error items k = Some item /\
    s = GridSquare.mk (squareId categoryId (index + k)) [item] categoryId false.
Proof.
  revert index; induction items as [|it rest IH]; intros index; simpl.
  - split; [tauto|]. intros (k & item & Hk & _). now destruct k.
  - rewrite IH. split.
    + intros [<-|(k & item & Hk & ->)].
      * exists 0, it. rewrite Nat.add_0_r. auto.
      * exists (S k), item. rewrite Nat.add_succ_r. auto.
    + intros (k & item & Hk & ->). destruct k as [|k]; simpl in Hk.
      * injection Hk as ->. rewrite Nat.add_0_r. auto.
      * right. exists k, item. rewrite Nat.add_succ_r. auto.
Qed.

Lemma pushItems_length categoryId index items :
  length (pushItems categoryId index items) = length items.
Proof. revert index; induction items; intros; simpl; auto. Qed.

Lemma pushItems_itemCount categoryId index items :
  itemCount (pushItems categoryId index items) = length items.
Proof.
  revert index; induction items as [|it rest IH]; intros; simpl; auto.
  rewrite itemCount_cons, IH. reflexivity.
Qed.

Lemma pushItems_ids categoryId index items :
  map GridSquare.id (pushItems categoryId index items)
  = map (squareId categoryId) (seq index (length items)).
Proof.
  revert index; induction items as [|it rest IH]; intros; simpl; auto.
  now rewrite IH.
Qed.

Lemma pushItems_categoryItemCount c categoryId index items :
  categoryItemCount c (pushItems categoryId index items)
  = if categoryId =? c then length items else 0.
Proof.
  revert index; induction items as [|it rest IH]; intros; simpl.
  - now destruct (categoryId =? c).
  - rewrite categoryItemCount_cons, IH. simpl.
    now destruct (categoryId =? c).
Qed.

(** Every unit square comes from one item of one category: its id is the
    category id and the item's index, it holds that item alone, and it is
    unsolved. *)
Lemma unitSquares_In puzzle s :
  In s (unitSquares puzzle) <->
  exists category index item,
    In category (Puzzle.categories puzzle) /\
    nth_error (Category.items category) index = Some item /\
    s = GridSquare.mk (squareId (Category.id category) index) [item]
          (Category.id category) false.
Proof.
  unfold unitSquares. rewrite in_flat_map. split.
  - intros (category & Hin & Hs). apply pushItems_In in Hs.
    destruct Hs as (k & item & Hk & ->). exists category, k, item. auto.
  - intros (category & k & item & Hin & Hk & ->). exists category.
    split; [assumption|]. apply pushItems_In. exists k, item. auto.
Qed.

Lemma unitSquares_length puzzle :
  length (unitSquares puzzle) = length (getAllItems puzzle).
Proof.
  unfold unitSquares, getAllItems.
  induction (Puzzle.categories puzzle) as [|category rest IH]; simpl; auto.
  now rewrite !length_app, pushItems_length, IH.
Qed.

Lemma unitSquares_itemCount puzzle :
  itemCount (unitSquares puzzle) = length (getAllItems puzzle).
Proof.
  unfold unitSquares, getAllItems.
  induction (Puzzle.categories puzzle) as [|category rest IH]; simpl; auto.
  now rewrite itemCount_app, length_app, pushItems_itemCount, IH.
Qed.

Lemma getAllItems_length puzzle :
  wellFormed puzzle -> length (getAllItems puzzle) = 100.
Proof.
  intros (Hlen & Hitems & _). unfold getAllItems.
  assert (H : forall cats,
             Forall (fun cat => length (Category.items cat) = 10) cats ->
             length (flat_map Category.items cats) = 10 * length cats).
  { induction 1 as [|cat cats Hc _ IH]; simpl; auto.
    rewrite length_app, Hc, IH. lia. }
  rewrite (H _ Hitems), Hlen. reflexivity.
Qed.

Lemma unitSquares_categoryItemCount puzzle c :
  wellFormed puzzle -> categoryItemCount c (unitSquares puzzle) <= 10.
Proof.
  intros (_ & Hitems & Hids & _). unfold unitSquares.
  assert (Hnone : forall cats,
             ~ In c (map Category.id cats) ->
             categoryItemCount c
               (flat_map (fun category =>
                  pushItems (Category.id category) 0 (Category.items category))
                  cats) = 0).
  { induction cats as [|cat cats IH]; simpl; intros Hc; auto.
    rewrite categoryItemCount_app, pushItems_categoryItemCount, IH by tauto.
    destruct (String.eqb_spec (Category.id cat) c); [tauto|reflexivity]. }
  induction (Puzzle.categories puzzle) as [|cat cats IH]; simpl.
  - unfold categoryItemCount, itemCount; simpl; lia.
  - inversion Hitems as [|? ? Hc Hrest]; subst.
    inversion Hids as [|? ? Hnotin Hnodup]; subst.
    rewrite categoryItemCount_app, pushItems_categoryItemCount.
    destruct (String.eqb_spec (Category.id cat) c) as [Heq|Hne].
    + subst c. rewrite Hnone by assumption. lia.
    + specialize (IH Hrest Hnodup). lia.
Qed.

Lemma unitSquares_ids_NoDup puzzle :
  wellFormed puzzle -> NoDup (map GridSquare.id (unitSquares puzzle)).
Proof.
  intros (_ & Hitems & Hids & _). unfold unitSquares.
  induction (Puzzle.categories puzzle) as [|cat cats IH]; simpl.
  - constructor.
  - inversion Hitems as [|? ? Hc Hrest]; subst.
    inversion Hids as [|? ? Hnotin Hnodup]; subst.
    rewrite map_app. apply NoDup_app.
    + rewrite pushItems_ids, Hc.
      apply Injective_map_NoDup_in; [|apply seq_NoDup].
      intros i j Hi Hj Heq. apply in_seq in Hi, Hj.
      apply squareId_inj in Heq; [tauto|lia|lia].
    + now apply IH.
    + intros i Hi Hi'. rewrite pushItems_ids, Hc in Hi.
      apply in_map_iff in Hi as (k & <- & Hk). apply in_seq in Hk.
      apply in_map_iff in Hi' as (s & Hs & Hin).
      apply in_flat_map in Hin as (cat' & Hcat' & Hin).
      apply pushItems_In in Hin as (k' & item & Hk' & ->). simpl in Hs.
      assert (k' < 10).
      { rewrite Forall_forall in Hrest. rewrite <- (Hrest _ Hcat').
        apply nth_error_Some. congruence. }
      apply squareId_inj in Hs; [|lia|lia].
      apply Hnotin. apply in_map_iff. exists cat'. split; [apply Hs|assumption].
Qed.

(* ===================================================================== *)
(** ** Looking squares up and taking two of them out *)
(* ===================================================================== *)

Lemma getSquareById_Some grid squareId s :
  getSquareById grid squareId = Some s -> In s grid /\ GridSquare.id s = squareId.
Proof.
  intros H. apply find_some in H. now rewrite String.eqb_eq in H.
Qed.

Lemma getSquareById_None grid squareId :
  getSquareById grid squareId = None ->
  forall s, In s grid -> GridSquare.id s <> squareId.
Proof.
  intros H s Hs. apply String.eqb_neq. exact (find_none _ _ H s Hs).
Qed.

Lemma getSquareById_absent grid squareId :
  ~ In squareId (map GridSquare.id grid) -> getSquareById grid squareId = None.
Proof.
  induction grid as [|x rest IH]; simpl; intros H; auto.
  destruct (String.eqb_spec (GridSquare.id x) squareId); [tauto|].
  apply IH. tauto.
Qed.

(** With pairwise distinct ids the lookup finds the very square asked
    for. *)
Lemma getSquareById_In grid s :
  NoDup (map GridSquare.id grid) -> In s grid ->
  getSquareById grid (GridSquare.id s) = Some s.
Proof.
  induction grid as [|x rest IH]; simpl; intros Hnd Hin; [tauto|].
  inversion Hnd as [|? ? Hx Hrest]; subst.
  destruct Hin as [->|Hin].
  - now rewrite String.eqb_refl.
  - destruct (String.eqb_spec (GridSquare.id x) (GridSquare.id s)) as [Heq|_].
    + exfalso. apply Hx. rewrite Heq. now apply in_map.
    + now apply IH.
Qed.

Lemma others_all squareIdA squareIdB grid :
  ~ In squareIdA (map GridSquare.id grid) ->
  ~ In squareIdB (map GridSquare.id grid) ->
  filter (others squareIdA squareIdB) grid = grid.
Proof.
  induction grid as [|x rest IH]; simpl; intros Ha Hb; auto.
  unfold others at 1.
  destruct (String.eqb_spec (GridSquare.id x) squareIdA); [tauto|].
  destruct (String.eqb_spec (GridSquare.id x) squareIdB); [tauto|].
  simpl. f_equal. apply IH; tauto.
Qed.

Lemma others_comm squareIdA squareIdB grid :
  filter (others squareIdA squareIdB) grid = filter (others squareIdB squareIdA) grid.
Proof. apply filter_ext. intros s. apply andb_comm. Qed.

Lemma take_one_out squareIdA squareIdB grid squareB :
  NoDup (map GridSquare.id grid) ->
  ~ In squareIdA (map GridSquare.id grid) ->
  getSquareById grid squareIdB = Some squareB ->
  Permutation grid (squareB :: filter (others squareIdA squareIdB) grid).
Proof.
  induction grid as [|x rest IH]; simpl; intros Hnd Ha Hb; [discriminate|].
  inversion Hnd as [|? ? Hx Hrest]; subst.
  unfold others at 1.
  destruct (String.eqb_spec (GridSquare.id x) squareIdA); [tauto|].
  destruct (String.eqb_spec (GridSquare.id x) squareIdB) as [Heq|Hne]; simpl.
  - injection Hb as ->. subst squareIdB.
    rewrite others_all by tauto. reflexivity.
  - rewrite perm_swap. apply perm_skip. apply IH; tauto.
Qed.

(** The grid is the two looked-up squares and the squares the filter
    keeps. *)
Lemma take_two_out squareIdA squareIdB grid squareA squareB :
  NoDup (map GridSquare.id grid) ->
  squareIdA <> squareIdB ->
  getSquareById grid squareIdA = Some squareA ->
  getSquareById grid squareIdB = Some squareB ->
  Permutation grid
    (squareA :: squareB :: filter (others squareIdA squareIdB) grid).
Proof.
  induction grid as [|x rest IH]; simpl; intros Hnd Hab Ha Hb; [discriminate|].
  inversion Hnd as [|? ? Hx Hrest]; subst.
  unfold others at 1.
  destruct (String.eqb_spec (GridSquare.id x) squareIdA) as [HeqA|HneA]; simpl.
  - injection Ha as ->. subst squareIdA.
    destruct (String.eqb_spec (GridSquare.id squareA) squareIdB); [tauto|].
    apply perm_skip. now apply take_one_out.
  - destruct (String.eqb_spec (GridSquare.id x) squareIdB) as [HeqB|HneB]; simpl.
    + injection Hb as ->. subst squareIdB.
      rewrite perm_swap. apply perm_skip.
      rewrite others_comm. now apply take_one_out.
    + apply perm_trans with (x :: squareA :: squareB
                               :: filter (others squareIdA squareIdB) rest).
      * apply perm_skip. now apply IH.
      * apply perm_trans with (squareA :: x :: squareB
                                 :: filter (others squareIdA squareIdB) rest).
        { apply perm_swap. }
        { apply perm_skip, perm_swap. }
Qed.

Lemma categoryItemCount_In c s squares :
  In s squares -> GridSquare.categoryId s = c ->
  length (GridSquare.items s) <= categoryItemCount c squares.
Proof.
  induction squares as [|x rest IH]; simpl; intros Hin Hc; [tauto|].
  rewrite categoryItemCount_cons. destruct Hin as [->|Hin].
  - rewrite Hc, String.eqb_refl. lia.
  - specialize (IH Hin Hc). lia.
Qed.

(* ===================================================================== *)
(** ** The invariant is established and kept *)
(* ===================================================================== *)

Lemma initializeGameState_GameInv puzzle rnd now :
  wellFormed puzzle -> GameInv (initializeGameState rnd now puzzle).
Proof.
  intros Hwf.
  pose proof (shuffleArray_Permutation rnd (unitSquares puzzle)) as HP.
  constructor; simpl; unfold initializeGrid.
  - apply (Permutation_NoDup (Permutation_map GridSquare.id HP)).
    now apply unitSquares_ids_NoDup.
  - rewrite <- (itemCount_Permutation _ _ HP), unitSquares_itemCount.
    now apply getAllItems_length.
  - intros c. rewrite <- (categoryItemCount_Permutation c _ _ HP).
    now apply unitSquares_categoryItemCount.
  - intros s Hs. apply (Permutation_in _ (Permutation_sym HP)) in Hs.
    apply unitSquares_In in Hs as (cat & k & item & _ & _ & ->). reflexivity.
  - intros s Hs. apply (Permutation_in _ (Permutation_sym HP)) in Hs.
    apply unitSquares_In in Hs as (cat & k & item & _ & _ & ->). discriminate.
  - constructor.
  - tauto.
  - split; discriminate.
  - split; [congruence|discriminate].
Qed.

Lemma withMistake_GameInv gs : GameInv gs -> GameInv (withMistake gs).
Proof. intros []. constructor; assumption. Qed.

Section Merge.
Variables (now : Z) (squareIdA squareIdB : string) (squareA squareB : GridSquare).
Variable gs : GameState.
Hypothesis Hinv : GameInv gs.
Hypothesis Hdistinct : squareIdA <> squareIdB.
Hypothesis HfindA : getSquareById (GameState.grid gs) squareIdA = Some squareA.
Hypothesis HfindB : getSquareById (GameState.grid gs) squareIdB = Some squareB.

Local Abbreviation rest := (filter (others squareIdA squareIdB) (GameState.grid gs)).

Lemma merge_split :
  Permutation (GameState.grid gs) (squareA :: squareB :: rest).
Proof. apply take_two_out; auto. apply Hinv. Qed.

Lemma merge_ids_split :
  NoDup (squareIdA :: squareIdB :: map GridSquare.id rest).
Proof.
  pose proof (Permutation_map GridSquare.id merge_split) as HP. simpl in HP.
  apply getSquareById_Some in HfindA as [_ <-].
  apply getSquareById_Some in HfindB as [_ <-].
  apply (Permutation_NoDup HP). apply Hinv.
Qed.

Lemma merge_grid :
  GameState.grid (applyMerge now squareIdA squareIdB (mergeSquares squareA squareB) gs)
  = rest ++ [mergeSquares squareA squareB].
Proof. reflexivity. Qed.

Lemma merge_rest_In s : In s rest -> In s (GameState.grid gs).
Proof. intros H. now apply filter_In in H. Qed.

(** A square other than the two merged ones survives the merge. *)
Lemma merge_keeps s :
  In s (GameState.grid gs) -> s <> squareA -> s <> squareB -> In s rest.
Proof.
  intros Hs HA HB. apply (Permutation_in _ merge_split) in Hs.
  destruct Hs as [Hs|[Hs|Hs]]; congruence.
Qed.

Lemma merge_itemCount :
  itemCount (rest ++ [mergeSquares squareA squareB]) = itemCount (GameState.grid gs).
Proof.
  rewrite (itemCount_Permutation _ _ merge_split), itemCount_app, !itemCount_cons.
  simpl. rewrite length_app. unfold itemCount at 2. simpl. lia.
Qed.

Hypothesis Hcategory : GridSquare.categoryId squareA = GridSquare.categoryId squareB.

Lemma merge_categoryItemCount c :
  categoryItemCount c (rest ++ [mergeSquares squareA squareB])
  = categoryItemCount c (GameState.grid gs).
Proof.
  rewrite (categoryItemCount_Permutation c _ _ merge_split).
  rewrite categoryItemCount_app, !categoryItemCount_cons. simpl.
  rewrite <- Hcategory, length_app.
  destruct (GridSquare.categoryId squareA =? c);
    unfold categoryItemCount, itemCount; simpl; lia.
Qed.

Hypothesis HunsolvedA : GridSquare.isSolved squareA = false.
Hypothesis HunsolvedB : GridSquare.isSolved squareB = false.

(** A category is completed at most once: while two unsolved squares of a
    category remain, no solved square of that category is on the grid. *)
Lemma merge_category_unsolved s :
  In s (GameState.grid gs) ->
  GridSquare.categoryId s = GridSquare.categoryId squareA ->
  GridSquare.isSolved s = false.
Proof.
  intros Hs Hc. destruct (GridSquare.isSolved s) eqn:Hsolved; [exfalso|reflexivity].
  assert (HsA : s <> squareA) by congruence.
  assert (HsB : s <> squareB) by congruence.
  pose proof (merge_keeps s Hs HsA HsB) as Hrest.
  pose proof (inv_flag gs Hinv s Hs) as Hflag.
  rewrite Hsolved in Hflag. symmetry in Hflag. apply Nat.eqb_eq in Hflag.
  pose proof (inv_category gs Hinv (GridSquare.categoryId squareA)) as Hle.
  rewrite (categoryItemCount_Permutation _ _ _ merge_split) in Hle.
  rewrite !categoryItemCount_cons, <- Hcategory, String.eqb_refl in Hle.
  pose proof (categoryItemCount_In _ s rest Hrest Hc) as Hs_le.
  apply getSquareById_Some in HfindA as [HinA _].
  pose proof (inv_items gs Hinv squareA HinA) as HneA.
  destruct (GridSquare.items squareA); [congruence|]. simpl in Hle. lia.
Qed.

Lemma applyMerge_GameInv :
  GameInv (applyMerge now squareIdA squareIdB (mergeSquares squareA squareB) gs).
Proof.
  pose proof merge_ids_split as Hids.
  inversion Hids as [|? ? HnotA Hids']; subst.
  inversion Hids' as [|? ? HnotB Hrest]; subst.
  assert (HidA : GridSquare.id squareA = squareIdA)
    by (now apply getSquareById_Some in HfindA).
  assert (HinA : In squareA (GameState.grid gs))
    by (now apply getSquareById_Some in HfindA).
  assert (Hold : forall c, In c (GameState.solvedCategoryIds gs) ->
            exists s, In s (rest ++ [mergeSquares squareA squareB])
                      /\ GridSquare.categoryId s = c /\ GridSquare.isSolved s = true).
  { intros c Hc. destruct (inv_solved_square gs Hinv c Hc) as (s & Hs & Hcs & Hsolved).
    exists s. split; [|auto]. apply in_or_app. left.
    apply merge_keeps; congruence. }
  constructor; rewrite ?merge_grid.
  - rewrite map_app. simpl. rewrite HidA.
    apply (Permutation_NoDup (Permutation_cons_append _ _)).
    constructor; [|assumption]. simpl in HnotA. tauto.
  - rewrite merge_itemCount. apply Hinv.
  - intros c. rewrite merge_categoryItemCount. apply Hinv.
  - intros s Hs. apply in_app_or in Hs as [Hs|[<-|[]]].
    + apply (inv_flag gs Hinv). now apply merge_rest_In.
    + simpl. now rewrite length_app.
  - intros s Hs. apply in_app_or in Hs as [Hs|[<-|[]]].
    + apply (inv_items gs Hinv). now apply merge_rest_In.
    + simpl. pose proof (inv_items gs Hinv squareA HinA).
      destruct (GridSquare.items squareA); [congruence|discriminate].
  - unfold applyMerge; simpl.
    destruct (length (GridSquare.items squareA) + length (GridSquare.items squareB) =? 10)%nat.
    + apply (Permutation_NoDup (Permutation_cons_append _ _)).
      constructor; [|apply Hinv]. intros Hc.
      destruct (inv_solved_square gs Hinv _ Hc) as (s & Hs & Hcs & Hsolved).
      rewrite (merge_category_unsolved s Hs Hcs) in Hsolved. discriminate.
    + apply Hinv.
  - unfold applyMerge at 1; simpl.
    destruct (length (GridSquare.items squareA) + length (GridSquare.items squareB) =? 10)%nat eqn:Hten.
    + intros c Hc. apply in_app_or in Hc as [Hc|[<-|[]]]; [now apply Hold|].
      exists (mergeSquares squareA squareB). split; [|split].
      * apply in_or_app. right. now left.
      * reflexivity.
      * exact Hten.
    + exact Hold.
  - unfold applyMerge; simpl.
    match goal with |- context [if (?n =? 10)%nat then won else playing] =>
      destruct (Nat.eqb_spec n 10) end; split; congruence.
  - unfold applyMerge; simpl.
    match goal with |- context [if (?n =? 10)%nat then won else playing] =>
      destruct (Nat.eqb_spec n 10) end; split; congruence.
Qed.
End Merge.

(* ===================================================================== *)
(** ** The paths of [selectSquare] *)
(* ===================================================================== *)

Lemma includes_single a b : includes [a] b = (b =? a).
Proof. unfold includes; simpl. apply orb_false_r. Qed.

(** The early returns. *)
Lemma selectSquareTraced_ignored puzzle now squareId st :
  GameState.status (HookState.gameState st) = won
  \/ getSquareById (GameState.grid (HookState.gameState st)) squareId = None
  \/ (exists square,
        getSquareById (GameState.grid (HookState.gameState st)) squareId = Some square
        /\ GridSquare.isSolved square = true) ->
  selectSquareTraced puzzle now squareId st = (st, None).
Proof.
  unfold selectSquareTraced.
  intros [H|[H|(square & H & Hsolved)]]; rewrite H.
  - reflexivity.
  - now destruct (GameState.status _).
  - rewrite Hsolved. now destruct (GameState.status _).
Qed.

(** Selecting the selected square again. *)
Lemma selectSquareTraced_deselect puzzle now squareId square st :
  GameState.status (HookState.gameState st) = playing ->
  getSquareById (GameState.grid (HookState.gameState st)) squareId = Some square ->
  GridSquare.isSolved square = false ->
  HookState.selectedSquareIds st = [squareId] ->
  selectSquareTraced puzzle now squareId st
  = (HookState.mk (HookState.gameState st) [] None [], None).
Proof.
  intros Hstatus Hfind Hunsolved Hsel. unfold selectSquareTraced.
  rewrite Hstatus, Hfind, Hunsolved, Hsel, includes_single, String.eqb_refl.
  simpl. now rewrite String.eqb_refl.
Qed.

(** The first selection. *)
Lemma selectSquareTraced_first puzzle now squareId square st :
  GameState.status (HookState.gameState st) = playing ->
  getSquareById (GameState.grid (HookState.gameState st)) squareId = Some square ->
  GridSquare.isSolved square = false ->
  HookState.selectedSquareIds st = [] ->
  selectSquareTraced puzzle now squareId st
  = (HookState.mk (HookState.gameState st) [squareId] None [], None).
Proof.
  intros Hstatus Hfind Hunsolved Hsel. unfold selectSquareTraced.
  now rewrite Hstatus, Hfind, Hunsolved, Hsel.
Qed.

(** The second selection: the merge attempt. *)
Lemma selectSquareTraced_second puzzle now first squareId square st :
  GameState.status (HookState.gameState st) = playing ->
  getSquareById (GameState.grid (HookState.gameState st)) squareId = Some square ->
  GridSquare.isSolved square = false ->
  HookState.selectedSquareIds st = [first] ->
  first <> squareId ->
  selectSquareTraced puzzle now squareId st
  = (let (result, gs') :=
       attemptMerge puzzle now first squareId (HookState.gameState st) in
     (HookState.mk gs' [] (Some result)
        (if success result then [] else [first; squareId]),
      Some result)).
Proof.
  intros Hstatus Hfind Hunsolved Hsel Hne. unfold selectSquareTraced.
  rewrite Hstatus, Hfind, Hunsolved, Hsel, includes_single.
  destruct (String.eqb_spec squareId first); [congruence|]. reflexivity.
Qed.

(** A merge is attempted on the second selection only. *)
Lemma selectSquareTraced_attempt puzzle now squareId st result :
  snd (selectSquareTraced puzzle now squareId st) = Some result ->
  exists first square,
    GameState.status (HookState.gameState st) = playing
    /\ getSquareById (GameState.grid (HookState.gameState st)) squareId = Some square
    /\ GridSquare.isSolved square = false
    /\ HookState.selectedSquareIds st = [first]
    /\ first <> squareId.
Proof.
  unfold selectSquareTraced.
  destruct (GameState.status _); [|discriminate].
  destruct (getSquareById _ squareId) as [square|]; [|discriminate].
  destruct (GridSquare.isSolved square) eqn:Hunsolved; [discriminate|].
  destruct (HookState.selectedSquareIds st) as [|first [|second more]] eqn:Hsel.
  - discriminate.
  - rewrite includes_single.
    destruct (String.eqb_spec squareId first) as [Heq|Hne]; [discriminate|].
    intros _. exists first, square. repeat split; congruence.
  - destruct (includes _ _); discriminate.
Qed.

Lemma attemptMerge_GameInv puzzle now squareIdA squareIdB squareB gs :
  GameInv gs ->
  squareIdA <> squareIdB ->
  (exists squareA, getSquareById (GameState.grid gs) squareIdA = Some squareA
                   /\ GridSquare.isSolved squareA = false) ->
  getSquareById (GameState.grid gs) squareIdB = Some squareB ->
  GridSquare.isSolved squareB = false ->
  GameInv (snd (attemptMerge puzzle now squareIdA squareIdB gs)).
Proof.
  intros Hinv Hne (squareA & HfindA & HunsolvedA) HfindB HunsolvedB.
  unfold attemptMerge. rewrite HfindA, HfindB.
  destruct (String.eqb_spec (GridSquare.categoryId squareA)
                            (GridSquare.categoryId squareB)); simpl.
  - now apply applyMerge_GameInv.
  - now apply withMistake_GameInv.
Qed.

Lemma selectSquare_Inv puzzle now squareId st :
  Inv st -> Inv (selectSquare puzzle now squareId st).
Proof.
  intros [Hgame Hsel]. unfold selectSquare.
  destruct (GameState.status (HookState.gameState st)) eqn:Hstatus;
    [|rewrite selectSquareTraced_ignored by auto; now split].
  destruct (getSquareById (GameState.grid (HookState.gameState st)) squareId)
    as [square|] eqn:Hfind;
    [|rewrite selectSquareTraced_ignored by auto; now split].
  destruct (GridSquare.isSolved square) eqn:Hunsolved;
    [rewrite selectSquareTraced_ignored by eauto; now split|].
  destruct Hsel as [Hempty|(first & sq1 & Hone & Hfirst & Hunsolved1 & _)].
  - rewrite (selectSquareTraced_first _ _ _ square) by assumption.
    split; [assumption|]. right. exists squareId, square. auto.
  - destruct (String.eqb_spec first squareId) as [->|Hne].
    + rewrite (selectSquareTraced_deselect _ _ _ square) by assumption.
      split; [assumption|]. now left.
    + rewrite (selectSquareTraced_second _ _ first _ square) by assumption.
      pose proof (attemptMerge_GameInv puzzle now first squareId square _
                    Hgame Hne (ex_intro _ sq1 (conj Hfirst Hunsolved1))
                    Hfind Hunsolved) as Hkept.
      destruct (attemptMerge _ _ _ _ _) as [result gs']. simpl in *.
      split; [assumption|]. now left.
Qed.

Lemma perform_Inv puzzle st a :
  wellFormed puzzle -> Inv st -> Inv (perform puzzle st a).
Proof.
  intros Hwf Hinv. destruct a as [now squareId|rnd now| |]; simpl.
  - now apply selectSquare_Inv.
  - split; [now apply initializeGameState_GameInv|now left].
  - split; [apply Hinv|now left].
  - exact Hinv.
Qed.

Lemma reachable_Inv puzzle st :
  wellFormed puzzle -> reachable puzzle st -> Inv st.
Proof.
  intros Hwf. induction 1 as [rnd now|st a _ IH].
  - split; [now apply initializeGameState_GameInv|now left].
  - now apply perform_Inv.
Qed.

Lemma play_reachable puzzle rnd now actions :
  reachable puzzle (play puzzle rnd now actions).
Proof.
  unfold play. generalize (reachable_mount puzzle rnd now).
  generalize (useGameState puzzle rnd now).
  induction actions as [|a actions IH]; intros st Hst; simpl; [assumption|].
  apply IH. now constructor.
Qed.

(* ===================================================================== *)
(** ** The sample puzzle is well formed *)
(* ===================================================================== *)

Lemma distinct_NoDup l : distinct l = true -> NoDup l.
Proof.
  induction l as [|x rest IH]; simpl; intros H; constructor.
  - apply andb_prop in H as [H _]. apply negb_true_iff in H.
    intros Hin. rewrite <- not_true_iff_false in H. apply H.
    apply existsb_exists. exists x. split; [assumption|apply String.eqb_refl].
  - apply IH. now apply andb_prop in H.
Qed.

Lemma checkPuzzle_wellFormed puzzle :
  checkPuzzle puzzle = true -> wellFormed puzzle.
Proof.
  unfold checkPuzzle, wellFormed. intros H.
  apply andb_prop in H as [H H4]. apply andb_prop in H as [H H3].
  apply andb_prop in H as [H1 H2].
  repeat split.
  - now apply Nat.eqb_eq.
  - apply Forall_forall. intros cat Hcat.
    rewrite forallb_forall in H2. apply Nat.eqb_eq. now apply H2.
  - now apply distinct_NoDup.
  - now apply distinct_NoDup.
Qed.

Lemma SAMPLE_PUZZLE_wellFormed : wellFormed SAMPLE_PUZZLE.
Proof. apply checkPuzzle_wellFormed. vm_compute. reflexivity. Qed.

(* ===================================================================== *)
(** ** The state machine: properties of every reachable state *)
(* ===================================================================== *)

(** C3.  In every state reachable from the initialization of a well-formed
    puzzle by [selectSquare], [resetGame], [clearSelection] and
    [clearShake], the item counts of the squares on the grid sum to 100. *)
Theorem grid_holds_100_items puzzle st :
  wellFormed puzzle -> reachable puzzle st ->
  itemCount (GameState.grid (HookState.gameState st)) = 100.
Proof.
  intros Hwf Hreach. apply (reachable_Inv puzzle st Hwf Hreach).
Qed.

Lemma grid_holds_100_items_witness :
  itemCount (GameState.grid (HookState.gameState
     (play SAMPLE_PUZZLE (fun i => i * 7 + 3) 0
        [SelectSquare 1 "cat-fruits-0"; SelectSquare 2 "cat-fruits-1";
         SelectSquare 3 "cat-dogs-4"; SelectSquare 4 "cat-pasta-4";
         ClearSelection; ResetGame keepOrder 5;
         SelectSquare 6 "cat-dances-9"; SelectSquare 7 "cat-dances-0"])))
  = 100.
Proof.
  apply (grid_holds_100_items SAMPLE_PUZZLE).
  - exact SAMPLE_PUZZLE_wellFormed.
  - apply play_reachable.
Defined.

(** C4.  In every reachable state [solvedCategoryIds] has no duplicates;
    the status is [won] exactly when ten categories are solved, which is
    exactly when [endTime] is set; and in a won state [selectSquare] does
    nothing at all, while [clearSelection] and [clearShake] leave the game
    state and the selection as they are (they clear the feedback markers
    [lastMergeResult] and [shakingSquareIds] only). *)
Theorem solved_categories_and_won puzzle st :
  wellFormed puzzle -> reachable puzzle st ->
  let gs := HookState.gameState st in
  NoDup (GameState.solvedCategoryIds gs)
  /\ (GameState.status gs = won <-> length (GameState.solvedCategoryIds gs) = 10)
  /\ (length (GameState.solvedCategoryIds gs) = 10 <-> GameState.endTime gs <> None)
  /\ (GameState.status gs = won ->
      (forall now squareId, selectSquare puzzle now squareId st = st)
      /\ forall a,
           (forall rnd now, a <> ResetGame rnd now) ->
           HookState.gameState (perform puzzle st a) = gs
           /\ HookState.selectedSquareIds (perform puzzle st a)
              = HookState.selectedSquareIds st).
Proof.
  intros Hwf Hreach gs.
  destruct (reachable_Inv puzzle st Hwf Hreach) as [Hgame Hsel].
  unfold gs.
  split; [exact (inv_solved_NoDup _ Hgame)|].
  split; [exact (inv_won _ Hgame)|]. split.
  - rewrite (inv_endTime _ Hgame). symmetry. exact (inv_won _ Hgame).
  - intros Hwon.
    assert (Hselect : forall now squareId, selectSquare puzzle now squareId st = st).
    { intros now squareId. unfold selectSquare.
      now rewrite selectSquareTraced_ignored by (left; exact Hwon). }
    split; [exact Hselect|].
    intros [now squareId|rnd now| |] Hnot; simpl.
    + rewrite Hselect. auto.
    + now destruct (Hnot rnd now).
    + split; [reflexivity|].
      destruct Hsel as [->|(a & sq0 & _ & _ & _ & Hplaying)]; [reflexivity|].
      congruence.
    + auto.
Qed.

Lemma solved_categories_and_won_witness :
  let st := play SAMPLE_PUZZLE keepOrder 0 solveAll in
  let gs := HookState.gameState st in
  GameState.status gs = won
  /\ NoDup (GameState.solvedCategoryIds gs)
  /\ length (GameState.solvedCategoryIds gs) = 10
  /\ GameState.endTime gs <> None
  /\ HookState.gameState (perform SAMPLE_PUZZLE st (SelectSquare 9 "cat-dogs-0")) = gs.
Proof.
  intros st gs.
  destruct (solved_categories_and_won SAMPLE_PUZZLE st SAMPLE_PUZZLE_wellFormed
              (play_reachable _ _ _ _)) as (Hnodup & Hwon & Hend & Hterminal).
  assert (Hstatus : GameState.status gs = won) by (vm_compute; reflexivity).
  split; [exact Hstatus|]. split; [exact Hnodup|].
  split; [now apply Hwon|]. split; [now apply Hend, Hwon|].
  apply (proj2 (Hterminal Hstatus)). discriminate.
Defined.

(** C5.  In any state, [selectSquare] on a won game, on an id no square
    bears, or on the id of a solved square returns at once: the whole hook
    state is left as it is, no merge is attempted, and so no mistake is
    counted.  The square an id refers to is the one [getSquareById]
    returns; where ids are pairwise distinct it is the only square bearing
    that id. *)
Theorem selectSquare_ignores puzzle now squareId st :
  GameState.status (HookState.gameState st) = won
  \/ getSquareById (GameState.grid (HookState.gameState st)) squareId = None
  \/ (exists square,
        getSquareById (GameState.grid (HookState.gameState st)) squareId = Some square
        /\ GridSquare.isSolved square = true)
  \/ (NoDup (map GridSquare.id (GameState.grid (HookState.gameState st)))
      /\ exists square,
           In square (GameState.grid (HookState.gameState st))
           /\ GridSquare.id square = squareId
           /\ GridSquare.isSolved square = true) ->
  selectSquareTraced puzzle now squareId st = (st, None)
  /\ selectSquare puzzle now squareId st = st.
Proof.
  intros H.
  assert (Heq : selectSquareTraced puzzle now squareId st = (st, None)).
  { apply selectSquareTraced_ignored.
    destruct H as [H|[H|[H|(Hnd & square & Hin & <- & Hsolved)]]]; auto.
    right; right. exists square. split; [|assumption].
    now apply getSquareById_In. }
  split; [assumption|]. unfold selectSquare. now rewrite Heq.
Qed.

Lemma selectSquare_ignores_witness :
  let st := play SAMPLE_PUZZLE keepOrder 0
              (solveCategory "cat-fruits" ++ [SelectSquare 1 "cat-dogs-3"]) in
  selectSquare SAMPLE_PUZZLE 2 "cat-fruits-0" st = st
  /\ selectSquare SAMPLE_PUZZLE 2 "cat-fruits-1" st = st.
Proof.
  intros st. split.
  - apply (selectSquare_ignores SAMPLE_PUZZLE 2 "cat-fruits-0" st).
    right; right; left. eexists. split; vm_compute; reflexivity.
  - apply (selectSquare_ignores SAMPLE_PUZZLE 2 "cat-fruits-1" st).
    right; left. vm_compute; reflexivity.
Defined.

(** C8.  In a reachable state whose selection is the single id [a] of an
    existing, unsolved square, [selectSquare a] empties the selection,
    attempts no merge, and leaves the game state (grid, mistakes,
    solvedCategoryIds, status) as it is. *)
Theorem selectSquare_again_deselects puzzle now a square st :
  wellFormed puzzle -> reachable puzzle st ->
  HookState.selectedSquareIds st = [a] ->
  getSquareById (GameState.grid (HookState.gameState st)) a = Some square ->
  GridSquare.isSolved square = false ->
  selectSquareTraced puzzle now a st
  = (HookState.mk (HookState.gameState st) [] None [], None)
  /\ HookState.selectedSquareIds (selectSquare puzzle now a st) = []
  /\ HookState.gameState (selectSquare puzzle now a st) = HookState.gameState st.
Proof.
  intros Hwf Hreach Hsel Hfind Hunsolved.
  destruct (reachable_Inv puzzle st Hwf Hreach) as [_ Hselinv].
  assert (Hplaying : GameState.status (HookState.gameState st) = playing).
  { destruct Hselinv as [Hempty|(b & sq0 & _ & _ & _ & Hplaying)];
      [congruence|assumption]. }
  pose proof (selectSquareTraced_deselect puzzle now a square st
                Hplaying Hfind Hunsolved Hsel) as Heq.
  unfold selectSquare. rewrite Heq. auto.
Qed.

Lemma selectSquare_again_deselects_witness :
  let st := play SAMPLE_PUZZLE keepOrder 0 [SelectSquare 1 "cat-pasta-2"] in
  HookState.selectedSquareIds st = ["cat-pasta-2"]
  /\ HookState.selectedSquareIds (selectSquare SAMPLE_PUZZLE 2 "cat-pasta-2" st) = []
  /\ HookState.gameState (selectSquare SAMPLE_PUZZLE 2 "cat-pasta-2" st)
     = HookState.gameState st.
Proof.
  intros st. split; [reflexivity|].
  apply (selectSquare_again_deselects SAMPLE_PUZZLE 2 "cat-pasta-2"
           (GridSquare.mk "cat-pasta-2" ["Rigatoni"] "cat-pasta" false) st).
  - exact SAMPLE_PUZZLE_wellFormed.
  - apply play_reachable.
  - reflexivity.
  - vm_compute; reflexivity.
  - reflexivity.
Defined.

(* ===================================================================== *)
(** ** Merging *)
(* ===================================================================== *)

(** What a call of [selectSquare] does, given the selection invariant. *)
Lemma selectSquareTraced_cases puzzle now squareId st :
  SelectionInv st ->
  let gs := HookState.gameState st in
  selectSquareTraced puzzle now squareId st = (st, None)
  \/ selectSquareTraced puzzle now squareId st = (HookState.mk gs [] None [], None)
  \/ selectSquareTraced puzzle now squareId st
     = (HookState.mk gs [squareId] None [], None)
  \/ exists first squareA squareB,
       HookState.selectedSquareIds st = [first]
       /\ first <> squareId
       /\ GameState.status gs = playing
       /\ getSquareById (GameState.grid gs) first = Some squareA
       /\ GridSquare.isSolved squareA = false
       /\ getSquareById (GameState.grid gs) squareId = Some squareB
       /\ GridSquare.isSolved squareB = false
       /\ selectSquareTraced puzzle now squareId st
          = (HookState.mk (snd (attemptMerge puzzle now first squareId gs)) []
               (Some (fst (attemptMerge puzzle now first squareId gs)))
               (if success (fst (attemptMerge puzzle now first squareId gs))
                then [] else [first; squareId]),
             Some (fst (attemptMerge puzzle now first squareId gs))).
Proof.
  intros Hsel gs. unfold gs.
  destruct (GameState.status (HookState.gameState st)) eqn:Hstatus;
    [|left; apply selectSquareTraced_ignored; auto].
  destruct (getSquareById (GameState.grid (HookState.gameState st)) squareId)
    as [square|] eqn:Hfind;
    [|left; apply selectSquareTraced_ignored; auto].
  destruct (GridSquare.isSolved square) eqn:Hunsolved;
    [left; apply selectSquareTraced_ignored; eauto|].
  destruct Hsel as [Hempty|(first & sq1 & Hone & Hfirst & Hunsolved1 & _)].
  - right; right; left. now apply (selectSquareTraced_first _ _ _ square).
  - destruct (String.eqb_spec first squareId) as [->|Hne].
    + right; left. now apply (selectSquareTraced_deselect _ _ _ square).
    + right; right; right. exists first, sq1, square.
      repeat (split; [assumption|]).
      rewrite (selectSquareTraced_second _ _ first _ square) by assumption.
      now destruct (attemptMerge _ _ _ _ _).
Qed.

Lemma attemptMerge_found puzzle now squareIdA squareIdB squareA squareB gs :
  getSquareById (GameState.grid gs) squareIdA = Some squareA ->
  getSquareById (GameState.grid gs) squareIdB = Some squareB ->
  attemptMerge puzzle now squareIdA squareIdB gs
  = if GridSquare.categoryId squareA =? GridSquare.categoryId squareB
    then (MergeSuccess (mergeSquares squareA squareB)
            (if GridSquare.isSolved (mergeSquares squareA squareB)
             then getCategoryById puzzle (GridSquare.categoryId squareA)
             else None),
          applyMerge now squareIdA squareIdB (mergeSquares squareA squareB) gs)
    else (MergeFailure different_categories, withMistake gs).
Proof.
  intros HA HB. unfold attemptMerge. rewrite HA, HB.
  now destruct (GridSquare.categoryId squareA =? GridSquare.categoryId squareB).
Qed.

Lemma attemptMerge_missing puzzle now squareIdA squareIdB gs :
  getSquareById (GameState.grid gs) squareIdA = None
  \/ getSquareById (GameState.grid gs) squareIdB = None ->
  attemptMerge puzzle now squareIdA squareIdB gs
  = (MergeFailure different_categories, gs).
Proof.
  unfold attemptMerge. intros [H|H]; rewrite H; [reflexivity|].
  now destruct (getSquareById _ squareIdA).
Qed.

(** When both squares are found, a failed attempt counts one mistake and a
    successful one counts none. *)
Lemma attemptMerge_mistakes puzzle now squareIdA squareIdB squareA squareB gs :
  getSquareById (GameState.grid gs) squareIdA = Some squareA ->
  getSquareById (GameState.grid gs) squareIdB = Some squareB ->
  GameState.mistakes (snd (attemptMerge puzzle now squareIdA squareIdB gs))
  = GameState.mistakes gs
    + (if success (fst (attemptMerge puzzle now squareIdA squareIdB gs))
       then 0 else 1).
Proof.
  intros HA HB. rewrite (attemptMerge_found _ _ _ _ squareA squareB) by assumption.
  destruct (GridSquare.categoryId squareA =? GridSquare.categoryId squareB); simpl; lia.
Qed.

(** Two squares of one category with different ids: neither can be a
    solved square. *)
Lemma same_category_unsolved squareIdA squareIdB squareA squareB gs :
  GameInv gs ->
  squareIdA <> squareIdB ->
  getSquareById (GameState.grid gs) squareIdA = Some squareA ->
  getSquareById (GameState.grid gs) squareIdB = Some squareB ->
  GridSquare.categoryId squareA = GridSquare.categoryId squareB ->
  GridSquare.isSolved squareB = false.
Proof.
  intros Hinv Hne HA HB Hc.
  destruct (GridSquare.isSolved squareB) eqn:Hsolved; [exfalso|reflexivity].
  pose proof (merge_split _ _ _ _ _ Hinv Hne HA HB) as HP.
  apply getSquareById_Some in HA as [HinA _], HB as [HinB _].
  pose proof (inv_flag gs Hinv _ HinB) as Hflag.
  rewrite Hsolved in Hflag. symmetry in Hflag. apply Nat.eqb_eq in Hflag.
  pose proof (inv_items gs Hinv _ HinA) as HneA.
  pose proof (inv_category gs Hinv (GridSquare.categoryId squareA)) as Hle.
  rewrite (categoryItemCount_Permutation _ _ _ HP) in Hle.
  rewrite !categoryItemCount_cons, <- Hc, String.eqb_refl in Hle.
  destruct (GridSquare.items squareA); [congruence|]. simpl in Hle. lia.
Qed.

Lemma others_ids squareIdA squareIdB grid :
  map GridSquare.id (filter (others squareIdA squareIdB) grid)
  = filter (fun i => negb (i =? squareIdA) && negb (i =? squareIdB))
           (map GridSquare.id grid).
Proof.
  induction grid as [|x rest IH]; simpl; auto.
  unfold others at 1.
  destruct (negb (GridSquare.id x =? squareIdA) && negb (GridSquare.id x =? squareIdB));
    simpl; now rewrite IH.
Qed.

(** C1.  In a reachable state of a game being played whose selection is the
    single unsolved square A, selecting a different square B of A's category
    merges them: the new grid is the old grid without A and B, followed by
    one merged square that has A's id, A's items followed by B's items, the
    shared category id, and [isSolved] set exactly when the items number
    ten; it is the only square of the new grid with A's or B's id, and the
    grid is one square shorter. *)
Theorem second_selection_merges puzzle now a b squareA squareB st :
  wellFormed puzzle -> reachable puzzle st ->
  GameState.status (HookState.gameState st) = playing ->
  HookState.selectedSquareIds st = [a] ->
  getSquareById (GameState.grid (HookState.gameState st)) a = Some squareA ->
  GridSquare.isSolved squareA = false ->
  getSquareById (GameState.grid (HookState.gameState st)) b = Some squareB ->
  a <> b ->
  GridSquare.categoryId squareA = GridSquare.categoryId squareB ->
  let grid := GameState.grid (HookState.gameState st) in
  let grid' := GameState.grid (HookState.gameState (selectSquare puzzle now b st)) in
  let merged :=
    GridSquare.mk a (GridSquare.items squareA ++ GridSquare.items squareB)
      (GridSquare.categoryId squareB)
      (length (GridSquare.items squareA ++ GridSquare.items squareB) =? 10)%nat in
  grid' = filter (others a b) grid ++ [merged]
  /\ Permutation grid (squareA :: squareB :: filter (others a b) grid)
  /\ length grid' + 1 = length grid
  /\ NoDup (map GridSquare.id grid')
  /\ (forall s, In s grid' ->
        GridSquare.id s = a \/ GridSquare.id s = b -> s = merged)
  /\ (GridSquare.isSolved merged = true <->
      length (GridSquare.items squareA) + length (GridSquare.items squareB) = 10)
  /\ exists solvedCategory,
       snd (selectSquareTraced puzzle now b st)
       = Some (MergeSuccess merged solvedCategory).
Proof.
  intros Hwf Hreach Hplaying Hsel HA HunsolvedA HB Hne Hc grid grid' merged.
  destruct (reachable_Inv puzzle st Hwf Hreach) as [Hgame _].
  pose proof (same_category_unsolved a b squareA squareB _ Hgame Hne HA HB Hc)
    as HunsolvedB.
  assert (Hmerged : mergeSquares squareA squareB = merged).
  { unfold mergeSquares, merged. rewrite length_app, Hc.
    now apply getSquareById_Some in HA as [_ ->]. }
  assert (Htraced : selectSquareTraced puzzle now b st
            = (HookState.mk (applyMerge now a b merged (HookState.gameState st))
                 [] (Some (MergeSuccess merged
                       (if GridSquare.isSolved merged
                        then getCategoryById puzzle (GridSquare.categoryId squareA)
                        else None))) [],
               Some (MergeSuccess merged
                       (if GridSquare.isSolved merged
                        then getCategoryById puzzle (GridSquare.categoryId squareA)
                        else None)))).
  { rewrite (selectSquareTraced_second _ _ a _ squareB) by assumption.
    rewrite (attemptMerge_found _ _ _ _ squareA squareB) by assumption.
    rewrite Hc, String.eqb_refl, Hmerged. reflexivity. }
  assert (Hgrid : grid' = filter (others a b) grid ++ [merged]).
  { unfold grid', selectSquare. rewrite Htraced. reflexivity. }
  pose proof (merge_split a b squareA squareB _ Hgame Hne HA HB) as HP.
  pose proof (applyMerge_GameInv now a b squareA squareB _ Hgame Hne HA HB Hc
                HunsolvedA HunsolvedB) as Hkept.
  rewrite Hmerged in Hkept.
  pose proof (merge_ids_split a b squareA squareB _ Hgame Hne HA HB) as Hids.
  split; [exact Hgrid|]. split; [exact HP|]. split; [|split; [|split; [|split]]].
  - rewrite Hgrid. unfold grid.
    rewrite (Permutation_length HP), length_app. simpl. lia.
  - rewrite Hgrid. exact (inv_ids _ Hkept).
  - intros s Hs Hid. rewrite Hgrid in Hs.
    apply in_app_or in Hs as [Hs|[<-|[]]]; [exfalso|reflexivity].
    inversion Hids as [|? ? HnotA Hids']; subst.
    inversion Hids' as [|? ? HnotB _]; subst.
    apply (in_map GridSquare.id) in Hs. unfold grid in Hs.
    destruct Hid as [Hid|Hid]; rewrite Hid in Hs; simpl in HnotA; tauto.
  - unfold merged. simpl. rewrite length_app. apply Nat.eqb_eq.
  - eexists. rewrite Htraced. reflexivity.
Qed.

Lemma second_selection_merges_witness :
  let st := play SAMPLE_PUZZLE keepOrder 0
              (solveCategory "cat-dogs" ++ [SelectSquare 1 "cat-fruits-4"]) in
  GameState.grid (HookState.gameState (selectSquare SAMPLE_PUZZLE 2 "cat-fruits-7" st))
  = filter (others "cat-fruits-4" "cat-fruits-7")
      (GameState.grid (HookState.gameState st))
    ++ [GridSquare.mk "cat-fruits-4" ["Mango"; "Watermelon"] "cat-fruits" false].
Proof.
  intros st.
  apply (second_selection_merges SAMPLE_PUZZLE 2 "cat-fruits-4" "cat-fruits-7"
           (GridSquare.mk "cat-fruits-4" ["Mango"] "cat-fruits" false)
           (GridSquare.mk "cat-fruits-7" ["Watermelon"] "cat-fruits" false) st).
  - exact SAMPLE_PUZZLE_wellFormed.
  - apply play_reachable.
  - vm_compute; reflexivity.
  - vm_compute; reflexivity.
  - vm_compute; reflexivity.
  - reflexivity.
  - vm_compute; reflexivity.
  - discriminate.
  - reflexivity.
Defined.

(* ===================================================================== *)
(** ** Mistakes *)
(* ===================================================================== *)

Lemma selectSquare_mistakes puzzle now squareId st :
  SelectionInv st ->
  GameState.mistakes (HookState.gameState (selectSquare puzzle now squareId st))
  = GameState.mistakes (HookState.gameState st)
    + match snd (selectSquareTraced puzzle now squareId st) with
      | Some result => if success result then 0 else 1
      | None => 0
      end.
Proof.
  intros Hsel. unfold selectSquare.
  destruct (selectSquareTraced_cases puzzle now squareId st Hsel)
    as [H|[H|[H|(first & squareA & squareB & _ & _ & _ & HA & _ & HB & _ & H)]]];
    rewrite H; simpl; try lia.
  now apply (attemptMerge_mistakes _ _ _ _ squareA squareB).
Qed.

(** C2, as the code has it.  A merge attempt that finds both squares counts
    exactly one mistake when it fails and none when it succeeds; an attempt
    with a missing id fails and leaves the game state, mistakes included,
    as it is.  In a reachable state every attempt [selectSquare] makes
    finds both squares, so each failed attempt counts one mistake and
    nothing else does; mistakes never decrease under [selectSquare],
    [clearSelection] and [clearShake], and [resetGame] starts a new
    session at zero. *)
Theorem mistakes_count_failed_merges puzzle st :
  wellFormed puzzle -> reachable puzzle st ->
  (forall now squareIdA squareIdB gs,
     let attempt := attemptMerge puzzle now squareIdA squareIdB gs in
     match getSquareById (GameState.grid gs) squareIdA,
           getSquareById (GameState.grid gs) squareIdB with
     | Some _, Some _ =>
         GameState.mistakes (snd attempt)
         = GameState.mistakes gs + (if success (fst attempt) then 0 else 1)
     | _, _ => attempt = (MergeFailure different_categories, gs)
     end)
  /\ (forall now squareId,
        GameState.mistakes (HookState.gameState (selectSquare puzzle now squareId st))
        = GameState.mistakes (HookState.gameState st)
          + match snd (selectSquareTraced puzzle now squareId st) with
            | Some result => if success result then 0 else 1
            | None => 0
            end)
  /\ (forall a, (forall rnd now, a <> ResetGame rnd now) ->
        GameState.mistakes (HookState.gameState st)
        <= GameState.mistakes (HookState.gameState (perform puzzle st a)))
  /\ (forall rnd now,
        GameState.mistakes (HookState.gameState (resetGame puzzle rnd now st)) = 0).
Proof.
  intros Hwf Hreach.
  destruct (reachable_Inv puzzle st Hwf Hreach) as [_ Hsel].
  split; [|split; [|split]].
  - intros now a b gs attempt. unfold attempt.
    destruct (getSquareById (GameState.grid gs) a) as [squareA|] eqn:HA.
    + destruct (getSquareById (GameState.grid gs) b) as [squareB|] eqn:HB.
      * now apply (attemptMerge_mistakes _ _ _ _ squareA squareB).
      * apply attemptMerge_missing. now right.
    + apply attemptMerge_missing. now left.
  - intros now squareId. now apply selectSquare_mistakes.
  - intros [now squareId|rnd now| |] Hnot; simpl.
    + rewrite selectSquare_mistakes by assumption. lia.
    + now destruct (Hnot rnd now).
    + lia.
    + lia.
  - reflexivity.
Qed.

Lemma mistakes_count_failed_merges_witness :
  let st := play SAMPLE_PUZZLE keepOrder 0
              [SelectSquare 1 "cat-fruits-0"; SelectSquare 2 "cat-dogs-0";
               SelectSquare 3 "cat-fruits-0"] in
  GameState.mistakes (HookState.gameState st) = 1
  /\ GameState.mistakes
       (HookState.gameState (selectSquare SAMPLE_PUZZLE 4 "cat-pasta-0" st)) = 2
  /\ GameState.mistakes
       (HookState.gameState (selectSquare SAMPLE_PUZZLE 4 "cat-fruits-1" st)) = 1.
Proof.
  intros st.
  destruct (mistakes_count_failed_merges SAMPLE_PUZZLE st SAMPLE_PUZZLE_wellFormed
              (play_reachable _ _ _ _)) as (_ & Hselect & _ & _).
  split; [reflexivity|]. split.
  - rewrite (Hselect 4%Z "cat-pasta-0"). reflexivity.
  - rewrite (Hselect 4%Z "cat-fruits-1"). reflexivity.
Defined.

(** C2 as stated fails where a looked-up id is missing: the attempt
    returns failure and the mistakes counter stays where it was. *)
Lemma missing_square_counts_no_mistake :
  let gs := initializeGameState keepOrder 0 SAMPLE_PUZZLE in
  let attempt := attemptMerge SAMPLE_PUZZLE 1 "cat-fruits-0" "cat-fruits-10" gs in
  success (fst attempt) = false
  /\ GameState.mistakes (snd attempt) = GameState.mistakes gs
  /\ GameState.mistakes (snd attempt) <> GameState.mistakes gs + 1.
Proof. vm_compute. repeat split; discriminate. Qed.

(* ===================================================================== *)
(** ** Square ids *)
(* ===================================================================== *)

(** C10.  In every reachable state the ids on the grid are pairwise
    distinct, so [getSquareById] returns the one square bearing the id, or
    nothing when no square bears it; initialization makes 100 squares with
    distinct ids; and a successful merge takes both squares' ids off the
    grid and puts the first one's back once. *)
Theorem square_ids_distinct puzzle st :
  wellFormed puzzle -> reachable puzzle st ->
  let grid := GameState.grid (HookState.gameState st) in
  NoDup (map GridSquare.id grid)
  /\ (forall squareId,
        match getSquareById grid squareId with
        | Some s =>
            In s grid /\ GridSquare.id s = squareId
            /\ forall s', In s' grid -> GridSquare.id s' = squareId -> s' = s
        | None => forall s, In s grid -> GridSquare.id s <> squareId
        end)
  /\ (forall rnd,
        length (initializeGrid rnd puzzle) = 100
        /\ NoDup (map GridSquare.id (initializeGrid rnd puzzle)))
  /\ (forall now squareId result,
        snd (selectSquareTraced puzzle now squareId st) = Some result ->
        success result = true ->
        let grid' :=
          GameState.grid (HookState.gameState (selectSquare puzzle now squareId st)) in
        exists first,
          HookState.selectedSquareIds st = [first]
          /\ first <> squareId
          /\ In first (map GridSquare.id grid)
          /\ In squareId (map GridSquare.id grid)
          /\ map GridSquare.id grid'
             = filter (fun i => negb (i =? first) && negb (i =? squareId))
                      (map GridSquare.id grid)
               ++ [first]
          /\ ~ In squareId (map GridSquare.id grid')
          /\ NoDup (map GridSquare.id grid')).
Proof.
  intros Hwf Hreach grid.
  destruct (reachable_Inv puzzle st Hwf Hreach) as [Hgame Hsel].
  split; [exact (inv_ids _ Hgame)|]. split; [|split].
  - intros squareId.
    destruct (getSquareById grid squareId) as [s|] eqn:Hfind.
    + destruct (getSquareById_Some _ _ _ Hfind) as [Hin Hid].
      repeat split; try assumption.
      intros s' Hin' Hid'.
      pose proof (getSquareById_In grid s' (inv_ids _ Hgame) Hin') as H.
      rewrite Hid', Hfind in H. congruence.
    + now apply getSquareById_None.
  - intros rnd.
    pose proof (initializeGameState_GameInv puzzle rnd 0%Z Hwf) as Hinit.
    split; [|exact (inv_ids _ Hinit)].
    unfold initializeGrid.
    rewrite <- (Permutation_length (shuffleArray_Permutation rnd _)).
    rewrite unitSquares_length. now apply getAllItems_length.
  - intros now squareId result Hattempt Hsuccess grid'.
    unfold grid', selectSquare.
    destruct (selectSquareTraced_cases puzzle now squareId st Hsel)
      as [H|[H|[H|(first & squareA & squareB & Hone & Hne & _ & HA & HunA
                   & HB & HunB & H)]]];
      rewrite H in Hattempt |- *; try discriminate.
    simpl in Hattempt. injection Hattempt as Hresult. simpl.
    rewrite (attemptMerge_found _ _ _ _ squareA squareB) in Hresult |- * by assumption.
    destruct (String.eqb_spec (GridSquare.categoryId squareA)
                              (GridSquare.categoryId squareB)) as [Hc|_];
      [|subst result; discriminate].
    cbn [fst snd HookState.gameState]. rewrite merge_grid.
    pose proof (merge_ids_split first squareId squareA squareB _ Hgame Hne HA HB)
      as Hids.
    pose proof (applyMerge_GameInv now first squareId squareA squareB _
                  Hgame Hne HA HB Hc HunA HunB) as Hkept.
    destruct (getSquareById_Some _ _ _ HA) as [HinA HidA].
    destruct (getSquareById_Some _ _ _ HB) as [HinB HidB].
    exists first. split; [assumption|]. split; [assumption|].
    split; [rewrite <- HidA; now apply in_map|].
    split; [rewrite <- HidB; now apply in_map|].
    rewrite map_app, others_ids. simpl. rewrite HidA.
    split; [reflexivity|]. split.
    + inversion Hids as [|? ? _ Hids']; subst.
      inversion Hids' as [|? ? HnotB _]; subst.
      rewrite others_ids in HnotB.
      intros Hin. apply in_app_or in Hin as [Hin|[Hin|[]]]; [tauto|congruence].
    + pose proof (inv_ids _ Hkept) as Hnd.
      rewrite merge_grid, map_app, others_ids in Hnd. simpl in Hnd.
      now rewrite HidA in Hnd.
Qed.

Lemma square_ids_distinct_witness :
  let st := play SAMPLE_PUZZLE (fun i => 2 * i + 1) 0
              [SelectSquare 1 "cat-gemstones-3"; SelectSquare 2 "cat-gemstones-8"] in
  NoDup (map GridSquare.id (GameState.grid (HookState.gameState st)))
  /\ getSquareById (GameState.grid (HookState.gameState st)) "cat-gemstones-3"
     = Some (GridSquare.mk "cat-gemstones-3" ["Sapphire"; "Jade"] "cat-gemstones" false)
  /\ getSquareById (GameState.grid (HookState.gameState st)) "cat-gemstones-8" = None.
Proof.
  intros st.
  destruct (square_ids_distinct SAMPLE_PUZZLE st SAMPLE_PUZZLE_wellFormed
              (play_reachable _ _ _ _)) as (Hnd & _).
  split; [exact Hnd|]. split; vm_compute; reflexivity.
Defined.

(* ===================================================================== *)
(** ** Row packing *)
(* ===================================================================== *)

Lemma insertSorted_Permutation {T} (compareFn : T -> T -> Z) x l :
  Permutation (x :: l) (insertSorted compareFn x l).
Proof.
  induction l as [|y rest IH]; simpl.
  - reflexivity.
  - destruct (compareFn x y <=? 0)%Z; [reflexivity|].
    rewrite perm_swap. now apply perm_skip.
Qed.

Lemma sort_Permutation {T} (compareFn : T -> T -> Z) l :
  Permutation l (sort compareFn l).
Proof.
  induction l as [|x rest IH]; simpl.
  - reflexivity.
  - rewrite <- insertSorted_Permutation. now apply perm_skip.
Qed.

(** The sort puts larger squares first and keeps squares of equal size in
    the order they came in. *)
Lemma insertSorted_descending x l :
  descending l -> descending (insertSorted bySizeDescending x l).
Proof.
  induction l as [|y rest IH]; simpl; intros Hl.
  - auto.
  - destruct Hl as [Hy Hrest]. unfold bySizeDescending at 1.
    destruct (Z.leb_spec (Z.of_nat (length (GridSquare.items y))
                          - Z.of_nat (length (GridSquare.items x))) 0) as [Hle|Hgt];
      simpl.
    + repeat split; try assumption. constructor; [lia|].
      apply (Forall_impl _ (P := fun z => length (GridSquare.items z)
                                          <= length (GridSquare.items y)));
        [intros z Hz; lia|assumption].
    + split; [|now apply IH].
      apply (Permutation_Forall (insertSorted_Permutation bySizeDescending x rest)).
      constructor; [lia|assumption].
Qed.

Lemma sort_descending squares : descending (sort bySizeDescending squares).
Proof.
  induction squares as [|x rest IH]; simpl; [exact I|].
  now apply insertSorted_descending.
Qed.

Lemma insertSorted_stable n x l :
  filter (fun s => length (GridSquare.items s) =? n)%nat
         (insertSorted bySizeDescending x l)
  = filter (fun s => length (GridSquare.items s) =? n)%nat (x :: l).
Proof.
  induction l as [|y rest IH]; simpl; [reflexivity|].
  unfold bySizeDescending at 1.
  destruct (Z.leb_spec (Z.of_nat (length (GridSquare.items y))
                        - Z.of_nat (length (GridSquare.items x))) 0) as [Hle|Hgt];
    simpl; [reflexivity|].
  rewrite IH. simpl.
  destruct (Nat.eqb_spec (length (GridSquare.items x)) n) as [Hx|Hx];
    destruct (Nat.eqb_spec (length (GridSquare.items y)) n) as [Hy|Hy];
    try reflexivity.
  lia.
Qed.

Lemma sort_stable n squares :
  filter (fun s => length (GridSquare.items s) =? n)%nat (sort bySizeDescending squares)
  = filter (fun s => length (GridSquare.items s) =? n)%nat squares.
Proof.
  induction squares as [|x rest IH]; simpl; [reflexivity|].
  rewrite insertSorted_stable. simpl. now rewrite IH.
Qed.

(** The rows, one after the other, are the sorted squares: packing loses
    and repeats none. *)
Lemma packLoop_squares sorted acc :
  let acc' := fold_left packSquare sorted acc in
  flat_map LayoutRow.squares (Packing.rows acc') ++ Packing.currentSquares acc'
  = (flat_map LayoutRow.squares (Packing.rows acc) ++ Packing.currentSquares acc)
    ++ sorted.
Proof.
  revert acc; induction sorted as [|square rest IH]; intros acc; simpl.
  - now rewrite app_nil_r.
  - rewrite IH. unfold packSquare.
    destruct ((_ || _) && _); simpl.
    + rewrite flat_map_app. simpl. now rewrite app_nil_r, <- !app_assoc.
    + now rewrite <- !app_assoc.
Qed.

Lemma packIntoRows_squares squares :
  flat_map LayoutRow.squares (packIntoRows squares) = sort bySizeDescending squares.
Proof.
  unfold packIntoRows. destruct squares as [|x rest]; [reflexivity|].
  cbn [length Nat.eqb].
  pose proof (packLoop_squares (sort bySizeDescending (x :: rest))
                (Packing.mk [] [] 0)) as H.
  simpl in H. unfold closeLastRow.
  destruct (Nat.ltb_spec 0 (length (Packing.currentSquares
              (fold_left packSquare (sort bySizeDescending (x :: rest))
                 (Packing.mk [] [] 0))))) as [_|Hnone].
  - rewrite flat_map_app. simpl. now rewrite app_nil_r.
  - destruct (Packing.currentSquares _); [|simpl in Hnone; lia].
    now rewrite app_nil_r in H.
Qed.

Lemma packSquare_ok acc square :
  PackingOk acc ->
  length (GridSquare.items square) <= MAX_ITEMS_PER_ROW ->
  PackingOk (packSquare acc square).
Proof.
  intros [Hrows Htotal Hceiling] Hsize. unfold packSquare.
  destruct (Nat.ltb_spec 0 (length (Packing.currentSquares acc))) as [Hsome|Hnone].
  - rewrite andb_true_r.
    destruct (Nat.ltb_spec MAX_ITEMS_PER_ROW
                (Packing.currentTotal acc + length (GridSquare.items square)))
      as [Hexceed|Hfits];
    destruct (Nat.leb_spec TARGET_ITEMS_PER_ROW (Packing.currentTotal acc))
      as [Htarget|Hbelow]; simpl.
    1-3: constructor; simpl;
      [ apply Forall_app; split; [assumption|];
        constructor; [|constructor]; repeat split; simpl; try assumption;
        destruct (Packing.currentSquares acc); [simpl in Hsome; lia|discriminate]
      | rewrite itemCount_cons; unfold itemCount; simpl; lia
      | assumption ].
    constructor; simpl; [assumption| |assumption].
    rewrite itemCount_app, itemCount_cons, Htotal.
    unfold itemCount at 3; simpl; lia.
  - rewrite andb_false_r.
    assert (Hempty : Packing.currentSquares acc = [])
      by (destruct (Packing.currentSquares acc); [reflexivity|simpl in Hnone; lia]).
    rewrite Hempty in *. unfold itemCount in Htotal; simpl in Htotal.
    constructor; simpl; [assumption| |lia].
    rewrite itemCount_cons, Htotal. unfold itemCount; simpl; lia.
Qed.

Lemma packLoop_ok sorted acc :
  PackingOk acc ->
  Forall (fun s => length (GridSquare.items s) <= MAX_ITEMS_PER_ROW) sorted ->
  PackingOk (fold_left packSquare sorted acc).
Proof.
  revert acc; induction sorted as [|square rest IH]; intros acc Hacc Hall; simpl.
  - assumption.
  - inversion Hall; subst. apply IH; [|assumption]. now apply packSquare_ok.
Qed.

Lemma closeLastRow_ok acc : PackingOk acc -> Forall RowOk (closeLastRow acc).
Proof.
  intros [Hrows Htotal Hceiling]. unfold closeLastRow.
  destruct (Nat.ltb_spec 0 (length (Packing.currentSquares acc))) as [Hsome|_];
    [|assumption].
  apply Forall_app. split; [assumption|].
  constructor; [|constructor]. repeat split; simpl; try assumption.
  destruct (Packing.currentSquares acc); [simpl in Hsome; lia|discriminate].
Qed.

(** C6.  When no input square has more than ten items, every row
    [packIntoRows] emits is non-empty, records as [totalItems] the sum of
    its squares' item counts, and that total is at most ten. *)
Theorem packIntoRows_rows squares :
  Forall (fun s => length (GridSquare.items s) <= MAX_ITEMS_PER_ROW) squares ->
  forall row, In row (packIntoRows squares) ->
    LayoutRow.squares row <> []
    /\ LayoutRow.totalItems row = itemCount (LayoutRow.squares row)
    /\ LayoutRow.totalItems row <= 10.
Proof.
  intros Hall.
  assert (H : Forall RowOk (packIntoRows squares)).
  { unfold packIntoRows. destruct (length squares =? 0)%nat; [constructor|].
    apply closeLastRow_ok, packLoop_ok.
    - constructor; simpl; [constructor|reflexivity|unfold MAX_ITEMS_PER_ROW; lia].
    - apply (Permutation_Forall (sort_Permutation bySizeDescending squares)).
      exact Hall. }
  intros row Hrow. rewrite Forall_forall in H. exact (H row Hrow).
Qed.

Lemma packIntoRows_rows_witness :
  map LayoutRow.totalItems (packIntoRows nineAndSingles) = [9; 5; 4]
  /\ forall row, In row (packIntoRows nineAndSingles) ->
       LayoutRow.squares row <> []
       /\ LayoutRow.totalItems row = itemCount (LayoutRow.squares row)
       /\ LayoutRow.totalItems row <= 10.
Proof.
  split; [reflexivity|].
  apply (packIntoRows_rows nineAndSingles).
  repeat constructor.
Defined.

(* ===================================================================== *)
(** ** The store: what the array-handling functions write *)
(* ===================================================================== *)

Lemma assign_assign {T} i (x y : T) arr : assign i x (assign i y arr) = assign i x arr.
Proof.
  revert i; induction arr as [|z rest IH]; intros [|i]; simpl; auto.
  now rewrite IH.
Qed.

Lemma assign_nth {T} i (arr : list T) d : assign i (nth i arr d) arr = arr.
Proof.
  revert i; induction arr as [|z rest IH]; intros [|i]; simpl; auto.
  now rewrite IH.
Qed.

Lemma assign_last {T} (x y : T) arr : assign (length arr) x (arr ++ [y]) = arr ++ [x].
Proof. induction arr as [|z rest IH]; simpl; auto. now rewrite IH. Qed.

Lemma assign_app {T} i (x : T) arr more :
  i < length arr -> assign i x (arr ++ more) = assign i x arr ++ more.
Proof.
  revert i; induction arr as [|z rest IH]; intros [|i] Hi; simpl in *;
    try lia; auto.
  rewrite IH by lia. reflexivity.
Qed.

Lemma nth_last {T} (x : T) arr d : nth (length arr) (arr ++ [x]) d = x.
Proof. rewrite app_nth2, Nat.sub_diag by lia. reflexivity. Qed.

Lemma firstn_assign {T} n i (x : T) arr :
  n <= i -> firstn n (assign i x arr) = firstn n arr.
Proof.
  revert n i; induction arr as [|z rest IH]; intros [|n] [|i] Hle; simpl;
    try lia; auto.
  rewrite IH by lia. reflexivity.
Qed.

Lemma Store_eta (s : Store) : Store.mk (Store.puzzle s) (Store.arrays s) = s.
Proof. now destruct s. Qed.

Lemma push_run array x s :
  push array x s
  = (tt, Store.mk (Store.puzzle s)
           (assign array (nth array (Store.arrays s) [] ++ [x]) (Store.arrays s))).
Proof. reflexivity. Qed.

Lemma pushItemsM_run squares categoryId index items s :
  squares < length (Store.arrays s) ->
  pushItemsM squares categoryId index items s
  = (tt, Store.mk (Store.puzzle s)
           (assign squares
              (nth squares (Store.arrays s) [] ++ pushItems categoryId index items)
              (Store.arrays s))).
Proof.
  revert index s; induction items as [|item rest IH]; intros index s Hr; simpl.
  - unfold ret. now rewrite app_nil_r, assign_nth, Store_eta.
  - unfold bind. rewrite push_run, IH by (simpl; now rewrite assign_length).
    simpl. rewrite nth_assign_eq, assign_assign, <- app_assoc by assumption.
    reflexivity.
Qed.

Lemma pushCategoriesM_run squares categories s :
  squares < length (Store.arrays s) ->
  pushCategoriesM squares categories s
  = (tt, Store.mk (Store.puzzle s)
           (assign squares
              (nth squares (Store.arrays s) []
               ++ flat_map (fun category =>
                    pushItems (Category.id category) 0 (Category.items category))
                    categories)
              (Store.arrays s))).
Proof.
  revert s; induction categories as [|category rest IH]; intros s Hr; simpl.
  - unfold ret. now rewrite app_nil_r, assign_nth, Store_eta.
  - unfold bind. rewrite pushItemsM_run, IH by (simpl; now rewrite ?assign_length).
    simpl. rewrite nth_assign_eq, assign_assign, <- app_assoc by assumption.
    reflexivity.
Qed.

Lemma shuffleLoopM_run rnd i shuffled s :
  shuffled < length (Store.arrays s) ->
  shuffleLoopM rnd i shuffled s
  = (tt, Store.mk (Store.puzzle s)
           (assign shuffled
              (shuffleLoop rnd i (nth shuffled (Store.arrays s) []))
              (Store.arrays s))).
Proof.
  revert s; induction i as [|i IH]; intros s Hr; simpl.
  - unfold ret. now rewrite assign_nth, Store_eta.
  - unfold bind, swapInPlace, bind, readArray, writeArray.
    rewrite IH by (simpl; now rewrite assign_length).
    simpl. rewrite nth_assign_eq, assign_assign by assumption. reflexivity.
Qed.

(** [shuffleArray] allocates one array, the shuffled copy, and writes
    nowhere else. *)
Lemma shuffleArrayM_run rnd array s :
  shuffleArrayM rnd array s
  = (length (Store.arrays s),
     Store.mk (Store.puzzle s)
       (Store.arrays s ++ [shuffleArray rnd (nth array (Store.arrays s) [])])).
Proof.
  unfold shuffleArrayM, bind, spread, bind, readArray, newArray, ret. simpl.
  rewrite shuffleLoopM_run by (simpl; rewrite length_app; simpl; lia).
  simpl. now rewrite nth_last, assign_last.
Qed.

Lemma initializeGridM_run rnd s :
  initializeGridM rnd s
  = (S (length (Store.arrays s)),
     Store.mk (Store.puzzle s)
       (Store.arrays s ++ [unitSquares (Store.puzzle s);
                           initializeGrid rnd (Store.puzzle s)])).
Proof.
  unfold initializeGridM, bind, newArray, getPuzzle. simpl.
  rewrite pushCategoriesM_run by (simpl; rewrite length_app; simpl; lia).
  rewrite shuffleArrayM_run. simpl.
  rewrite nth_last, assign_last. simpl. rewrite length_app, nth_last. simpl.
  rewrite <- app_assoc, Nat.add_1_r. reflexivity.
Qed.

(** On the store [initializeGameState] computes what the list function
    computes from the stored puzzle, reads the puzzle without writing it,
    and leaves every array that existed as it was. *)
Lemma initializeGameStateM_run rnd now s :
  initializeGameStateM rnd now s
  = (initializeGameState rnd now (Store.puzzle s),
     Store.mk (Store.puzzle s)
       (Store.arrays s ++ [unitSquares (Store.puzzle s);
                           initializeGrid rnd (Store.puzzle s)])).
Proof.
  unfold initializeGameStateM, bind, getPuzzle. rewrite initializeGridM_run.
  unfold readArray, ret. simpl.
  replace (Store.arrays s ++ [unitSquares (Store.puzzle s);
                              initializeGrid rnd (Store.puzzle s)])
    with ((Store.arrays s ++ [unitSquares (Store.puzzle s)])
          ++ [initializeGrid rnd (Store.puzzle s)])
    by (now rewrite <- app_assoc).
  replace (S (length (Store.arrays s)))
    with (length (Store.arrays s ++ [unitSquares (Store.puzzle s)]))
    by (rewrite length_app; simpl; lia).
  rewrite nth_last. reflexivity.
Qed.

Lemma firstn_length_app {T} (l more : list T) : firstn (length l) (l ++ more) = l.
Proof.
  rewrite firstn_app, firstn_all, Nat.sub_diag. simpl. apply app_nil_r.
Qed.

Lemma unitSquares_items puzzle :
  flat_map GridSquare.items (unitSquares puzzle) = getAllItems puzzle.
Proof.
  unfold unitSquares, getAllItems.
  assert (H : forall categoryId index items,
             flat_map GridSquare.items (pushItems categoryId index items) = items).
  { intros categoryId index items; revert index.
    induction items as [|item rest IH]; intros; simpl; auto. now rewrite IH. }
  induction (Puzzle.categories puzzle) as [|category rest IH]; simpl; auto.
  now rewrite flat_map_app, H, IH.
Qed.

(* ===================================================================== *)
(** ** Initialization and reset *)
(* ===================================================================== *)

(** C7.  For a well-formed puzzle, initialization, and [resetGame] which
    repeats it, yield a game state whose grid is a permutation of the 100
    unit squares: one square per item of the puzzle, its id made of the
    category id and the item's index, holding that item alone, unsolved;
    with no mistakes, no solved category, status [playing] and no
    [endTime].  Run on the store, initialization reads the puzzle without
    writing it and leaves every existing array as it was. *)
Theorem initialization_shape puzzle rnd now :
  wellFormed puzzle ->
  let gs := initializeGameState rnd now puzzle in
  Permutation (unitSquares puzzle) (GameState.grid gs)
  /\ length (GameState.grid gs) = 100
  /\ NoDup (map GridSquare.id (GameState.grid gs))
  /\ Permutation (getAllItems puzzle) (flat_map GridSquare.items (GameState.grid gs))
  /\ (forall s, In s (GameState.grid gs) <->
        exists category index item,
          In category (Puzzle.categories puzzle)
          /\ nth_error (Category.items category) index = Some item
          /\ s = GridSquare.mk (squareId (Category.id category) index) [item]
                   (Category.id category) false)
  /\ GameState.mistakes gs = 0
  /\ GameState.solvedCategoryIds gs = []
  /\ GameState.status gs = playing
  /\ GameState.endTime gs = None
  /\ HookState.gameState (useGameState puzzle rnd now) = gs
  /\ (forall st, resetGame puzzle rnd now st = HookState.mk gs [] None [])
  /\ (forall s, Store.puzzle s = puzzle ->
        fst (initializeGameStateM rnd now s) = gs
        /\ Store.puzzle (snd (initializeGameStateM rnd now s)) = puzzle
        /\ firstn (length (Store.arrays s))
                  (Store.arrays (snd (initializeGameStateM rnd now s)))
           = Store.arrays s).
Proof.
  intros Hwf gs.
  pose proof (shuffleArray_Permutation rnd (unitSquares puzzle)) as HP.
  pose proof (initializeGameState_GameInv puzzle rnd now Hwf) as Hinit.
  split; [exact HP|]. split; [|split; [|split; [|split]]].
  - simpl. unfold initializeGrid.
    rewrite <- (Permutation_length HP), unitSquares_length.
    now apply getAllItems_length.
  - exact (inv_ids _ Hinit).
  - rewrite <- unitSquares_items. now apply Permutation_flat_map.
  - intros s. rewrite <- unitSquares_In. split; apply Permutation_in.
    + now apply Permutation_sym.
    + exact HP.
  - repeat (split; [reflexivity|]).
    intros s Hs. rewrite initializeGameStateM_run. simpl. subst puzzle.
    repeat split. apply firstn_length_app.
Qed.

Lemma initialization_shape_witness :
  let gs := initializeGameState (fun i => 3 * i + 1) 42 SAMPLE_PUZZLE in
  length (GameState.grid gs) = 100
  /\ GameState.mistakes gs = 0
  /\ nth_error (GameState.grid gs) 0
     = Some (GridSquare.mk "cat-dances-9" ["Samba"] "cat-dances" false).
Proof.
  intros gs.
  destruct (initialization_shape SAMPLE_PUZZLE (fun i => 3 * i + 1) 42
              SAMPLE_PUZZLE_wellFormed) as (_ & Hlen & _ & _ & _ & Hmistakes & _).
  split; [exact Hlen|]. split; [exact Hmistakes|].
  vm_compute. reflexivity.
Defined.

(* ===================================================================== *)
(** ** Row packing on the store *)
(* ===================================================================== *)

Lemma followRows_same s s' rows :
  Forall (fun r => nth (RowRef.squares r) (Store.arrays s') []
                   = nth (RowRef.squares r) (Store.arrays s) []) rows ->
  followRows s' rows = followRows s rows.
Proof.
  induction 1 as [|r rows Hr _ IH]; simpl; [reflexivity|]. now rewrite Hr, IH.
Qed.

(** One iteration on the store does what one iteration on lists does; it
    writes the current row or a newly allocated array, nothing older. *)
Lemma packSquareM_Represents base s accM acc square :
  Represents base s accM acc ->
  Represents base (snd (packSquareM accM square s))
    (fst (packSquareM accM square s)) (packSquare acc square)
  /\ Store.puzzle (snd (packSquareM accM square s)) = Store.puzzle s
  /\ firstn base (Store.arrays (snd (packSquareM accM square s)))
     = firstn base (Store.arrays s).
Proof.
  intros [Hrows Hcurrent Htotal Halloc Hfresh Hclosed].
  unfold packSquareM, packSquare, bind, readArray.
  rewrite Hcurrent, Htotal.
  destruct ((_ || _) && _); unfold newArray, push, bind, readArray, writeArray, ret;
    simpl.
  - split; [constructor; simpl|split; [reflexivity|]].
    + unfold followRows. rewrite map_app. simpl.
      rewrite app_nth1, Hcurrent by assumption. f_equal.
      rewrite <- Hrows.
      apply (followRows_same s
               (Store.mk (Store.puzzle s) (Store.arrays s ++ [[square]]))).
      apply (Forall_impl _ (P := fun r => RowRef.squares r < length (Store.arrays s)
                 /\ RowRef.squares r <> PackingM.currentSquares accM));
        [|assumption].
      intros r [Hr _]. simpl. now rewrite app_nth1.
    + apply nth_last.
    + reflexivity.
    + rewrite length_app. simpl. lia.
    + lia.
    + apply Forall_app. split.
      * apply (Forall_impl _ (P := fun r => RowRef.squares r < length (Store.arrays s)
                   /\ RowRef.squares r <> PackingM.currentSquares accM));
          [|assumption].
        intros r [Hr _]. rewrite length_app. simpl. lia.
      * constructor; [|constructor]. simpl. rewrite length_app. simpl. lia.
    + rewrite firstn_app. replace (base - length (Store.arrays s)) with 0 by lia.
      simpl. apply app_nil_r.
  - split; [constructor; simpl|split; [reflexivity|]].
    + rewrite <- Hrows. apply followRows_same.
      apply (Forall_impl _ (P := fun r => RowRef.squares r < length (Store.arrays s)
                 /\ RowRef.squares r <> PackingM.currentSquares accM));
        [|assumption].
      intros r [_ Hr]. simpl. rewrite nth_assign_ne by congruence. reflexivity.
    + rewrite nth_assign_eq by assumption. now rewrite Hcurrent.
    + reflexivity.
    + now rewrite assign_length.
    + assumption.
    + rewrite assign_length. assumption.
    + now apply firstn_assign.
Qed.

Lemma packLoopM_Represents base sorted s accM acc :
  Represents base s accM acc ->
  Represents base (snd (packLoopM sorted accM s))
    (fst (packLoopM sorted accM s)) (fold_left packSquare sorted acc)
  /\ Store.puzzle (snd (packLoopM sorted accM s)) = Store.puzzle s
  /\ firstn base (Store.arrays (snd (packLoopM sorted accM s)))
     = firstn base (Store.arrays s).
Proof.
  revert s accM acc; induction sorted as [|square rest IH]; intros s accM acc Hrep;
    simpl.
  - auto.
  - unfold bind.
    destruct (packSquareM_Represents base s accM acc square Hrep)
      as (Hstep & Hpuzzle & Hold).
    destruct (packSquareM accM square s) as [accM' s']. simpl in *.
    destruct (IH s' accM' _ Hstep) as (Hloop & Hpuzzle' & Hold').
    split; [assumption|]. split; congruence.
Qed.

(** [packIntoRows] on the store returns rows that, followed, are the rows
    the list function computes from the contents of the input array; the
    puzzle and every array that existed, the input among them, are left as
    they were. *)
Lemma packIntoRowsM_run squares s :
  squares < length (Store.arrays s) ->
  followRows (snd (packIntoRowsM squares s)) (fst (packIntoRowsM squares s))
  = packIntoRows (nth squares (Store.arrays s) [])
  /\ Store.puzzle (snd (packIntoRowsM squares s)) = Store.puzzle s
  /\ firstn (length (Store.arrays s)) (Store.arrays (snd (packIntoRowsM squares s)))
     = Store.arrays s.
Proof.
  intros Hr. unfold packIntoRowsM, packIntoRows, bind, readArray.
  cbn beta iota.
  destruct (length (nth squares (Store.arrays s) []) =? 0)%nat.
  - unfold ret; simpl. repeat split. apply firstn_all.
  - unfold spread, sortInPlace, bind, readArray, newArray, writeArray, ret. simpl.
    set (input := nth squares (Store.arrays s) []).
    rewrite nth_last, assign_last.
    rewrite app_nth1, nth_last by (rewrite length_app; simpl; lia).
    set (s3 := Store.mk (Store.puzzle s)
                 ((Store.arrays s ++ [sort bySizeDescending input]) ++ [[]])).
    set (accM0 := PackingM.mk [] _ 0).
    assert (Hrep : Represents (length (Store.arrays s) + 1) s3 accM0
                     (Packing.mk [] [] 0)).
    { constructor; simpl.
      - reflexivity.
      - apply nth_last.
      - reflexivity.
      - rewrite !length_app. simpl. lia.
      - rewrite length_app. simpl. lia.
      - constructor. }
    destruct (packLoopM_Represents _ (sort bySizeDescending input) s3 accM0 _ Hrep)
      as ([Hrows Hcurrent Htotal Halloc Hfresh Hclosed] & Hpuzzle & Hold).
    destruct (packLoopM (sort bySizeDescending input) accM0 s3) as [accM' s']. simpl in *.
    unfold closeLastRow. rewrite Hcurrent.
    assert (Hkept : firstn (length (Store.arrays s)) (Store.arrays s') = Store.arrays s).
    { apply (f_equal (firstn (length (Store.arrays s)))) in Hold.
      rewrite !firstn_firstn in Hold.
      replace (Init.Nat.min (length (Store.arrays s)) (length (Store.arrays s) + 1))
        with (length (Store.arrays s)) in Hold by lia.
      rewrite Hold, <- app_assoc. apply firstn_length_app. }
    destruct (0 <? length _)%nat; simpl.
    + repeat split; try assumption.
      unfold followRows. rewrite map_app. simpl.
      fold (followRows s' (PackingM.rows accM')).
      now rewrite Hrows, Hcurrent, Htotal.
    + repeat split; assumption.
Qed.

(** C9.  [packIntoRows] is a function of the contents of its input: run
    on any two stores in which the input arrays hold equal lists, it
    returns rows that read the same, namely the rows the list function
    [packIntoRows] computes; it leaves the input array, as every array that
    existed before the call, and the puzzle unwritten; and on an empty
    input it returns no rows. *)
Theorem packIntoRows_pure s1 s2 squares1 squares2 :
  squares1 < length (Store.arrays s1) ->
  squares2 < length (Store.arrays s2) ->
  nth squares1 (Store.arrays s1) [] = nth squares2 (Store.arrays s2) [] ->
  let out1 := packIntoRowsM squares1 s1 in
  let out2 := packIntoRowsM squares2 s2 in
  followRows (snd out1) (fst out1) = followRows (snd out2) (fst out2)
  /\ followRows (snd out1) (fst out1) = packIntoRows (nth squares1 (Store.arrays s1) [])
  /\ nth squares1 (Store.arrays (snd out1)) [] = nth squares1 (Store.arrays s1) []
  /\ firstn (length (Store.arrays s1)) (Store.arrays (snd out1)) = Store.arrays s1
  /\ Store.puzzle (snd out1) = Store.puzzle s1
  /\ (nth squares1 (Store.arrays s1) [] = [] -> out1 = ([], s1))
  /\ packIntoRows [] = [].
Proof.
  intros H1 H2 Hsame out1 out2.
  destruct (packIntoRowsM_run squares1 s1 H1) as (Hrows1 & Hpuzzle1 & Hold1).
  destruct (packIntoRowsM_run squares2 s2 H2) as (Hrows2 & _ & _).
  fold out1 in Hrows1, Hpuzzle1, Hold1. fold out2 in Hrows2.
  split; [congruence|]. split; [assumption|]. split; [|split; [assumption|]].
  - transitivity (nth squares1
                    (firstn (length (Store.arrays s1)) (Store.arrays (snd out1))) []);
      [|now rewrite Hold1].
    rewrite nth_firstn.
    destruct (Nat.ltb_spec squares1 (length (Store.arrays s1))); [reflexivity|lia].
  - split; [assumption|]. split; [|reflexivity].
    intros Hempty. unfold out1, packIntoRowsM, bind, readArray. now rewrite Hempty.
Qed.

Lemma packIntoRows_pure_witness :
  let s1 := Store.mk SAMPLE_PUZZLE [nineAndSingles] in
  let s2 := Store.mk SAMPLE_PUZZLE [[]; unitSquares SAMPLE_PUZZLE; nineAndSingles] in
  followRows (snd (packIntoRowsM 0 s1)) (fst (packIntoRowsM 0 s1))
  = followRows (snd (packIntoRowsM 2 s2)) (fst (packIntoRowsM 2 s2))
  /\ nth 0 (Store.arrays (snd (packIntoRowsM 0 s1))) [] = nineAndSingles.
Proof.
  intros s1 s2.
  destruct (packIntoRows_pure s1 s2 0 2) as (Hsame & _ & Hinput & _).
  - simpl; lia.
  - simpl; lia.
  - reflexivity.
  - split; [exact Hsame|exact Hinput].
Defined.

(* ===================================================================== *)
(** ** The scenarios of the design document, run on the sample puzzle *)
(* ===================================================================== *)

(** Two single squares of different categories: failure, one mistake, the
    grid still has its 100 squares, and both squares shake. *)
Example scenario_different_categories :
  let st := play SAMPLE_PUZZLE keepOrder 0
              [SelectSquare 1 "cat-fruits-0"; SelectSquare 2 "cat-countries-0"] in
  HookState.lastMergeResult st = Some (MergeFailure different_categories)
  /\ GameState.mistakes (HookState.gameState st) = 1
  /\ length (GameState.grid (HookState.gameState st)) = 100
  /\ HookState.shakingSquareIds st = ["cat-fruits-0"; "cat-countries-0"]
  /\ HookState.selectedSquareIds st = [].
Proof. vm_compute. repeat split. Qed.

(** Two single squares of one category: a two-item square, 99 squares. *)
Example scenario_same_category :
  let st := play SAMPLE_PUZZLE keepOrder 0
              [SelectSquare 1 "cat-fruits-0"; SelectSquare 2 "cat-fruits-1"] in
  HookState.lastMergeResult st
  = Some (MergeSuccess
            (GridSquare.mk "cat-fruits-0" ["Apple"; "Banana"] "cat-fruits" false)
            None)
  /\ length (GameState.grid (HookState.gameState st)) = 99
  /\ GameState.mistakes (HookState.gameState st) = 0.
Proof. vm_compute. repeat split. Qed.

(** Merging on until the category has its ten items solves it, and the
    result carries the category. *)
Example scenario_category_solved :
  let st := play SAMPLE_PUZZLE keepOrder 0 (solveCategory "cat-fruits") in
  HookState.lastMergeResult st
  = Some (MergeSuccess
            (GridSquare.mk "cat-fruits-0" (Category.items fruits) "cat-fruits" true)
            (Some fruits))
  /\ GameState.solvedCategoryIds (HookState.gameState st) = ["cat-fruits"]
  /\ GameState.status (HookState.gameState st) = playing
  /\ length (GameState.grid (HookState.gameState st)) = 91.
Proof. vm_compute. repeat split. Qed.

(** Solving all ten categories wins the game and sets [endTime]. *)
Example scenario_won :
  let st := play SAMPLE_PUZZLE keepOrder 0 solveAll in
  GameState.status (HookState.gameState st) = won
  /\ GameState.endTime (HookState.gameState st) = Some 0%Z
  /\ length (GameState.grid (HookState.gameState st)) = 10
  /\ GameState.mistakes (HookState.gameState st) = 0.
Proof. vm_compute. repeat split. Qed.

(** One square of nine items and nine single squares: the nine-item square
    stands alone, the single squares follow in rows of up to five. *)
Example scenario_packing :
  map (fun row => map (fun s => length (GridSquare.items s)) (LayoutRow.squares row))
      (packIntoRows nineAndSingles)
  = [[9]; [1; 1; 1; 1; 1]; [1; 1; 1; 1]].
Proof. reflexivity. Qed.

(* ===================================================================== *)
(** ** The contents of the grid *)
(* ===================================================================== *)

Lemma category_unique (categories : list Category) c1 c2 :
  NoDup (map Category.id categories) ->
  In c1 categories -> In c2 categories ->
  Category.id c1 = Category.id c2 -> c1 = c2.
Proof.
  induction categories as [|c rest IH]; simpl; intros Hnd H1 H2 Heq; [tauto|].
  inversion Hnd as [|? ? Hc Hrest]; subst.
  destruct H1 as [->|H1], H2 as [->|H2]; auto.
  - exfalso. apply Hc. rewrite Heq. now apply in_map.
  - exfalso. apply Hc. rewrite <- Heq. now apply in_map.
Qed.

Lemma categoryItemCount_none c squares :
  (forall s, In s squares -> GridSquare.categoryId s <> c) ->
  categoryItemCount c squares = 0.
Proof.
  induction squares as [|x rest IH]; intros H.
  - reflexivity.
  - rewrite categoryItemCount_cons, IH by (intros s Hs; apply H; now right).
    destruct (String.eqb_spec (GridSquare.categoryId x) c) as [Heq|_];
      [|reflexivity].
    exfalso. apply (H x); [now left|assumption].
Qed.

Lemma unitSquares_full puzzle category :
  wellFormed puzzle -> In category (Puzzle.categories puzzle) ->
  categoryItemCount (Category.id category) (unitSquares puzzle) = 10.
Proof.
  intros (_ & Hitems & Hids & _). unfold unitSquares.
  induction (Puzzle.categories puzzle) as [|cat cats IH]; simpl; [tauto|].
  inversion Hitems as [|? ? Hc Hrest]; subst.
  inversion Hids as [|? ? Hnotin Hnodup]; subst.
  rewrite categoryItemCount_app, pushItems_categoryItemCount.
  intros [->|Hin].
  - rewrite String.eqb_refl, Hc, categoryItemCount_none; [reflexivity|].
    intros s Hs Heq. apply Hnotin.
    apply in_flat_map in Hs as (cat' & Hcat' & Hs).
    apply pushItems_In in Hs as (k & item & _ & ->). simpl in Heq.
    rewrite <- Heq. now apply in_map.
  - destruct (String.eqb_spec (Category.id cat) (Category.id category)) as [Heq|_].
    + exfalso. apply Hnotin. rewrite Heq. now apply in_map.
    + simpl. now apply IH.
Qed.

Lemma getSolvedSquares_unsolved squares :
  (forall s, In s squares -> GridSquare.isSolved s = false) ->
  getSolvedSquares squares = [].
Proof.
  induction squares as [|x rest IH]; simpl; intros H; [reflexivity|].
  rewrite (H x) by now left. apply IH. intros s Hs. apply H. now right.
Qed.

(** Taking unsolved squares off the grid leaves the solved ones in place. *)
Lemma getSolvedSquares_others squareIdA squareIdB squares :
  (forall s, In s squares -> others squareIdA squareIdB s = false ->
             GridSquare.isSolved s = false) ->
  getSolvedSquares (filter (others squareIdA squareIdB) squares)
  = getSolvedSquares squares.
Proof.
  induction squares as [|x rest IH]; simpl; intros H; [reflexivity|].
  assert (Hrest : forall s, In s rest -> others squareIdA squareIdB s = false ->
                            GridSquare.isSolved s = false)
    by (intros s Hs; apply H; now right).
  destruct (others squareIdA squareIdB x) eqn:Hx; simpl.
  - now rewrite IH.
  - rewrite (H x) by auto. now apply IH.
Qed.

Lemma initializeGameState_ContentInv puzzle rnd now :
  wellFormed puzzle -> ContentInv puzzle (initializeGameState rnd now puzzle).
Proof.
  intros Hwf.
  pose proof (shuffleArray_Permutation rnd (unitSquares puzzle)) as HP.
  assert (Hunit : forall s, In s (initializeGrid rnd puzzle) ->
            exists category index item,
              In category (Puzzle.categories puzzle)
              /\ nth_error (Category.items category) index = Some item
              /\ s = GridSquare.mk (squareId (Category.id category) index) [item]
                       (Category.id category) false).
  { intros s Hs. apply unitSquares_In.
    now apply (Permutation_in _ (Permutation_sym HP)). }
  constructor; simpl.
  - rewrite <- unitSquares_items. now apply Permutation_flat_map.
  - intros s Hs. destruct (Hunit s Hs) as (cat & k & item & Hcat & Hk & ->).
    exists cat. repeat split; try assumption.
    intros i [<-|[]]. now apply nth_error_In with k.
  - rewrite getSolvedSquares_unsolved; [reflexivity|]. intros s Hs.
    now destruct (Hunit s Hs) as (cat & k & item & _ & _ & ->).
  - intros cat Hcat. unfold initializeGrid.
    rewrite <- (categoryItemCount_Permutation _ _ _ HP).
    now apply unitSquares_full.
Qed.

Lemma withMistake_ContentInv puzzle gs :
  ContentInv puzzle gs -> ContentInv puzzle (withMistake gs).
Proof. intros []. constructor; assumption. Qed.

Lemma applyMerge_ContentInv puzzle now squareIdA squareIdB squareA squareB gs :
  wellFormed puzzle -> GameInv gs -> ContentInv puzzle gs ->
  squareIdA <> squareIdB ->
  getSquareById (GameState.grid gs) squareIdA = Some squareA ->
  getSquareById (GameState.grid gs) squareIdB = Some squareB ->
  GridSquare.categoryId squareA = GridSquare.categoryId squareB ->
  GridSquare.isSolved squareA = false ->
  GridSquare.isSolved squareB = false ->
  ContentInv puzzle
    (applyMerge now squareIdA squareIdB (mergeSquares squareA squareB) gs).
Proof.
  intros Hwf Hgame [Hitems Hcat Hsolved Hfull] Hne HA HB Hc HunA HunB.
  pose proof (merge_split _ _ _ _ _ Hgame Hne HA HB) as HP.
  destruct (getSquareById_Some _ _ _ HA) as [HinA HidA].
  destruct (getSquareById_Some _ _ _ HB) as [HinB HidB].
  constructor; rewrite ?merge_grid.
  - rewrite Hitems, (Permutation_flat_map GridSquare.items HP).
    rewrite flat_map_app. simpl. rewrite app_nil_r, app_assoc.
    apply Permutation_app_comm.
  - intros s Hs. apply in_app_or in Hs as [Hs|[<-|[]]].
    + apply Hcat. now apply filter_In in Hs.
    + destruct (Hcat _ HinA) as (catA & HcatA & HidcA & HinclA).
      destruct (Hcat _ HinB) as (catB & HcatB & HidcB & HinclB).
      assert (catB = catA).
      { destruct Hwf as (_ & _ & Hids & _).
        apply (category_unique _ _ _ Hids); congruence. }
      subst catB. exists catA. repeat split; try assumption.
      simpl. now apply incl_app.
  - unfold getSolvedSquares in *. rewrite filter_app, map_app.
    fold (getSolvedSquares (filter (others squareIdA squareIdB) (GameState.grid gs))).
    rewrite getSolvedSquares_others.
    + unfold getSolvedSquares. rewrite Hsolved. unfold applyMerge. simpl.
      destruct (length (GridSquare.items squareA)
                + length (GridSquare.items squareB) =? 10)%nat; simpl;
        [reflexivity|apply app_nil_r].
    + intros s Hs Hout. unfold others in Hout.
      pose proof (getSquareById_In _ s (inv_ids _ Hgame) Hs) as Hfind.
      destruct (String.eqb_spec (GridSquare.id s) squareIdA) as [Heq|_].
      * rewrite Heq, HA in Hfind. congruence.
      * destruct (String.eqb_spec (GridSquare.id s) squareIdB) as [Heq|_];
          [|discriminate].
        rewrite Heq, HB in Hfind. congruence.
  - intros cat Hin.
    rewrite (merge_categoryItemCount _ _ _ _ _ Hgame Hne HA HB Hc). now apply Hfull.
Qed.

Lemma selectSquare_ContentInv puzzle now squareId st :
  wellFormed puzzle -> Inv st -> ContentInv puzzle (HookState.gameState st) ->
  ContentInv puzzle (HookState.gameState (selectSquare puzzle now squareId st)).
Proof.
  intros Hwf [Hgame Hsel] Hcontent. unfold selectSquare.
  destruct (selectSquareTraced_cases puzzle now squareId st Hsel)
    as [H|[H|[H|(first & squareA & squareB & _ & Hne & _ & HA & HunA & HB & HunB & H)]]];
    rewrite H; simpl; try assumption.
  rewrite (attemptMerge_found _ _ _ _ squareA squareB) by assumption.
  destruct (String.eqb_spec (GridSquare.categoryId squareA)
                            (GridSquare.categoryId squareB)); simpl.
  - now apply applyMerge_ContentInv.
  - now apply withMistake_ContentInv.
Qed.

Lemma reachable_ContentInv puzzle st :
  wellFormed puzzle -> reachable puzzle st ->
  ContentInv puzzle (HookState.gameState st).
Proof.
  intros Hwf. induction 1 as [rnd now|st a Hreach IH].
  - now apply initializeGameState_ContentInv.
  - destruct a as [now squareId|rnd now| |]; simpl; try assumption.
    + apply selectSquare_ContentInv; try assumption.
      now apply (reachable_Inv puzzle).
    + now apply initializeGameState_ContentInv.
Qed.

(* ===================================================================== *)
(** ** Looking categories up *)
(* ===================================================================== *)

Lemma includes_In ids squareId : includes ids squareId = true <-> In squareId ids.
Proof.
  unfold includes. rewrite existsb_exists. split.
  - intros (x & Hx & Heq). apply String.eqb_eq in Heq. now subst.
  - intros H. exists squareId. split; [assumption|apply String.eqb_refl].
Qed.

Lemma NoDup_app_disjoint {T} (l1 l2 : list T) x :
  NoDup (l1 ++ l2) -> In x l1 -> In x l2 -> False.
Proof.
  induction l1 as [|y rest IH]; simpl; intros Hnd H1 H2; [tauto|].
  inversion Hnd as [|? ? Hy Hrest]; subst. destruct H1 as [->|H1].
  - apply Hy. apply in_or_app. now right.
  - now apply IH.
Qed.

Lemma NoDup_flat_map_In {A B} (f : A -> list B) l a :
  NoDup (flat_map f l) -> In a l -> NoDup (f a).
Proof.
  induction l as [|x rest IH]; simpl; intros Hnd Hin; [tauto|].
  destruct Hin as [->|Hin].
  - now apply NoDup_app_remove_r in Hnd.
  - apply IH; [|assumption]. now apply NoDup_app_remove_l in Hnd.
Qed.

Lemma getCategoryById_In puzzle category :
  NoDup (map Category.id (Puzzle.categories puzzle)) ->
  In category (Puzzle.categories puzzle) ->
  getCategoryById puzzle (Category.id category) = Some category.
Proof.
  unfold getCategoryById.
  induction (Puzzle.categories puzzle) as [|c rest IH]; simpl; intros Hnd Hin;
    [tauto|].
  inversion Hnd as [|? ? Hc Hrest]; subst. destruct Hin as [->|Hin].
  - now rewrite String.eqb_refl.
  - destruct (String.eqb_spec (Category.id c) (Category.id category)) as [Heq|_].
    + exfalso. apply Hc. rewrite Heq. now apply in_map.
    + now apply IH.
Qed.

Lemma findCategoryForItem_In puzzle category item :
  NoDup (getAllItems puzzle) ->
  In category (Puzzle.categories puzzle) ->
  In item (Category.items category) ->
  findCategoryForItem puzzle item = Some category.
Proof.
  unfold findCategoryForItem, getAllItems.
  induction (Puzzle.categories puzzle) as [|c rest IH]; simpl;
    intros Hnd Hin Hitem; [tauto|].
  destruct (includes (Category.items c) item) eqn:Hc.
  - apply includes_In in Hc. destruct Hin as [->|Hin]; [reflexivity|].
    exfalso. apply (NoDup_app_disjoint _ _ item Hnd Hc).
    apply in_flat_map. now exists category.
  - destruct Hin as [->|Hin].
    + apply includes_In in Hitem. congruence.
    + apply IH; try assumption. now apply NoDup_app_remove_l in Hnd.
Qed.

Lemma findCategoryForItem_None puzzle item :
  findCategoryForItem puzzle item = None <-> ~ In item (getAllItems puzzle).
Proof.
  unfold findCategoryForItem, getAllItems. rewrite in_flat_map. split.
  - intros Hnone (cat & Hcat & Hitem).
    pose proof (find_none _ _ Hnone cat Hcat) as H. simpl in H.
    apply includes_In in Hitem. congruence.
  - intros Hnot.
    destruct (find _ _) as [cat|] eqn:Hfind; [exfalso|reflexivity].
    apply find_some in Hfind as [Hcat Hitem]. apply includes_In in Hitem.
    apply Hnot. now exists cat.
Qed.

(** X1.  On a well-formed puzzle [findCategoryForItem] returns, for every
    item of every category, that very category, and [getCategoryById] gives
    the category back from its id; [findCategoryForItem] returns nothing
    exactly for the strings that are no item of the puzzle, and
    [getAllItems] lists 100 pairwise distinct items. *)
Theorem category_lookups puzzle :
  wellFormed puzzle ->
  (forall category item,
     In category (Puzzle.categories puzzle) ->
     In item (Category.items category) ->
     findCategoryForItem puzzle item = Some category
     /\ getCategoryById puzzle (Category.id category) = Some category)
  /\ (forall item,
        findCategoryForItem puzzle item = None <-> ~ In item (getAllItems puzzle))
  /\ length (getAllItems puzzle) = 100
  /\ NoDup (getAllItems puzzle).
Proof.
  intros Hwf. pose proof Hwf as (_ & _ & Hids & Hitems).
  split; [|split; [|split]].
  - intros category item Hcat Hitem. split.
    + now apply findCategoryForItem_In.
    + now apply getCategoryById_In.
  - apply findCategoryForItem_None.
  - now apply getAllItems_length.
  - assumption.
Qed.

Lemma category_lookups_witness :
  findCategoryForItem SAMPLE_PUZZLE "Rigatoni" = Some pasta
  /\ getCategoryById SAMPLE_PUZZLE "cat-pasta" = Some pasta
  /\ findCategoryForItem SAMPLE_PUZZLE "Gnocchi" = None.
Proof.
  destruct (category_lookups SAMPLE_PUZZLE SAMPLE_PUZZLE_wellFormed)
    as (Hfound & Hnone & _).
  destruct (Hfound pasta "Rigatoni") as [Hitem Hcat].
  - vm_compute; tauto.
  - vm_compute; tauto.
  - split; [exact Hitem|]. split; [exact Hcat|].
    apply Hnone. vm_compute.
    intros H; repeat (destruct H as [H|H]; [discriminate H|]); exact H.
Defined.

(* ===================================================================== *)
(** ** Items, categories and solved squares in a session *)
(* ===================================================================== *)

(** X2.  In every reachable state the items on the grid, square after
    square, are a permutation of the puzzle's items: merging loses no item
    and shows none twice. *)
Theorem grid_items_conserved puzzle st :
  wellFormed puzzle -> reachable puzzle st ->
  Permutation (getAllItems puzzle)
    (flat_map GridSquare.items (GameState.grid (HookState.gameState st)))
  /\ NoDup (flat_map GridSquare.items (GameState.grid (HookState.gameState st))).
Proof.
  intros Hwf Hreach.
  pose proof (content_items _ _ (reachable_ContentInv puzzle st Hwf Hreach)) as HP.
  split; [exact HP|]. apply (Permutation_NoDup HP). apply Hwf.
Qed.

Lemma grid_items_conserved_witness :
  NoDup (flat_map GridSquare.items
           (GameState.grid (HookState.gameState
              (play SAMPLE_PUZZLE (fun i => 5 * i + 2) 0
                 (solveCategory "cat-elements"
                  ++ [SelectSquare 1 "cat-pasta-0"; SelectSquare 2 "cat-dogs-0";
                      SelectSquare 3 "cat-pasta-0"; SelectSquare 4 "cat-pasta-9"]))))).
Proof.
  apply (grid_items_conserved SAMPLE_PUZZLE).
  - exact SAMPLE_PUZZLE_wellFormed.
  - apply play_reachable.
Defined.

(** X3.  In every reachable state all items of a square are items of the
    one category the square names: [getCategoryById] finds that category
    from the square's [categoryId], and [findCategoryForItem] finds the
    same category from each of the square's items. *)
Theorem square_items_share_category puzzle st s :
  wellFormed puzzle -> reachable puzzle st ->
  In s (GameState.grid (HookState.gameState st)) ->
  exists category,
    getCategoryById puzzle (GridSquare.categoryId s) = Some category
    /\ forall item, In item (GridSquare.items s) ->
         In item (Category.items category)
         /\ findCategoryForItem puzzle item = Some category.
Proof.
  intros Hwf Hreach Hs.
  destruct (content_category _ _ (reachable_ContentInv puzzle st Hwf Hreach) s Hs)
    as (category & Hcat & Hid & Hincl).
  destruct Hwf as (_ & _ & Hids & Hitems).
  exists category. split.
  - rewrite <- Hid. now apply getCategoryById_In.
  - intros item Hitem. split; [now apply Hincl|].
    apply findCategoryForItem_In; auto.
Qed.

Lemma square_items_share_category_witness :
  exists category,
    getCategoryById SAMPLE_PUZZLE "cat-dances" = Some category
    /\ forall item, In item ["Waltz"; "Samba"; "Polka"] ->
         In item (Category.items category)
         /\ findCategoryForItem SAMPLE_PUZZLE item = Some category.
Proof.
  apply (square_items_share_category SAMPLE_PUZZLE
           (play SAMPLE_PUZZLE keepOrder 0
              [SelectSquare 1 "cat-dances-0"; SelectSquare 2 "cat-dances-9";
               SelectSquare 3 "cat-dances-0"; SelectSquare 4 "cat-dances-7"])
           (GridSquare.mk "cat-dances-0" ["Waltz"; "Samba"; "Polka"] "cat-dances" false)).
  - exact SAMPLE_PUZZLE_wellFormed.
  - apply play_reachable.
  - vm_compute. do 97 right. now left.
Defined.

Lemma solved_unsolved_partition squares :
  Permutation squares (getSolvedSquares squares ++ getUnsolvedSquares squares).
Proof.
  induction squares as [|x rest IH]; simpl; [constructor|].
  destruct (GridSquare.isSolved x); simpl.
  - now apply perm_skip.
  - now apply Permutation_cons_app.
Qed.

Lemma itemCount_at_least squares :
  (forall s, In s squares -> 1 <= length (GridSquare.items s)) ->
  length squares <= itemCount squares.
Proof.
  induction squares as [|x rest IH]; intros H; [unfold itemCount; simpl; lia|].
  rewrite itemCount_cons. simpl.
  specialize (H x (or_introl eq_refl)) as Hx.
  assert (length rest <= itemCount rest) by (apply IH; intros s Hs; apply H; now right).
  lia.
Qed.

Lemma itemCount_at_most squares :
  (forall s, In s squares -> length (GridSquare.items s) <= 10) ->
  itemCount squares <= 10 * length squares.
Proof.
  induction squares as [|x rest IH]; intros H; [unfold itemCount; simpl; lia|].
  rewrite itemCount_cons. simpl length.
  specialize (H x (or_introl eq_refl)) as Hx.
  assert (itemCount rest <= 10 * length rest)
    by (apply IH; intros s Hs; apply H; now right).
  lia.
Qed.

Lemma itemCount_all_ten squares :
  (forall s, In s squares -> length (GridSquare.items s) <= 10) ->
  itemCount squares = 10 * length squares ->
  forall s, In s squares -> length (GridSquare.items s) = 10.
Proof.
  induction squares as [|x rest IH]; intros H Hsum s Hs; [destruct Hs|].
  rewrite itemCount_cons in Hsum. simpl length in Hsum.
  specialize (H x (or_introl eq_refl)) as Hx.
  assert (Hrest : forall s, In s rest -> length (GridSquare.items s) <= 10)
    by (intros s' Hs'; apply H; now right).
  pose proof (itemCount_at_most rest Hrest).
  destruct Hs as [<-|Hs]; [lia|]. apply IH; try assumption. lia.
Qed.

Lemma itemCount_tens squares :
  (forall s, In s squares -> length (GridSquare.items s) = 10) ->
  itemCount squares = 10 * length squares.
Proof.
  induction squares as [|x rest IH]; intros H; [reflexivity|].
  rewrite itemCount_cons, (H x), IH by (try (now left); intros s Hs; apply H; now right).
  simpl length. lia.
Qed.

(** On a grid of a session every square has between one and ten items. *)
Lemma GameInv_square_size gs s :
  GameInv gs -> In s (GameState.grid gs) ->
  1 <= length (GridSquare.items s) <= 10.
Proof.
  intros Hinv Hs. split.
  - pose proof (inv_items _ Hinv s Hs).
    destruct (GridSquare.items s); [congruence|simpl; lia].
  - pose proof (categoryItemCount_In _ s _ Hs eq_refl).
    pose proof (inv_category _ Hinv (GridSquare.categoryId s)). lia.
Qed.

Lemma getSolvedSquares_In squares s :
  In s (getSolvedSquares squares) <-> In s squares /\ GridSquare.isSolved s = true.
Proof. apply filter_In. Qed.

Lemma getUnsolvedSquares_In squares s :
  In s (getUnsolvedSquares squares) <-> In s squares /\ GridSquare.isSolved s = false.
Proof.
  unfold getUnsolvedSquares. rewrite filter_In, negb_true_iff. reflexivity.
Qed.

(** A solved square holds precisely the ten items of its category. *)
Lemma solved_squares_category puzzle st s :
  wellFormed puzzle -> reachable puzzle st ->
  In s (getSolvedSquares (GameState.grid (HookState.gameState st))) ->
  exists category,
    getCategoryById puzzle (GridSquare.categoryId s) = Some category
    /\ Category.id category = GridSquare.categoryId s
    /\ Permutation (GridSquare.items s) (Category.items category).
Proof.
  intros Hwf Hreach Hs.
  pose proof (reachable_ContentInv puzzle st Hwf Hreach) as Hcontent.
  destruct (reachable_Inv puzzle st Hwf Hreach) as [Hgame _].
  apply getSolvedSquares_In in Hs as [Hs Hsolved].
  destruct (content_category _ _ Hcontent s Hs) as (category & Hcat & Hid & Hincl).
  pose proof Hwf as (_ & Hten & Hids & Hitems).
  exists category. split; [|split; [assumption|]].
  - rewrite <- Hid. now apply getCategoryById_In.
  - apply NoDup_Permutation_bis; [| |assumption].
    + apply (NoDup_flat_map_In GridSquare.items
               (GameState.grid (HookState.gameState st))); [|assumption].
      apply (Permutation_NoDup (content_items _ _ Hcontent)). assumption.
    + rewrite Forall_forall in Hten. rewrite (Hten category Hcat).
      pose proof (inv_flag _ Hgame s Hs) as Hflag. rewrite Hsolved in Hflag.
      symmetry in Hflag. apply Nat.eqb_eq in Hflag. lia.
Qed.

(** X4.  In every reachable state the solved squares of the grid, in grid
    order, bear exactly the ids listed in [solvedCategoryIds], in the same
    order; and each solved square holds precisely the ten items of its
    category.  So the trophies the board shows are the categories the
    state counts as solved. *)
Theorem solved_squares_are_solved_categories puzzle st :
  wellFormed puzzle -> reachable puzzle st ->
  let gs := HookState.gameState st in
  map GridSquare.categoryId (getSolvedSquares (GameState.grid gs))
  = GameState.solvedCategoryIds gs
  /\ length (getSolvedSquares (GameState.grid gs))
     = length (GameState.solvedCategoryIds gs)
  /\ forall s, In s (getSolvedSquares (GameState.grid gs)) ->
       exists category,
         getCategoryById puzzle (GridSquare.categoryId s) = Some category
         /\ Permutation (GridSquare.items s) (Category.items category).
Proof.
  intros Hwf Hreach gs.
  pose proof (reachable_ContentInv puzzle st Hwf Hreach) as Hcontent.
  destruct (reachable_Inv puzzle st Hwf Hreach) as [Hgame _].
  fold gs in Hcontent, Hgame.
  split; [exact (content_solved _ _ Hcontent)|]. split.
  - rewrite <- (content_solved _ _ Hcontent). now rewrite length_map.
  - intros s Hs.
    destruct (solved_squares_category puzzle st s Hwf Hreach Hs)
      as (category & Hcat & _ & HP).
    exists category. auto.
Qed.

Lemma solved_squares_are_solved_categories_witness :
  let st := play SAMPLE_PUZZLE (fun i => i + 1) 0
              (solveCategory "cat-dogs" ++ solveCategory "cat-fruits") in
  map GridSquare.categoryId
      (getSolvedSquares (GameState.grid (HookState.gameState st)))
  = ["cat-dogs"; "cat-fruits"]
  /\ GameState.solvedCategoryIds (HookState.gameState st)
     = ["cat-dogs"; "cat-fruits"].
Proof.
  intros st.
  destruct (solved_squares_are_solved_categories SAMPLE_PUZZLE st
              SAMPLE_PUZZLE_wellFormed (play_reachable _ _ _ _)) as (Heq & _).
  split; [|vm_compute; reflexivity].
  rewrite Heq. vm_compute. reflexivity.
Defined.

(** X5.  In every reachable state the grid has between 10 and 100 squares,
    each with between one and ten items; and the game is won exactly when
    no unsolved square is left, which is exactly when the grid is down to
    ten squares. *)
Theorem won_when_board_is_cleared puzzle st :
  wellFormed puzzle -> reachable puzzle st ->
  let gs := HookState.gameState st in
  10 <= length (GameState.grid gs) <= 100
  /\ (forall s, In s (GameState.grid gs) -> 1 <= length (GridSquare.items s) <= 10)
  /\ (GameState.status gs = won <-> getUnsolvedSquares (GameState.grid gs) = [])
  /\ (GameState.status gs = won <-> length (GameState.grid gs) = 10).
Proof.
  intros Hwf Hreach gs.
  pose proof (reachable_ContentInv puzzle st Hwf Hreach) as Hcontent.
  destruct (reachable_Inv puzzle st Hwf Hreach) as [Hgame _].
  fold gs in Hcontent, Hgame.
  pose proof (fun s => GameInv_square_size gs s Hgame) as Hsize.
  pose proof (inv_total _ Hgame) as Htotal.
  pose proof (solved_unsolved_partition (GameState.grid gs)) as HP.
  assert (Hsolved10 : forall s, In s (getSolvedSquares (GameState.grid gs)) ->
                        length (GridSquare.items s) = 10).
  { intros s Hs. apply getSolvedSquares_In in Hs as [Hs Hsolved].
    pose proof (inv_flag _ Hgame s Hs) as Hflag. rewrite Hsolved in Hflag.
    symmetry in Hflag. now apply Nat.eqb_eq in Hflag. }
  assert (Hcount : itemCount (getSolvedSquares (GameState.grid gs))
                   = 10 * length (GameState.solvedCategoryIds gs)).
  { rewrite <- (content_solved _ _ Hcontent), length_map.
    now apply itemCount_tens. }
  assert (Hboard : GameState.status gs = won
                   <-> getUnsolvedSquares (GameState.grid gs) = []).
  { rewrite (inv_won _ Hgame). split.
    - intros Hten.
      pose proof (itemCount_Permutation _ _ HP) as Hsum.
      rewrite itemCount_app, Hcount, Hten, Htotal in Hsum.
      pose proof (itemCount_at_least (getUnsolvedSquares (GameState.grid gs))) as Hle.
      destruct (getUnsolvedSquares (GameState.grid gs)) as [|u rest] eqn:Hu;
        [reflexivity|exfalso].
      assert (length (u :: rest) <= itemCount (u :: rest)).
      { apply Hle. intros s Hs. rewrite <- Hu in Hs.
        apply getUnsolvedSquares_In in Hs as [Hs _]. now apply Hsize. }
      simpl in *. lia.
    - intros Hnone. rewrite Hnone, app_nil_r in HP.
      pose proof (itemCount_Permutation _ _ HP) as Hsum.
      rewrite Hcount, Htotal in Hsum. lia. }
  split; [|split; [exact Hsize|split; [exact Hboard|]]].
  - pose proof (itemCount_at_least (GameState.grid gs)
                  (fun s Hs => proj1 (Hsize s Hs))).
    pose proof (itemCount_at_most (GameState.grid gs)
                  (fun s Hs => proj2 (Hsize s Hs))).
    lia.
  - rewrite Hboard. split.
    + intros Hnone. rewrite Hnone, app_nil_r in HP.
      rewrite (Permutation_length HP).
      pose proof (itemCount_Permutation _ _ HP) as Hsum.
      rewrite Hcount, Htotal in Hsum.
      rewrite <- (content_solved _ _ Hcontent), length_map in Hsum. lia.
    + intros Hten.
      assert (Hall : forall s, In s (GameState.grid gs) ->
                       length (GridSquare.items s) = 10).
      { apply itemCount_all_ten; [intros s Hs; now apply Hsize|]. lia. }
      destruct (getUnsolvedSquares (GameState.grid gs)) as [|u rest] eqn:Hu;
        [reflexivity|exfalso].
      assert (Hin : In u (getUnsolvedSquares (GameState.grid gs)))
        by (rewrite Hu; now left).
      apply getUnsolvedSquares_In in Hin as [Hin Hunsolved].
      rewrite (inv_flag _ Hgame u Hin), (Hall u Hin) in Hunsolved. discriminate.
Qed.

Lemma won_when_board_is_cleared_witness :
  let gs := HookState.gameState (play SAMPLE_PUZZLE keepOrder 0 solveAll) in
  GameState.status gs = won
  /\ getUnsolvedSquares (GameState.grid gs) = []
  /\ length (GameState.grid gs) = 10.
Proof.
  intros gs.
  destruct (won_when_board_is_cleared SAMPLE_PUZZLE
              (play SAMPLE_PUZZLE keepOrder 0 solveAll)
              SAMPLE_PUZZLE_wellFormed (play_reachable _ _ _ _))
    as (_ & _ & Hboard & Hten).
  fold gs in Hboard, Hten.
  assert (Hwon : GameState.status gs = won) by (vm_compute; reflexivity).
  split; [exact Hwon|]. split; [now apply Hboard|now apply Hten].
Defined.

(* ===================================================================== *)
(** ** A game being played can go on *)
(* ===================================================================== *)

Lemma categoryItemCount_only c u squares :
  NoDup (map GridSquare.id squares) -> In u squares ->
  (forall s, In s squares -> GridSquare.categoryId s = c -> s = u) ->
  GridSquare.categoryId u = c ->
  categoryItemCount c squares = length (GridSquare.items u).
Proof.
  induction squares as [|x rest IH]; simpl; intros Hnd Hu Honly Hc; [tauto|].
  inversion Hnd as [|? ? Hx Hrest]; subst. rewrite categoryItemCount_cons.
  destruct (String.eqb_spec (GridSquare.categoryId x) (GridSquare.categoryId u))
    as [Heq|Hne].
  - assert (x = u) by (apply Honly; auto). subst x.
    rewrite categoryItemCount_none; [lia|].
    intros s Hs Hcs. assert (s = u) by (apply Honly; auto). subst s.
    apply Hx. now apply in_map.
  - destruct Hu as [->|Hu]; [congruence|]. simpl. apply IH; auto.
Qed.

(** While squares are left unsolved, two of them belong together. *)
Lemma unsolved_pair puzzle gs u :
  GameInv gs -> ContentInv puzzle gs ->
  In u (GameState.grid gs) -> GridSquare.isSolved u = false ->
  exists v,
    In v (GameState.grid gs)
    /\ GridSquare.id v <> GridSquare.id u
    /\ GridSquare.categoryId v = GridSquare.categoryId u
    /\ GridSquare.isSolved v = false.
Proof.
  intros Hgame Hcontent Hu Hunsolved.
  destruct (find (fun s => (GridSquare.categoryId s =? GridSquare.categoryId u)
                           && negb (GridSquare.id s =? GridSquare.id u))
                 (GameState.grid gs)) as [v|] eqn:Hfind.
  - apply find_some in Hfind as [Hv Hcond].
    apply andb_prop in Hcond as [Hc Hid].
    apply String.eqb_eq in Hc. apply negb_true_iff, String.eqb_neq in Hid.
    exists v. repeat split; try assumption.
    apply (same_category_unsolved (GridSquare.id u) (GridSquare.id v) u v gs);
      auto using getSquareById_In, inv_ids.
  - exfalso.
    destruct (content_category _ _ Hcontent u Hu) as (category & Hcat & Hid & _).
    pose proof (content_full _ _ Hcontent category Hcat) as Hfull.
    rewrite Hid in Hfull.
    rewrite (categoryItemCount_only _ u) in Hfull;
      auto using inv_ids.
    + pose proof (inv_flag _ Hgame u Hu) as Hflag.
      rewrite Hunsolved, Hfull in Hflag. discriminate.
    + intros s Hs Hc.
      pose proof (find_none _ _ Hfind s Hs) as Hcond. simpl in Hcond.
      rewrite Hc, String.eqb_refl in Hcond. simpl in Hcond.
      apply negb_false_iff, String.eqb_eq in Hcond.
      pose proof (getSquareById_In _ s (inv_ids _ Hgame) Hs) as Hfs.
      pose proof (getSquareById_In _ u (inv_ids _ Hgame) Hu) as Hfu.
      congruence.
Qed.

(** X6.  A game being played is never stuck: in every reachable state
    with status [playing] the grid has two different unsolved squares of
    one category, and selecting one and then the other, from an empty
    selection, merges them: the result is a success and the grid is one
    square shorter. *)
Theorem merge_always_available puzzle st now :
  wellFormed puzzle -> reachable puzzle st ->
  GameState.status (HookState.gameState st) = playing ->
  exists squareA squareB,
    In squareA (GameState.grid (HookState.gameState st))
    /\ In squareB (GameState.grid (HookState.gameState st))
    /\ GridSquare.id squareA <> GridSquare.id squareB
    /\ GridSquare.categoryId squareA = GridSquare.categoryId squareB
    /\ GridSquare.isSolved squareA = false
    /\ GridSquare.isSolved squareB = false
    /\ let st' := selectSquare puzzle now (GridSquare.id squareB)
                    (selectSquare puzzle now (GridSquare.id squareA)
                       (clearSelection st)) in
       length (GameState.grid (HookState.gameState st')) + 1
       = length (GameState.grid (HookState.gameState st))
       /\ exists solvedCategory,
            HookState.lastMergeResult st'
            = Some (MergeSuccess (mergeSquares squareA squareB) solvedCategory).
Proof.
  intros Hwf Hreach Hplaying.
  pose proof (reachable_ContentInv puzzle st Hwf Hreach) as Hcontent.
  destruct (reachable_Inv puzzle st Hwf Hreach) as [Hgame _].
  set (gs := HookState.gameState st) in *.
  assert (Hsome : exists u, In u (GameState.grid gs) /\ GridSquare.isSolved u = false).
  { destruct (getUnsolvedSquares (GameState.grid gs)) as [|u rest] eqn:Hu.
    - exfalso.
      pose proof (solved_unsolved_partition (GameState.grid gs)) as HP.
      rewrite Hu, app_nil_r in HP.
      pose proof (itemCount_Permutation _ _ HP) as Hsum.
      rewrite (inv_total _ Hgame), itemCount_tens in Hsum.
      + rewrite <- (length_map GridSquare.categoryId),
          (content_solved _ _ Hcontent) in Hsum.
        assert (Hten : length (GameState.solvedCategoryIds gs) = 10) by lia.
        apply (inv_won _ Hgame) in Hten. congruence.
      + intros s Hs. apply getSolvedSquares_In in Hs as [Hs Hsolved].
        pose proof (inv_flag _ Hgame s Hs) as Hflag. rewrite Hsolved in Hflag.
        symmetry in Hflag. now apply Nat.eqb_eq in Hflag.
    - exists u. apply getUnsolvedSquares_In. rewrite Hu. now left. }
  destruct Hsome as (u & Hu & HunU).
  destruct (unsolved_pair puzzle gs u Hgame Hcontent Hu HunU)
    as (v & Hv & Hid & Hc & HunV).
  exists u, v.
  pose proof (getSquareById_In _ u (inv_ids _ Hgame) Hu) as HfindU.
  pose proof (getSquareById_In _ v (inv_ids _ Hgame) Hv) as HfindV.
  assert (Hne : GridSquare.id u <> GridSquare.id v) by congruence.
  assert (Hfirst : selectSquare puzzle now (GridSquare.id u) (clearSelection st)
                   = HookState.mk gs [GridSquare.id u] None []).
  { unfold selectSquare.
    now rewrite (selectSquareTraced_first _ _ _ u). }
  assert (Hsecond :
            selectSquare puzzle now (GridSquare.id v)
              (HookState.mk gs [GridSquare.id u] None [])
            = HookState.mk
                (applyMerge now (GridSquare.id u) (GridSquare.id v)
                   (mergeSquares u v) gs)
                []
                (Some (MergeSuccess (mergeSquares u v)
                         (if GridSquare.isSolved (mergeSquares u v)
                          then getCategoryById puzzle (GridSquare.categoryId u)
                          else None)))
                []).
  { unfold selectSquare.
    rewrite (selectSquareTraced_second _ _ (GridSquare.id u) _ v)
      by (simpl; auto).
    cbn [HookState.gameState].
    rewrite (attemptMerge_found _ _ _ _ u v) by assumption.
    now rewrite <- Hc, String.eqb_refl. }
  split; [exact Hu|]. split; [exact Hv|]. split; [exact Hne|].
  split; [now symmetry|]. split; [exact HunU|]. split; [exact HunV|].
  cbv zeta. rewrite Hfirst, Hsecond.
  cbn [HookState.gameState HookState.lastMergeResult].
  rewrite merge_grid. split; [|eexists; reflexivity].
  rewrite (Permutation_length (merge_split _ _ u v gs Hgame Hne HfindU HfindV)).
  rewrite length_app. simpl. lia.
Qed.

Lemma merge_always_available_witness :
  let st := play SAMPLE_PUZZLE (fun i => i + 3) 0
              (solveCategory "cat-pasta" ++ [SelectSquare 1 "cat-dogs-2"]) in
  exists squareA squareB,
    In squareA (GameState.grid (HookState.gameState st))
    /\ In squareB (GameState.grid (HookState.gameState st))
    /\ GridSquare.id squareA <> GridSquare.id squareB
    /\ GridSquare.categoryId squareA = GridSquare.categoryId squareB.
Proof.
  intros st.
  destruct (merge_always_available SAMPLE_PUZZLE st 5 SAMPLE_PUZZLE_wellFormed
              (play_reachable _ _ _ _)) as (a & b & Ha & Hb & Hne & Hc & _).
  - vm_compute; reflexivity.
  - exists a, b. exact (conj Ha (conj Hb (conj Hne Hc))).
Defined.

(* ===================================================================== *)
(** ** Selection and feedback markers *)
(* ===================================================================== *)

(** X7.  In every reachable state at most one square is selected (the
    second selection is consumed by the merge attempt at once), the
    selected id refers to an unsolved square of the grid, and nothing is
    selected once the game is won. *)
Theorem selection_holds_one_unsolved_square puzzle st :
  wellFormed puzzle -> reachable puzzle st ->
  length (HookState.selectedSquareIds st) <= 1
  /\ (forall squareId, isSquareSelected st squareId = true ->
        HookState.selectedSquareIds st = [squareId]
        /\ GameState.status (HookState.gameState st) = playing
        /\ exists square,
             getSquareById (GameState.grid (HookState.gameState st)) squareId
             = Some square
             /\ GridSquare.isSolved square = false)
  /\ (GameState.status (HookState.gameState st) = won ->
      HookState.selectedSquareIds st = []).
Proof.
  intros Hwf Hreach.
  destruct (reachable_Inv puzzle st Hwf Hreach) as [_ Hsel].
  unfold isSquareSelected.
  destruct Hsel as [Hempty|(a & square & Hone & Hfind & Hunsolved & Hplaying)].
  - rewrite Hempty. simpl. split; [lia|]. split; [discriminate|reflexivity].
  - rewrite Hone. split; [simpl; lia|]. split; [|congruence].
    intros squareId Hsq. rewrite includes_single in Hsq.
    apply String.eqb_eq in Hsq. subst squareId. eauto.
Qed.

Lemma selection_holds_one_unsolved_square_witness :
  let st := play SAMPLE_PUZZLE keepOrder 0
              [SelectSquare 1 "cat-dogs-1"; SelectSquare 2 "cat-dogs-2";
               SelectSquare 3 "cat-pasta-5"] in
  isSquareSelected st "cat-pasta-5" = true
  /\ HookState.selectedSquareIds st = ["cat-pasta-5"].
Proof.
  intros st.
  destruct (selection_holds_one_unsolved_square SAMPLE_PUZZLE st
              SAMPLE_PUZZLE_wellFormed (play_reachable _ _ _ _)) as (_ & Hsel & _).
  assert (H : isSquareSelected st "cat-pasta-5" = true) by (vm_compute; reflexivity).
  split; [exact H|]. exact (proj1 (Hsel "cat-pasta-5" H)).
Defined.

Lemma reachable_FeedbackInv puzzle st :
  wellFormed puzzle -> reachable puzzle st -> FeedbackInv puzzle st.
Proof.
  intros Hwf. induction 1 as [rnd now|st a Hreach IH].
  - split; [now left|discriminate].
  - destruct (reachable_Inv puzzle st Hwf Hreach) as [_ Hsel].
    destruct a as [now squareId|rnd now| |]; simpl.
    + unfold selectSquare.
      destruct (selectSquareTraced_cases puzzle now squareId st Hsel)
        as [H|[H|[H|(first & squareA & squareB & _ & Hne & _ & HA & _ & HB & _ & H)]]];
        rewrite H; simpl; try assumption;
        try (split; [now left|discriminate]).
      rewrite (attemptMerge_found _ _ _ _ squareA squareB) by assumption.
      destruct (GridSquare.categoryId squareA =? GridSquare.categoryId squareB);
        simpl.
      * split; [now left|]. intros m c Hresult. injection Hresult as <- <-.
        repeat split. apply in_or_app. right. now left.
      * split; [|discriminate]. right. exists first, squareId. auto.
    + split; [now left|discriminate].
    + split; [now left|discriminate].
    + destruct IH as [_ Hsuccess]. split; [now left|exact Hsuccess].
Qed.

(** X8.  In every reachable state the feedback markers agree with the game
    state: squares shake only after a failed attempt, and then they are
    the two different squares of that attempt, the result is the failure,
    and nothing is selected; and a successful result carries a square that
    is on the grid, together with its category exactly when that square is
    solved. *)
Theorem feedback_markers_agree puzzle st :
  wellFormed puzzle -> reachable puzzle st ->
  (HookState.shakingSquareIds st <> [] ->
   exists first second,
     HookState.shakingSquareIds st = [first; second]
     /\ first <> second
     /\ HookState.lastMergeResult st = Some (MergeFailure different_categories)
     /\ HookState.selectedSquareIds st = [])
  /\ (forall mergedSquare solvedCategory,
        HookState.lastMergeResult st = Some (MergeSuccess mergedSquare solvedCategory) ->
        In mergedSquare (GameState.grid (HookState.gameState st))
        /\ HookState.shakingSquareIds st = []
        /\ (solvedCategory = None <-> GridSquare.isSolved mergedSquare = false)
        /\ forall category, solvedCategory = Some category ->
             Category.id category = GridSquare.categoryId mergedSquare
             /\ Permutation (GridSquare.items mergedSquare) (Category.items category)).
Proof.
  intros Hwf Hreach.
  destruct (reachable_FeedbackInv puzzle st Hwf Hreach) as [Hshake Hsuccess].
  split.
  - intros Hsome. destruct Hshake as [Hnone|Hpair]; [congruence|exact Hpair].
  - intros m c Hresult. destruct (Hsuccess m c Hresult) as (Hin & Hc & _).
    split; [exact Hin|]. split.
    { destruct Hshake as [Hnone|(a & b & _ & _ & Hfail & _)]; [exact Hnone|congruence]. }
    destruct (GridSquare.isSolved m) eqn:Hsolved.
    + assert (Hm : In m (getSolvedSquares (GameState.grid (HookState.gameState st))))
        by now apply getSolvedSquares_In.
      destruct (solved_squares_category puzzle st m Hwf Hreach Hm)
        as (category & Hcat & Hid & HP).
      rewrite Hcat in Hc. subst c. split; [split; discriminate|].
      intros category' Heq. injection Heq as <-. auto.
    + subst c. split; [tauto|discriminate].
Qed.

Lemma feedback_markers_agree_witness :
  let st := play SAMPLE_PUZZLE keepOrder 0
              [SelectSquare 1 "cat-dogs-1"; SelectSquare 2 "cat-pasta-2"] in
  exists first second,
    HookState.shakingSquareIds st = [first; second]
    /\ first <> second
    /\ HookState.lastMergeResult st = Some (MergeFailure different_categories)
    /\ HookState.selectedSquareIds st = [].
Proof.
  intros st.
  destruct (feedback_markers_agree SAMPLE_PUZZLE st SAMPLE_PUZZLE_wellFormed
              (play_reachable _ _ _ _)) as [Hshake _].
  apply Hshake. vm_compute. discriminate.
Defined.

(* ===================================================================== *)
(** ** The two outcomes of a merge attempt *)
(* ===================================================================== *)

(** X9.  In a reachable state whose selection is the square A, selecting
    an unsolved square B of another category is a failed merge: the result
    is [different-categories], exactly one mistake is counted, both ids are
    marked to shake, the selection is cleared, and the grid, the solved
    categories, the status and the timestamps stay as they were. *)
Theorem different_categories_rejected puzzle now a b squareA squareB st :
  wellFormed puzzle -> reachable puzzle st ->
  HookState.selectedSquareIds st = [a] ->
  getSquareById (GameState.grid (HookState.gameState st)) a = Some squareA ->
  getSquareById (GameState.grid (HookState.gameState st)) b = Some squareB ->
  GridSquare.isSolved squareB = false ->
  GridSquare.categoryId squareA <> GridSquare.categoryId squareB ->
  let gs := HookState.gameState st in
  selectSquare puzzle now b st
  = HookState.mk
      (GameState.mk (GameState.puzzleId gs) (GameState.grid gs)
         (GameState.mistakes gs + 1) (GameState.solvedCategoryIds gs)
         (GameState.status gs) (GameState.startTime gs) (GameState.endTime gs))
      [] (Some (MergeFailure different_categories)) [a; b].
Proof.
  intros Hwf Hreach Hsel HA HB HunB Hc gs.
  destruct (reachable_Inv puzzle st Hwf Hreach) as [_ Hselinv].
  assert (Hplaying : GameState.status (HookState.gameState st) = playing).
  { destruct Hselinv as [Hempty|(c & sq0 & _ & _ & _ & Hplaying)];
      [congruence|assumption]. }
  assert (Hne : a <> b) by (intros ->; congruence).
  unfold selectSquare.
  rewrite (selectSquareTraced_second _ _ a _ squareB) by assumption.
  rewrite (attemptMerge_found _ _ _ _ squareA squareB) by assumption.
  destruct (String.eqb_spec (GridSquare.categoryId squareA)
                            (GridSquare.categoryId squareB)); [contradiction|].
  reflexivity.
Qed.

Lemma different_categories_rejected_witness :
  let st := play SAMPLE_PUZZLE keepOrder 0 [SelectSquare 1 "cat-fruits-0"] in
  let st' := selectSquare SAMPLE_PUZZLE 2 "cat-countries-0" st in
  GameState.mistakes (HookState.gameState st') = 1
  /\ GameState.grid (HookState.gameState st') = GameState.grid (HookState.gameState st)
  /\ HookState.shakingSquareIds st' = ["cat-fruits-0"; "cat-countries-0"].
Proof.
  intros st st'. unfold st'.
  rewrite (different_categories_rejected SAMPLE_PUZZLE 2
             "cat-fruits-0" "cat-countries-0"
             (GridSquare.mk "cat-fruits-0" ["Apple"] "cat-fruits" false)
             (GridSquare.mk "cat-countries-0" ["France"] "cat-countries" false) st).
  - repeat split.
  - exact SAMPLE_PUZZLE_wellFormed.
  - apply play_reachable.
  - reflexivity.
  - vm_compute; reflexivity.
  - vm_compute; reflexivity.
  - reflexivity.
  - discriminate.
Defined.

(** X10.  In a reachable state whose selection is the square A, selecting
    a different square B of A's category that brings the item count to ten
    solves the category: the category id is appended to
    [solvedCategoryIds], the result carries the category the puzzle has
    under that id, the merged square holds precisely that category's
    items, and the game is won, with [endTime] set to the time of the
    merge, exactly when nine categories had been solved before. *)
Theorem completing_a_category puzzle now a b squareA squareB st :
  wellFormed puzzle -> reachable puzzle st ->
  HookState.selectedSquareIds st = [a] ->
  getSquareById (GameState.grid (HookState.gameState st)) a = Some squareA ->
  getSquareById (GameState.grid (HookState.gameState st)) b = Some squareB ->
  a <> b ->
  GridSquare.categoryId squareA = GridSquare.categoryId squareB ->
  length (GridSquare.items squareA) + length (GridSquare.items squareB) = 10 ->
  let gs := HookState.gameState st in
  let st' := selectSquare puzzle now b st in
  let gs' := HookState.gameState st' in
  exists category,
    In category (Puzzle.categories puzzle)
    /\ Category.id category = GridSquare.categoryId squareA
    /\ HookState.lastMergeResult st'
       = Some (MergeSuccess (mergeSquares squareA squareB) (Some category))
    /\ Permutation (GridSquare.items squareA ++ GridSquare.items squareB)
                   (Category.items category)
    /\ GameState.solvedCategoryIds gs'
       = GameState.solvedCategoryIds gs ++ [GridSquare.categoryId squareA]
    /\ (GameState.status gs' = won <-> length (GameState.solvedCategoryIds gs) = 9)
    /\ (GameState.status gs' = won -> GameState.endTime gs' = Some now).
Proof.
  intros Hwf Hreach Hsel HA HB Hne Hc Hten gs st' gs'.
  destruct (reachable_Inv puzzle st Hwf Hreach) as [Hgame Hselinv].
  assert (Hplaying : GameState.status gs = playing
                     /\ GridSquare.isSolved squareA = false).
  { destruct Hselinv as [Hempty|(c & sq0 & Hone & Hfind & Hun & Hplaying)];
      [congruence|].
    split; [assumption|]. unfold gs in *. congruence. }
  destruct Hplaying as [Hplaying HunA].
  pose proof (same_category_unsolved a b squareA squareB _ Hgame Hne HA HB Hc)
    as HunB.
  assert (Hsolved : GridSquare.isSolved (mergeSquares squareA squareB) = true)
    by (simpl; now apply Nat.eqb_eq).
  assert (Hst' : st' = HookState.mk
                   (applyMerge now a b (mergeSquares squareA squareB) gs) []
                   (Some (MergeSuccess (mergeSquares squareA squareB)
                            (getCategoryById puzzle (GridSquare.categoryId squareA))))
                   []).
  { unfold st', selectSquare.
    rewrite (selectSquareTraced_second _ _ a _ squareB) by assumption.
    rewrite (attemptMerge_found _ _ _ _ squareA squareB) by assumption.
    destruct (String.eqb_spec (GridSquare.categoryId squareA)
                              (GridSquare.categoryId squareB)); [|contradiction].
    now rewrite Hsolved. }
  assert (Hreach' : reachable puzzle st').
  { unfold st'. exact (reachable_perform puzzle st (SelectSquare now b) Hreach). }
  assert (Hin : In (mergeSquares squareA squareB)
                   (getSolvedSquares (GameState.grid (HookState.gameState st')))).
  { apply getSolvedSquares_In. split; [|assumption].
    rewrite Hst'. cbn [HookState.gameState]. rewrite merge_grid.
    apply in_or_app. right. now left. }
  destruct (solved_squares_category puzzle st' _ Hwf Hreach' Hin)
    as (category & Hcat & Hid & HP).
  exists category. simpl in Hcat, Hid, HP.
  assert (Hmember : In category (Puzzle.categories puzzle)).
  { unfold getCategoryById in Hcat. now apply find_some in Hcat. }
  split; [exact Hmember|]. split; [exact Hid|].
  unfold gs'. rewrite Hst'. cbn [HookState.gameState HookState.lastMergeResult].
  split; [now rewrite Hcat|]. split; [exact HP|].
  unfold applyMerge. rewrite Hsolved.
  cbn [GameState.solvedCategoryIds GameState.status GameState.endTime
       GridSquare.categoryId mergeSquares].
  split; [reflexivity|].
  rewrite length_app. simpl length.
  destruct (Nat.eqb_spec (length (GameState.solvedCategoryIds gs) + 1) 10).
  - split; [split; [intros _; lia|reflexivity]|reflexivity].
  - split; [split; [discriminate|intros; lia]|discriminate].
Qed.

Lemma completing_a_category_witness :
  let st := play SAMPLE_PUZZLE keepOrder 0
              (removelast (solveCategory "cat-gemstones")) in
  let st' := selectSquare SAMPLE_PUZZLE 7 "cat-gemstones-9" st in
  exists category,
    HookState.lastMergeResult st'
    = Some (MergeSuccess
              (GridSquare.mk "cat-gemstones-0" (Category.items gemstones)
                 "cat-gemstones" true)
              (Some category))
    /\ GameState.solvedCategoryIds (HookState.gameState st') = ["cat-gemstones"].
Proof.
  intros st st'.
  destruct (completing_a_category SAMPLE_PUZZLE 7 "cat-gemstones-0" "cat-gemstones-9"
              (GridSquare.mk "cat-gemstones-0" (removelast (Category.items gemstones))
                 "cat-gemstones" false)
              (GridSquare.mk "cat-gemstones-9" ["Garnet"] "cat-gemstones" false) st)
    as (category & _ & _ & Hresult & _ & Hsolved & _).
  - exact SAMPLE_PUZZLE_wellFormed.
  - apply play_reachable.
  - vm_compute; reflexivity.
  - vm_compute; reflexivity.
  - vm_compute; reflexivity.
  - discriminate.
  - reflexivity.
  - reflexivity.
  - exists category. split; [exact Hresult|exact Hsolved].
Defined.

(* ===================================================================== *)
(** ** Row packing: the rows as a whole *)
(* ===================================================================== *)

(** X11.  The rows [packIntoRows] returns, read one after the other, are
    the input squares sorted by descending item count, squares of equal
    count keeping their input order: every input square is in exactly one
    row. *)
Theorem packIntoRows_places_every_square squares :
  let placed := flat_map LayoutRow.squares (packIntoRows squares) in
  placed = sort bySizeDescending squares
  /\ Permutation squares placed
  /\ descending placed
  /\ forall n,
       filter (fun s => length (GridSquare.items s) =? n)%nat placed
       = filter (fun s => length (GridSquare.items s) =? n)%nat squares.
Proof.
  intros placed. unfold placed. rewrite packIntoRows_squares.
  split; [reflexivity|]. split; [apply sort_Permutation|].
  split; [apply sort_descending|]. intros n. apply sort_stable.
Qed.

Lemma closedBy_hd row next next' :
  hd_error (LayoutRow.squares next') = hd_error (LayoutRow.squares next) ->
  closedBy row next -> closedBy row next'.
Proof.
  unfold closedBy.
  destruct (LayoutRow.squares next), (LayoutRow.squares next'); simpl;
    intros Heq; try discriminate; try tauto.
  now injection Heq as ->.
Qed.

Lemma greedy_snoc rows row next :
  greedy (rows ++ [row]) -> closedBy row next -> greedy (rows ++ [row; next]).
Proof.
  induction rows as [|x rest IH]; simpl; intros Hg Hc; [auto|].
  destruct rest as [|y rest']; simpl in *.
  - tauto.
  - destruct Hg as [Hxy Hg]. split; [assumption|]. now apply IH.
Qed.

Lemma greedy_last rows row row' :
  hd_error (LayoutRow.squares row') = hd_error (LayoutRow.squares row) ->
  greedy (rows ++ [row]) -> greedy (rows ++ [row']).
Proof.
  intros Hhd. induction rows as [|x rest IH]; simpl; intros Hg; [exact I|].
  destruct rest as [|y rest']; simpl in *.
  - destruct Hg as [Hc _]. split; [|exact I]. now apply (closedBy_hd x row).
  - destruct Hg as [Hxy Hg]. split; [assumption|]. now apply IH.
Qed.

Lemma greedy_tail row rows : greedy (row :: rows) -> greedy rows.
Proof. destruct rows; simpl; [trivial|tauto]. Qed.

Lemma packSquare_greedy acc square :
  (Packing.currentSquares acc = [] -> Packing.rows acc = []) ->
  (Packing.currentSquares acc <> [] ->
   greedy (Packing.rows acc
           ++ [LayoutRow.mk (Packing.currentSquares acc) (Packing.currentTotal acc)])) ->
  let acc' := packSquare acc square in
  Packing.currentSquares acc' <> []
  /\ greedy (Packing.rows acc'
             ++ [LayoutRow.mk (Packing.currentSquares acc') (Packing.currentTotal acc')]).
Proof.
  intros Hempty Hsome. unfold packSquare.
  destruct (Nat.ltb_spec 0 (length (Packing.currentSquares acc))) as [Hlen|Hlen].
  - assert (Hne : Packing.currentSquares acc <> [])
      by (intros H; rewrite H in Hlen; simpl in Hlen; lia).
    rewrite andb_true_r.
    destruct (_ || _) eqn:Hclose; simpl.
    + split; [discriminate|]. rewrite <- app_assoc. simpl.
      apply greedy_snoc; [now apply Hsome|].
      unfold closedBy. simpl. apply orb_prop in Hclose as [H|H].
      * right. now apply Nat.ltb_lt in H.
      * left. now apply Nat.leb_le in H.
    + split; [now destruct (Packing.currentSquares acc)|].
      apply (greedy_last _ (LayoutRow.mk (Packing.currentSquares acc)
                              (Packing.currentTotal acc))); [|now apply Hsome].
      simpl. now destruct (Packing.currentSquares acc).
  - assert (Hnil : Packing.currentSquares acc = [])
      by (destruct (Packing.currentSquares acc); [reflexivity|simpl in Hlen; lia]).
    rewrite andb_false_r. simpl. rewrite Hnil, (Hempty Hnil). simpl.
    split; [discriminate|exact I].
Qed.

Lemma packLoop_greedy sorted acc :
  (Packing.currentSquares acc = [] -> Packing.rows acc = []) ->
  (Packing.currentSquares acc <> [] ->
   greedy (Packing.rows acc
           ++ [LayoutRow.mk (Packing.currentSquares acc) (Packing.currentTotal acc)])) ->
  greedy (closeLastRow (fold_left packSquare sorted acc)).
Proof.
  revert acc; induction sorted as [|square rest IH]; intros acc Hempty Hsome; simpl.
  - unfold closeLastRow.
    destruct (Nat.ltb_spec 0 (length (Packing.currentSquares acc))) as [Hlen|Hlen].
    + apply Hsome. intros H. rewrite H in Hlen. simpl in Hlen. lia.
    + rewrite Hempty; [exact I|].
      destruct (Packing.currentSquares acc); [reflexivity|simpl in Hlen; lia].
  - destruct (packSquare_greedy acc square Hempty Hsome) as [Hne Hg].
    apply IH; [intros H; contradiction|intros _; exact Hg].
Qed.

(** X12.  The rows are closed by the greedy rule and by nothing else:
    wherever one row follows another, the square that opens the later row
    arrived when the earlier row already held at least five items, or
    would have taken it past ten. *)
Theorem packIntoRows_closes_rows_greedily squares :
  greedy (packIntoRows squares)
  /\ forall k row next square,
       nth_error (packIntoRows squares) k = Some row ->
       nth_error (packIntoRows squares) (S k) = Some next ->
       hd_error (LayoutRow.squares next) = Some square ->
       5 <= LayoutRow.totalItems row
       \/ 10 < LayoutRow.totalItems row + length (GridSquare.items square).
Proof.
  assert (Hg : greedy (packIntoRows squares)).
  { unfold packIntoRows. destruct (length squares =? 0)%nat; [exact I|].
    apply packLoop_greedy; simpl; [reflexivity|congruence]. }
  split; [exact Hg|].
  generalize dependent (packIntoRows squares). intros rows.
  induction rows as [|r rest IH]; intros Hg k row next square Hk Hsk Hhd.
  - now destruct k.
  - destruct k as [|k]; simpl in Hk, Hsk.
    + injection Hk as ->. destruct rest as [|n rest']; [discriminate|].
      simpl in Hsk. injection Hsk as ->. destruct Hg as [Hc _].
      unfold closedBy in Hc. destruct (LayoutRow.squares next); [tauto|].
      simpl in Hhd. injection Hhd as ->. exact Hc.
    + apply (IH (greedy_tail _ _ Hg) k row next square); assumption.
Qed.

Lemma packIntoRows_closes_rows_greedily_witness :
  5 <= 9 \/ 10 < 9 + length (GridSquare.items
                               (GridSquare.mk "cat-fruits-0" ["Apple"] "cat-fruits" false)).
Proof.
  apply (proj2 (packIntoRows_closes_rows_greedily nineAndSingles) 0
           (LayoutRow.mk [hd (GridSquare.mk "" [] "" false) nineAndSingles] 9)
           (LayoutRow.mk (pushItems "cat-fruits" 0 (firstn 5 (Category.items fruits))) 5)).
  - reflexivity.
  - reflexivity.
  - reflexivity.
Defined.

(** With single squares only, the sort changes nothing. *)
Lemma filter_all {T} (f : T -> bool) l :
  (forall x, In x l -> f x = true) -> filter f l = l.
Proof.
  induction l as [|x rest IH]; simpl; intros H; [reflexivity|].
  rewrite (H x) by now left. f_equal. apply IH. intros y Hy. apply H. now right.
Qed.

Lemma sort_singles squares :
  (forall s, In s squares -> length (GridSquare.items s) = 1) ->
  sort bySizeDescending squares = squares.
Proof.
  intros H.
  rewrite <- (filter_all (fun s => length (GridSquare.items s) =? 1)%nat
                (sort bySizeDescending squares)).
  - rewrite sort_stable. apply filter_all.
    intros s Hs. apply Nat.eqb_eq. now apply H.
  - intros s Hs. apply Nat.eqb_eq. apply H.
    now apply (Permutation_in _
                 (Permutation_sym (sort_Permutation bySizeDescending squares))).
Qed.

Lemma packSquare_single acc square :
  length (GridSquare.items square) = 1 ->
  1 <= Packing.currentTotal acc <= 5 ->
  Packing.currentSquares acc <> [] ->
  packSquare acc square
  = if (Packing.currentTotal acc =? 5)%nat
    then Packing.mk
           (Packing.rows acc
            ++ [LayoutRow.mk (Packing.currentSquares acc) (Packing.currentTotal acc)])
           [square] 1
    else Packing.mk (Packing.rows acc) (Packing.currentSquares acc ++ [square])
           (Packing.currentTotal acc + 1).
Proof.
  intros Hone Htotal Hne. unfold packSquare. rewrite Hone.
  assert (H1 : (MAX_ITEMS_PER_ROW <? Packing.currentTotal acc + 1)%nat = false)
    by (apply Nat.ltb_ge; unfold MAX_ITEMS_PER_ROW; lia).
  assert (H2 : (0 <? length (Packing.currentSquares acc))%nat = true)
    by (apply Nat.ltb_lt; destruct (Packing.currentSquares acc);
        [congruence|simpl; lia]).
  assert (H3 : (TARGET_ITEMS_PER_ROW <=? Packing.currentTotal acc)%nat
               = (Packing.currentTotal acc =? 5)%nat).
  { unfold TARGET_ITEMS_PER_ROW.
    destruct (Nat.leb_spec 5 (Packing.currentTotal acc));
      destruct (Nat.eqb_spec (Packing.currentTotal acc) 5); try lia; reflexivity. }
  rewrite H1, H2, H3, andb_true_r. reflexivity.
Qed.

Lemma packLoop_singles squares :
  squares <> [] ->
  (forall s, In s squares -> length (GridSquare.items s) = 1) ->
  let acc := fold_left packSquare squares (Packing.mk [] [] 0) in
  map LayoutRow.totalItems (Packing.rows acc) = repeat 5 ((length squares - 1) / 5)
  /\ Forall (fun row => length (LayoutRow.squares row) = 5) (Packing.rows acc)
  /\ Packing.currentTotal acc = (length squares - 1) mod 5 + 1
  /\ length (Packing.currentSquares acc) = Packing.currentTotal acc.
Proof.
  induction squares as [|x rest IH] using rev_ind; [congruence|].
  intros _ Hones. rewrite fold_left_app. cbn [fold_left].
  assert (Hx : length (GridSquare.items x) = 1)
    by (apply Hones, in_or_app; right; now left).
  destruct rest as [|y rest'].
  - unfold packSquare. rewrite Hx. cbv. repeat split. constructor.
  - assert (Hne : y :: rest' <> []) by discriminate.
    assert (Hrest : forall s, In s (y :: rest') -> length (GridSquare.items s) = 1)
      by (intros s Hs; apply Hones, in_or_app; now left).
    destruct (IH Hne Hrest) as (Hrows & Hfive & Htotal & Hlen).
    set (acc := fold_left packSquare (y :: rest') (Packing.mk [] [] 0)) in *.
    rewrite length_app. cbn [length] in *.
    pose proof (Nat.div_mod_eq (S (length rest') - 1) 5) as Hdiv.
    pose proof (Nat.mod_upper_bound (S (length rest') - 1) 5) as Hmod.
    pose proof (Nat.div_mod_eq (S (length rest') + 1 - 1) 5) as Hdiv'.
    pose proof (Nat.mod_upper_bound (S (length rest') + 1 - 1) 5) as Hmod'.
    rewrite packSquare_single; try assumption.
    + destruct (Nat.eqb_spec (Packing.currentTotal acc) 5) as [Hfull|Hopen];
        cbn [Packing.rows Packing.currentSquares Packing.currentTotal].
      * rewrite map_app, Hrows. cbn [map LayoutRow.totalItems]. rewrite Hfull.
        rewrite <- repeat_cons.
        replace ((S (length rest') + 1 - 1) / 5)
          with (S ((S (length rest') - 1) / 5)) by lia.
        repeat split.
        -- apply Forall_app. split; [assumption|].
           constructor; [cbn [LayoutRow.squares]; lia|constructor].
        -- lia.
      * rewrite Hrows, length_app. cbn [length]. repeat split.
        -- f_equal. lia.
        -- assumption.
        -- lia.
        -- lia.
    + lia.
    + intros Hnil. rewrite Hnil in Hlen. simpl in Hlen. lia.
Qed.

Lemma packIntoRows_singles_rows squares :
  squares <> [] ->
  (forall s, In s squares -> length (GridSquare.items s) = 1) ->
  let n := length squares in
  map LayoutRow.totalItems (packIntoRows squares)
  = repeat 5 ((n - 1) / 5) ++ [(n - 1) mod 5 + 1]
  /\ getTotalRows squares = (n - 1) / 5 + 1
  /\ flat_map LayoutRow.squares (packIntoRows squares) = squares
  /\ forall row, In row (packIntoRows squares) ->
       length (LayoutRow.squares row) = LayoutRow.totalItems row.
Proof.
  intros Hne Hones n.
  destruct (packLoop_singles squares Hne Hones) as (Hrows & Hfive & Htotal & Hlen).
  assert (Hpack : packIntoRows squares
                  = closeLastRow (fold_left packSquare squares (Packing.mk [] [] 0))).
  { unfold packIntoRows. rewrite sort_singles by assumption.
    destruct squares; [congruence|reflexivity]. }
  assert (Hclose : closeLastRow (fold_left packSquare squares (Packing.mk [] [] 0))
                   = Packing.rows (fold_left packSquare squares (Packing.mk [] [] 0))
                     ++ [LayoutRow.mk
                           (Packing.currentSquares
                              (fold_left packSquare squares (Packing.mk [] [] 0)))
                           (Packing.currentTotal
                              (fold_left packSquare squares (Packing.mk [] [] 0)))]).
  { unfold closeLastRow. rewrite Hlen, Htotal.
    destruct (Nat.ltb_spec 0 ((length squares - 1) mod 5 + 1)); [reflexivity|lia]. }
  assert (Htotals : map LayoutRow.totalItems (packIntoRows squares)
                    = repeat 5 ((n - 1) / 5) ++ [(n - 1) mod 5 + 1]).
  { rewrite Hpack, Hclose, map_app, Hrows. simpl. now rewrite Htotal. }
  split; [exact Htotals|]. split; [|split].
  - unfold getTotalRows.
    rewrite <- (length_map LayoutRow.totalItems), Htotals, length_app, repeat_length.
    reflexivity.
  - rewrite packIntoRows_squares. now apply sort_singles.
  - intros row Hrow. rewrite Hpack, Hclose in Hrow.
    apply in_app_or in Hrow as [Hrow|[<-|[]]].
    + rewrite Forall_forall in Hfive. rewrite (Hfive row Hrow).
      assert (Hin : In (LayoutRow.totalItems row)
                       (map LayoutRow.totalItems
                          (Packing.rows (fold_left packSquare squares
                                           (Packing.mk [] [] 0)))))
        by now apply in_map.
      rewrite Hrows in Hin. now apply repeat_spec in Hin.
    + simpl. exact Hlen.
Qed.

(** X13.  A non-empty list of single squares is packed, in its own order,
    into rows of five, the last row taking what is left: all rows but the
    last hold exactly five squares, the last between one and five, and the
    rows number [(n - 1) / 5 + 1]. *)
Theorem packIntoRows_single_squares squares :
  squares <> [] ->
  (forall s, In s squares -> length (GridSquare.items s) = 1) ->
  let n := length squares in
  map LayoutRow.totalItems (packIntoRows squares)
  = repeat 5 ((n - 1) / 5) ++ [(n - 1) mod 5 + 1]
  /\ getTotalRows squares = (n - 1) / 5 + 1
  /\ flat_map LayoutRow.squares (packIntoRows squares) = squares
  /\ forall row, In row (packIntoRows squares) ->
       length (LayoutRow.squares row) = LayoutRow.totalItems row.
Proof. exact (packIntoRows_singles_rows squares). Qed.

Lemma packIntoRows_single_squares_witness :
  map LayoutRow.totalItems
      (packIntoRows (pushItems "cat-fruits" 0 (Category.items fruits)
                     ++ pushItems "cat-dogs" 0 (firstn 3 (Category.items dogBreeds))))
  = [5; 5; 3].
Proof.
  apply (packIntoRows_single_squares
           (pushItems "cat-fruits" 0 (Category.items fruits)
            ++ pushItems "cat-dogs" 0 (firstn 3 (Category.items dogBreeds)))).
  - discriminate.
  - intros s Hs. simpl in Hs.
    repeat (destruct Hs as [<-|Hs]; [reflexivity|]). destruct Hs.
Defined.

(** X14.  Whatever the shuffle, the board a well-formed puzzle starts with
    is laid out as twenty rows of five single squares ("100 items = 20 rows
    initially"), in the order of the shuffled grid. *)
Theorem initial_board_has_twenty_rows puzzle rnd :
  wellFormed puzzle ->
  let board := getUnsolvedSquares (initializeGrid rnd puzzle) in
  board = initializeGrid rnd puzzle
  /\ getTotalRows board = 20
  /\ map LayoutRow.totalItems (packIntoRows board) = repeat 5 20
  /\ (forall row, In row (packIntoRows board) -> length (LayoutRow.squares row) = 5)
  /\ flat_map LayoutRow.squares (packIntoRows board) = initializeGrid rnd puzzle.
Proof.
  intros Hwf board.
  pose proof (shuffleArray_Permutation rnd (unitSquares puzzle)) as HP.
  assert (Hunit : forall s, In s (initializeGrid rnd puzzle) ->
            length (GridSquare.items s) = 1 /\ GridSquare.isSolved s = false).
  { intros s Hs. apply (Permutation_in _ (Permutation_sym HP)) in Hs.
    apply unitSquares_In in Hs as (cat & k & item & _ & _ & ->). auto. }
  assert (Hboard : board = initializeGrid rnd puzzle).
  { unfold board, getUnsolvedSquares. apply filter_all.
    intros s Hs. now rewrite (proj2 (Hunit s Hs)). }
  assert (Hlen : length (initializeGrid rnd puzzle) = 100).
  { unfold initializeGrid. rewrite <- (Permutation_length HP), unitSquares_length.
    now apply getAllItems_length. }
  split; [exact Hboard|]. rewrite Hboard.
  destruct (packIntoRows_singles_rows (initializeGrid rnd puzzle))
    as (Htotals & Hrows & Hflat & Hsame).
  - intros Hnil. rewrite Hnil in Hlen. discriminate.
  - intros s Hs. exact (proj1 (Hunit s Hs)).
  - rewrite Hlen in Htotals, Hrows.
    split; [exact Hrows|]. split; [exact Htotals|]. split; [|exact Hflat].
    intros row Hrow. rewrite (Hsame row Hrow).
    assert (Hin : In (LayoutRow.totalItems row)
                     (map LayoutRow.totalItems (packIntoRows (initializeGrid rnd puzzle))))
      by now apply in_map.
    rewrite Htotals in Hin. change (In (LayoutRow.totalItems row) (repeat 5 20)) in Hin.
    now apply repeat_spec in Hin.
Qed.

Lemma initial_board_has_twenty_rows_witness :
  getTotalRows (getUnsolvedSquares (initializeGrid (fun i => 7 * i) SAMPLE_PUZZLE)) = 20.
Proof.
  destruct (initial_board_has_twenty_rows SAMPLE_PUZZLE (fun i => 7 * i)
              SAMPLE_PUZZLE_wellFormed) as (_ & Hrows & _).
  exact Hrows.
Defined.

(* ===================================================================== *)
(** ** Counting rows and positioning items *)
(* ===================================================================== *)

(** Whatever the squares, every row is non-empty and records the item
    count of its squares. *)
Lemma packIntoRows_rows_sound squares :
  Forall (fun row => LayoutRow.squares row <> []
                     /\ LayoutRow.totalItems row = itemCount (LayoutRow.squares row))
         (packIntoRows squares).
Proof.
  set (P := fun row => LayoutRow.squares row <> []
                       /\ LayoutRow.totalItems row = itemCount (LayoutRow.squares row)).
  assert (Hstep : forall acc square,
            Forall P (Packing.rows acc) ->
            Packing.currentTotal acc = itemCount (Packing.currentSquares acc) ->
            Forall P (Packing.rows (packSquare acc square))
            /\ Packing.currentTotal (packSquare acc square)
               = itemCount (Packing.currentSquares (packSquare acc square))).
  { intros acc square Hrows Htotal. unfold packSquare.
    destruct (Nat.ltb_spec 0 (length (Packing.currentSquares acc))) as [Hlen|Hlen].
    - rewrite andb_true_r. destruct (_ || _); simpl.
      + split; [|rewrite itemCount_cons; unfold itemCount; simpl; lia].
        apply Forall_app. split; [assumption|]. constructor; [|constructor].
        split; simpl; [|assumption].
        intros H. rewrite H in Hlen. simpl in Hlen. lia.
      + split; [assumption|].
        rewrite itemCount_app, itemCount_cons, Htotal. unfold itemCount at 3.
        simpl. lia.
    - rewrite andb_false_r. simpl. split; [assumption|].
      rewrite itemCount_app, itemCount_cons, Htotal. unfold itemCount at 3.
      simpl. lia. }
  assert (Hloop : forall sorted acc,
            Forall P (Packing.rows acc) ->
            Packing.currentTotal acc = itemCount (Packing.currentSquares acc) ->
            Forall P (closeLastRow (fold_left packSquare sorted acc))).
  { induction sorted as [|square rest IH]; intros acc Hrows Htotal; simpl.
    - unfold closeLastRow.
      destruct (Nat.ltb_spec 0 (length (Packing.currentSquares acc))) as [Hlen|_];
        [|assumption].
      apply Forall_app. split; [assumption|]. constructor; [|constructor].
      split; simpl; [|assumption].
      intros H. rewrite H in Hlen. simpl in Hlen. lia.
    - destruct (Hstep acc square Hrows Htotal). now apply IH. }
  unfold packIntoRows. destruct (length squares =? 0)%nat; [constructor|].
  apply Hloop; [constructor|reflexivity].
Qed.

Lemma rows_itemCount rows :
  Forall (fun row => LayoutRow.squares row <> []
                     /\ LayoutRow.totalItems row = itemCount (LayoutRow.squares row))
         rows ->
  itemCount (flat_map LayoutRow.squares rows) = list_sum (map LayoutRow.totalItems rows)
  /\ length rows <= length (flat_map LayoutRow.squares rows).
Proof.
  induction 1 as [|row rows [Hne Htotal] _ [IHsum IHlen]]; simpl; [auto|].
  rewrite itemCount_app, length_app, IHsum, Htotal. split; [reflexivity|].
  destruct (LayoutRow.squares row); [congruence|simpl; lia].
Qed.

Lemma packIntoRows_RowOk squares :
  (forall s, In s squares -> length (GridSquare.items s) <= MAX_ITEMS_PER_ROW) ->
  Forall RowOk (packIntoRows squares).
Proof.
  intros Hall. unfold packIntoRows. destruct (length squares =? 0)%nat; [constructor|].
  apply closeLastRow_ok, packLoop_ok.
  - constructor; simpl; [constructor|reflexivity|unfold MAX_ITEMS_PER_ROW; lia].
  - apply (Permutation_Forall (sort_Permutation bySizeDescending squares)).
    now apply Forall_forall.
Qed.

(** X15.  [getTotalRows] is 0 for no squares and otherwise at least 1 and
    at most the number of squares; the row totals add up to the item count
    of the input; and when no square has more than ten items there are at
    least a tenth as many rows as items. *)
Theorem getTotalRows_bounds squares :
  (squares = [] -> getTotalRows squares = 0)
  /\ (squares <> [] -> 1 <= getTotalRows squares <= length squares)
  /\ list_sum (map LayoutRow.totalItems (packIntoRows squares)) = itemCount squares
  /\ ((forall s, In s squares -> length (GridSquare.items s) <= 10) ->
      itemCount squares <= 10 * getTotalRows squares).
Proof.
  pose proof (rows_itemCount _ (packIntoRows_rows_sound squares)) as [Hsum Hlen].
  rewrite packIntoRows_squares in Hsum, Hlen.
  pose proof (sort_Permutation bySizeDescending squares) as HP.
  rewrite <- (Permutation_length HP) in Hlen.
  rewrite <- (itemCount_Permutation _ _ HP) in Hsum.
  unfold getTotalRows. split; [intros ->; reflexivity|]. split; [|split].
  - intros Hne. split; [|exact Hlen].
    destruct (packIntoRows squares) as [|row rows] eqn:Hrows; [|simpl; lia].
    pose proof (packIntoRows_squares squares) as Hflat. rewrite Hrows in Hflat.
    simpl in Hflat. rewrite <- Hflat in HP.
    apply Permutation_sym, Permutation_nil in HP. congruence.
  - now symmetry.
  - intros Hall. rewrite Hsum.
    pose proof (packIntoRows_RowOk squares Hall) as Hok.
    clear Hsum Hlen.
    induction Hok as [|row rows (_ & _ & Hceiling) _ IH]; [simpl; lia|].
    unfold MAX_ITEMS_PER_ROW in Hceiling.
    change (list_sum (map LayoutRow.totalItems (row :: rows)))
      with (LayoutRow.totalItems row + list_sum (map LayoutRow.totalItems rows)).
    cbn [length]. lia.
Qed.

Lemma getTotalRows_bounds_witness :
  1 <= getTotalRows nineAndSingles <= 10
  /\ itemCount nineAndSingles <= 10 * getTotalRows nineAndSingles.
Proof.
  destruct (getTotalRows_bounds nineAndSingles) as (_ & Hrows & _ & Hitems).
  split.
  - apply Hrows. discriminate.
  - apply Hitems. intros s Hs. simpl in Hs.
    repeat (destruct Hs as [<-|Hs]; [simpl; lia|]). destruct Hs.
Defined.

Lemma layoutRows_squares rowIndex rows :
  map LayoutItem.square (layoutRows rowIndex rows) = flat_map LayoutRow.squares rows.
Proof.
  revert rowIndex; induction rows as [|row rest IH]; intros; simpl; [reflexivity|].
  rewrite map_app, map_map, IH. simpl. now rewrite map_id.
Qed.

Lemma layoutRows_In rowIndex rows item :
  In item (layoutRows rowIndex rows) ->
  exists k row,
    nth_error rows k = Some row
    /\ LayoutItem.rowIndex item = rowIndex + k
    /\ In (LayoutItem.square item) (LayoutRow.squares row)
    /\ LayoutItem.widthFraction item
       = (length (GridSquare.items (LayoutItem.square item)), LayoutRow.totalItems row).
Proof.
  revert rowIndex; induction rows as [|row rest IH]; intros rowIndex Hin; simpl in Hin;
    [destruct Hin|].
  apply in_app_or in Hin as [Hin|Hin].
  - apply in_map_iff in Hin as (square & <- & Hsq).
    exists 0, row. simpl. rewrite Nat.add_0_r. auto.
  - destruct (IH _ Hin) as (k & row' & Hk & Hidx & Hsq & Hwf).
    exists (S k), row'. simpl. rewrite Nat.add_succ_r. auto.
Qed.

Lemma filter_none {T} (f : T -> bool) l :
  (forall x, In x l -> f x = false) -> filter f l = [].
Proof.
  induction l as [|x rest IH]; simpl; intros H; [reflexivity|].
  rewrite (H x) by now left. apply IH. intros y Hy. apply H. now right.
Qed.

Lemma layoutRows_row rowIndex rows k row :
  nth_error rows k = Some row ->
  filter (fun item => LayoutItem.rowIndex item =? rowIndex + k)%nat
         (layoutRows rowIndex rows)
  = map (fun square =>
           LayoutItem.mk square (rowIndex + k)
             (length (GridSquare.items square), LayoutRow.totalItems row))
        (LayoutRow.squares row).
Proof.
  revert rowIndex k; induction rows as [|r rest IH]; intros rowIndex k Hk;
    [now destruct k|].
  cbn [layoutRows]. rewrite filter_app. destruct k as [|k]; simpl in Hk.
  - injection Hk as ->. rewrite Nat.add_0_r.
    rewrite filter_all, filter_none.
    + now rewrite app_nil_r.
    + intros item Hitem. apply Nat.eqb_neq.
      destruct (layoutRows_In _ _ _ Hitem) as (j & _ & _ & -> & _). lia.
    + intros item Hitem. apply in_map_iff in Hitem as (square & <- & _).
      apply Nat.eqb_refl.
  - rewrite filter_none.
    + replace (rowIndex + S k) with (S rowIndex + k) by lia. now apply IH.
    + intros item Hitem. apply in_map_iff in Hitem as (square & <- & _).
      apply Nat.eqb_neq. simpl. lia.
Qed.

(** X16.  [calculateLayout] positions every input square once, in the
    sorted order, in the row [packIntoRows] put it in, with a row index
    below [getTotalRows]; the operands of its width fraction are the
    square's item count and its row's total, so the dividends of a row add
    up to the divisor (the fractions of a row sum to one); and when no
    square is empty no divisor is zero and no dividend exceeds it. *)
Theorem calculateLayout_positions squares :
  map LayoutItem.square (calculateLayout squares) = sort bySizeDescending squares
  /\ length (calculateLayout squares) = length squares
  /\ (forall item, In item (calculateLayout squares) ->
        LayoutItem.rowIndex item < getTotalRows squares
        /\ exists row,
             nth_error (packIntoRows squares) (LayoutItem.rowIndex item) = Some row
             /\ In (LayoutItem.square item) (LayoutRow.squares row)
             /\ LayoutItem.widthFraction item
                = (length (GridSquare.items (LayoutItem.square item)),
                   LayoutRow.totalItems row))
  /\ (forall k row,
        nth_error (packIntoRows squares) k = Some row ->
        list_sum (map (fun item => fst (LayoutItem.widthFraction item))
                      (filter (fun item => LayoutItem.rowIndex item =? k)%nat
                              (calculateLayout squares)))
        = LayoutRow.totalItems row)
  /\ ((forall s, In s squares -> GridSquare.items s <> []) ->
      forall item, In item (calculateLayout squares) ->
        1 <= fst (LayoutItem.widthFraction item) <= snd (LayoutItem.widthFraction item)).
Proof.
  unfold calculateLayout.
  assert (Hsquares : map LayoutItem.square (layoutRows 0 (packIntoRows squares))
                     = sort bySizeDescending squares)
    by (now rewrite layoutRows_squares, packIntoRows_squares).
  pose proof (packIntoRows_rows_sound squares) as Hsound.
  rewrite Forall_forall in Hsound.
  assert (Hitem : forall item, In item (layoutRows 0 (packIntoRows squares)) ->
            exists row,
              nth_error (packIntoRows squares) (LayoutItem.rowIndex item) = Some row
              /\ In (LayoutItem.square item) (LayoutRow.squares row)
              /\ LayoutItem.widthFraction item
                 = (length (GridSquare.items (LayoutItem.square item)),
                    LayoutRow.totalItems row)).
  { intros item Hin. destruct (layoutRows_In _ _ _ Hin) as (k & row & Hk & Hidx & H).
    simpl in Hidx. rewrite Hidx. now exists row. }
  split; [exact Hsquares|]. split; [|split; [|split]].
  - rewrite <- (length_map LayoutItem.square), Hsquares.
    symmetry. apply Permutation_length, sort_Permutation.
  - intros item Hin. split; [|now apply Hitem].
    destruct (Hitem item Hin) as (row & Hk & _).
    unfold getTotalRows. apply nth_error_Some. congruence.
  - intros k row Hk.
    pose proof (layoutRows_row 0 _ k row Hk) as Hrow. cbn [Nat.add] in Hrow.
    rewrite Hrow, map_map. simpl.
    destruct (Hsound row (nth_error_In _ _ Hk)) as [_ ->]. reflexivity.
  - intros Hne item Hin. destruct (Hitem item Hin) as (row & Hk & Hsq & ->). simpl.
    destruct (Hsound row (nth_error_In _ _ Hk)) as [_ ->].
    assert (Hinput : In (LayoutItem.square item) squares).
    { apply (Permutation_in _ (Permutation_sym (sort_Permutation bySizeDescending squares))).
      rewrite <- packIntoRows_squares. apply in_flat_map. exists row.
      split; [now apply nth_error_In with (LayoutItem.rowIndex item)|assumption]. }
    split.
    + specialize (Hne _ Hinput). destruct (GridSquare.items _); [congruence|simpl; lia].
    + clear -Hsq. induction (LayoutRow.squares row) as [|x rest IH]; [destruct Hsq|].
      rewrite itemCount_cons. destruct Hsq as [->|Hsq]; [lia|].
      specialize (IH Hsq). lia.
Qed.

Lemma calculateLayout_positions_witness :
  exists item,
    hd_error (calculateLayout nineAndSingles) = Some item
    /\ 1 <= fst (LayoutItem.widthFraction item) <= snd (LayoutItem.widthFraction item).
Proof.
  pose proof (proj2 (proj2 (proj2 (proj2 (calculateLayout_positions nineAndSingles)))))
    as Hfraction.
  assert (Hitems : forall s, In s nineAndSingles -> GridSquare.items s <> []).
  { intros s Hs. simpl in Hs.
    repeat (destruct Hs as [<-|Hs]; [discriminate|]). destruct Hs. }
  specialize (Hfraction Hitems).
  destruct (calculateLayout nineAndSingles) as [|item rest] eqn:Hlayout;
    [vm_compute in Hlayout; discriminate|].
  exists item. split; [reflexivity|]. apply Hfraction. now left.
Defined.

(* ===================================================================== *)
(** ** The board of a session *)
(* ===================================================================== *)

Lemma itemCount_In s squares :
  In s squares -> length (GridSquare.items s) <= itemCount squares.
Proof.
  induction squares as [|x rest IH]; intros Hs; [destruct Hs|].
  rewrite itemCount_cons. destruct Hs as [->|Hs]; [lia|].
  specialize (IH Hs). lia.
Qed.

(** X17.  In every reachable state the board the screen draws is sound:
    the rows packed from the unsolved squares hold every unsolved square
    once; every row totals between one and ten items; every square in a row
    is an unsolved square of the grid with between one and nine items, no
    more than its row's total, and a category [getCategoryById] finds (so
    it is rendered); the selected square is on the board; and every solved
    square has a category for its trophy. *)
Theorem board_of_a_session puzzle st :
  wellFormed puzzle -> reachable puzzle st ->
  let grid := GameState.grid (HookState.gameState st) in
  let rows := packIntoRows (getUnsolvedSquares grid) in
  Permutation (getUnsolvedSquares grid) (flat_map LayoutRow.squares rows)
  /\ (forall row, In row rows ->
        1 <= LayoutRow.totalItems row <= 10
        /\ forall s, In s (LayoutRow.squares row) ->
             In s grid
             /\ GridSquare.isSolved s = false
             /\ 1 <= length (GridSquare.items s) <= 9
             /\ length (GridSquare.items s) <= LayoutRow.totalItems row
             /\ getCategoryById puzzle (GridSquare.categoryId s) <> None)
  /\ (forall squareId, isSquareSelected st squareId = true ->
        exists row s,
          In row rows /\ In s (LayoutRow.squares row) /\ GridSquare.id s = squareId)
  /\ (forall s, In s (getSolvedSquares grid) ->
        getCategoryById puzzle (GridSquare.categoryId s) <> None).
Proof.
  intros Hwf Hreach grid rows.
  pose proof (reachable_ContentInv puzzle st Hwf Hreach) as Hcontent.
  destruct (reachable_Inv puzzle st Hwf Hreach) as [Hgame Hsel].
  fold grid in Hcontent, Hgame.
  assert (Hplaced : Permutation (getUnsolvedSquares grid)
                      (flat_map LayoutRow.squares rows)).
  { unfold rows. rewrite packIntoRows_squares. apply sort_Permutation. }
  assert (Hcategory : forall s, In s grid ->
            getCategoryById puzzle (GridSquare.categoryId s) <> None).
  { intros s Hs.
    destruct (content_category _ _ Hcontent s Hs) as (category & Hcat & Hid & _).
    rewrite <- Hid, getCategoryById_In; [discriminate| |assumption]. apply Hwf. }
  assert (Hboard : forall s, In s (getUnsolvedSquares grid) ->
            In s grid /\ GridSquare.isSolved s = false
            /\ 1 <= length (GridSquare.items s) <= 9).
  { intros s Hs. apply getUnsolvedSquares_In in Hs as [Hs Hun].
    pose proof (GameInv_square_size _ s Hgame Hs) as Hsize.
    pose proof (inv_flag _ Hgame s Hs) as Hflag. rewrite Hun in Hflag.
    symmetry in Hflag. apply Nat.eqb_neq in Hflag.
    repeat split; try assumption; lia. }
  assert (Hok : Forall RowOk rows).
  { apply packIntoRows_RowOk. intros s Hs.
    destruct (Hboard s Hs) as (_ & _ & Hsize). unfold MAX_ITEMS_PER_ROW. lia. }
  rewrite Forall_forall in Hok.
  split; [exact Hplaced|]. split; [|split].
  - intros row Hrow. destruct (Hok row Hrow) as (Hne & Htotal & Hceiling).
    assert (Hin : forall s, In s (LayoutRow.squares row) ->
                    In s (getUnsolvedSquares grid)).
    { intros s Hs. apply (Permutation_in _ (Permutation_sym Hplaced)).
      apply in_flat_map. now exists row. }
    split.
    + split; [|exact Hceiling].
      destruct (LayoutRow.squares row) as [|x rest] eqn:Hsq; [congruence|].
      destruct (Hboard x (Hin x (or_introl eq_refl))) as (_ & _ & Hsize).
      rewrite Htotal, itemCount_cons. lia.
    + intros s Hs. destruct (Hboard s (Hin s Hs)) as (Hgrid & Hun & Hsize).
      repeat split; try assumption; try lia.
      * rewrite Htotal. now apply itemCount_In.
      * now apply Hcategory.
  - intros squareId Hselected. unfold isSquareSelected in Hselected.
    destruct Hsel as [Hempty|(a & square & Hone & Hfind & Hun & _)].
    + rewrite Hempty in Hselected. discriminate.
    + rewrite Hone, includes_single in Hselected.
      apply String.eqb_eq in Hselected. subst squareId.
      destruct (getSquareById_Some _ _ _ Hfind) as [Hin Hid].
      assert (Hb : In square (flat_map LayoutRow.squares rows)).
      { apply (Permutation_in _ Hplaced). apply getUnsolvedSquares_In. auto. }
      apply in_flat_map in Hb as (row & Hrow & Hs). now exists row, square.
  - intros s Hs. apply getSolvedSquares_In in Hs as [Hs _]. now apply Hcategory.
Qed.

Lemma board_of_a_session_witness :
  let st := play SAMPLE_PUZZLE keepOrder 0
              (solveCategory "cat-fruits" ++ [SelectSquare 1 "cat-dogs-3"]) in
  exists row s,
    In row (packIntoRows (getUnsolvedSquares (GameState.grid (HookState.gameState st))))
    /\ In s (LayoutRow.squares row)
    /\ GridSquare.id s = "cat-dogs-3".
Proof.
  intros st.
  destruct (board_of_a_session SAMPLE_PUZZLE st SAMPLE_PUZZLE_wellFormed
              (play_reachable _ _ _ _)) as (_ & _ & Hselected & _).
  apply Hselected. vm_compute. reflexivity.
Defined.

(* ===================================================================== *)
(** ** The shuffle *)
(* ===================================================================== *)

Section Shuffle.
Context {T : Type}.
Implicit Types (arr pre suf : list T) (rnd : Random).

Lemma swap_length i j arr : length (swap i j arr) = length arr.
Proof.
  unfold swap. destruct (nth_error arr i), (nth_error arr j); auto.
  now rewrite !assign_length.
Qed.

(** After the swap, position [i] holds what position [j] held. *)
Lemma nth_error_swap i j arr ai aj :
  nth_error arr i = Some ai -> nth_error arr j = Some aj ->
  nth_error (swap i j arr) i = Some aj.
Proof.
  intros Hi Hj. unfold swap. rewrite Hi, Hj.
  assert (i < length arr) by (apply nth_error_Some; congruence).
  destruct (Nat.eq_dec j i) as [->|Hne].
  - rewrite nth_error_assign_eq by (now rewrite assign_length). congruence.
  - rewrite nth_error_assign_ne by assumption. now apply nth_error_assign_eq.
Qed.

Lemma swap_app i j pre suf :
  i < length pre -> j < length pre ->
  swap i j (pre ++ suf) = swap i j pre ++ suf.
Proof.
  intros Hi Hj. unfold swap. rewrite !nth_error_app1 by assumption.
  destruct (nth_error pre i), (nth_error pre j); auto.
  rewrite assign_app by assumption.
  now rewrite assign_app by (now rewrite assign_length).
Qed.

Lemma draw_le rnd i : draw rnd i <= i.
Proof.
  unfold draw. pose proof (Nat.mod_upper_bound (rnd i) (i + 1)). lia.
Qed.

(** The loop entered at [i] leaves what lies beyond index [i] alone. *)
Lemma shuffleLoop_app rnd i pre suf :
  i < length pre ->
  shuffleLoop rnd i (pre ++ suf) = shuffleLoop rnd i pre ++ suf.
Proof.
  revert pre; induction i as [|i IH]; intros pre Hi; simpl; [reflexivity|].
  pose proof (draw_le rnd (S i)).
  rewrite swap_app by lia. apply IH. rewrite swap_length. lia.
Qed.

Lemma shuffleLoop_ext rnd rnd' i arr :
  (forall m, m <= i -> rnd m = rnd' m) ->
  shuffleLoop rnd i arr = shuffleLoop rnd' i arr.
Proof.
  revert arr; induction i as [|i IH]; intros arr Hsame; simpl; [reflexivity|].
  unfold draw. rewrite (Hsame (S i)) by lia. apply IH.
  intros m Hm. apply Hsame. lia.
Qed.

Lemma split_last n arr z :
  length arr = S n -> nth_error arr n = Some z -> arr = firstn n arr ++ [z].
Proof.
  revert arr; induction n as [|n IH]; intros [|x rest] Hlen Hz; simpl in *;
    try discriminate.
  - injection Hz as ->. now destruct rest.
  - f_equal. apply IH; [lia|assumption].
Qed.

(** Every arrangement of the array is the result of some sequence of
    draws. *)
Lemma shuffleLoop_reaches i :
  forall pre pre',
    length pre = S i -> Permutation pre pre' ->
    exists rnd, shuffleLoop rnd i pre = pre'.
Proof.
  induction i as [|k IH]; intros pre pre' Hlen HP.
  - destruct pre as [|x [|y rest]]; try discriminate.
    apply Permutation_length_1_inv in HP. subst pre'.
    exists (fun _ => 0). reflexivity.
  - assert (Hlen' : length pre' = S (S k))
      by (now rewrite <- (Permutation_length HP)).
    destruct (nth_error pre' (S k)) as [z|] eqn:Hz;
      [|apply nth_error_None in Hz; lia].
    pose proof (split_last (S k) pre' z Hlen' Hz) as Hpre'.
    assert (Hin : In z pre)
      by (apply (Permutation_in _ (Permutation_sym HP)); now apply nth_error_In with (S k)).
    apply In_nth_error in Hin as [j Hj].
    assert (Hjlt : j < S (S k)) by (rewrite <- Hlen; apply nth_error_Some; congruence).
    destruct (nth_error pre (S k)) as [w|] eqn:Hw;
      [|apply nth_error_None in Hw; lia].
    pose proof (nth_error_swap (S k) j pre w z Hw Hj) as Hswapped.
    pose proof (split_last (S k) (swap (S k) j pre) z
                  (eq_trans (swap_length _ _ _) Hlen) Hswapped) as Hsplit.
    assert (HP2 : Permutation (firstn (S k) (swap (S k) j pre)) (firstn (S k) pre')).
    { apply (Permutation_app_inv_r [z]). rewrite <- Hsplit, <- Hpre'.
      rewrite <- HP. apply Permutation_sym, swap_Permutation. }
    assert (Hlen2 : length (firstn (S k) (swap (S k) j pre)) = S k)
      by (rewrite length_firstn, swap_length; lia).
    destruct (IH _ _ Hlen2 HP2) as [rnd' Hrnd'].
    exists (fun m => if (m =? S k)%nat then j else rnd' m).
    cbn [shuffleLoop]. unfold draw at 1. rewrite Nat.eqb_refl.
    rewrite Nat.mod_small by lia.
    rewrite Hsplit, shuffleLoop_app by lia.
    rewrite (shuffleLoop_ext _ rnd').
    + now rewrite Hrnd', <- Hpre'.
    + intros m Hm. destruct (Nat.eqb_spec m (S k)); [lia|reflexivity].
Qed.
End Shuffle.

(** X18.  [shuffleArray] returns a permutation of its input, of the same
    length, whatever is drawn; and every permutation of the input is what
    it returns for some sequence of draws, so no ordering of the grid is
    out of reach. *)
Theorem shuffleArray_reaches_every_permutation {T} (array shuffled : list T) :
  (forall rnd, Permutation array (shuffleArray rnd array)
               /\ length (shuffleArray rnd array) = length array)
  /\ (Permutation array shuffled -> exists rnd, shuffleArray rnd array = shuffled).
Proof.
  split.
  - intros rnd. pose proof (shuffleArray_Permutation rnd array) as HP.
    split; [exact HP|]. symmetry. now apply Permutation_length.
  - intros HP. unfold shuffleArray. destruct array as [|x rest].
    + apply Permutation_nil in HP. subst. now exists (fun _ => 0).
    + apply shuffleLoop_reaches; [simpl; lia|assumption].
Qed.

Lemma shuffleArray_reaches_every_permutation_witness :
  exists rnd, shuffleArray rnd ["Apple"; "Banana"; "Orange"; "Grape"]
              = ["Grape"; "Apple"; "Orange"; "Banana"].
Proof.
  apply (proj2 (shuffleArray_reaches_every_permutation
                  ["Apple"; "Banana"; "Orange"; "Grape"]
                  ["Grape"; "Apple"; "Orange"; "Banana"])).
  apply perm_trans with ["Apple"; "Grape"; "Banana"; "Orange"].
  - apply perm_skip.
    apply perm_trans with ["Banana"; "Grape"; "Orange"];
      [apply perm_skip, perm_swap|apply perm_swap].
  - apply perm_trans with ["Grape"; "Apple"; "Banana"; "Orange"];
      [apply perm_swap|do 2 apply perm_skip; apply perm_swap].
Defined.

(** X19.  On the store [shuffleArray] "returns a new array, does not
    mutate original": the reference it returns is newly allocated and holds
    the shuffled contents of the input array, while the input array, every
    other existing array and the puzzle are left as they were. *)
Theorem shuffleArray_returns_new_array rnd array s :
  let out := shuffleArrayM rnd array s in
  fst out = length (Store.arrays s)
  /\ nth (fst out) (Store.arrays (snd out)) []
     = shuffleArray rnd (nth array (Store.arrays s) [])
  /\ nth array (Store.arrays (snd out)) [] = nth array (Store.arrays s) []
  /\ firstn (length (Store.arrays s)) (Store.arrays (snd out)) = Store.arrays s
  /\ length (Store.arrays (snd out)) = S (length (Store.arrays s))
  /\ Store.puzzle (snd out) = Store.puzzle s.
Proof.
  intros out. unfold out. rewrite shuffleArrayM_run. cbn [fst snd Store.arrays Store.puzzle].
  split; [reflexivity|]. split; [apply nth_last|]. split; [|split; [|split]].
  - destruct (Nat.lt_ge_cases array (length (Store.arrays s))) as [Hin|Hout].
    + now apply app_nth1.
    + rewrite (nth_overflow (Store.arrays s)) by assumption.
      destruct (Nat.eq_dec array (length (Store.arrays s))) as [->|Hne].
      * rewrite nth_last. reflexivity.
      * apply nth_overflow. rewrite length_app. simpl. lia.
  - apply firstn_length_app.
  - rewrite length_app. simpl. lia.
  - reflexivity.
Qed.

(* ===================================================================== *)
(** ** The clock *)
(* ===================================================================== *)




(** X21.  The clock of a session: while the game is being played
    [endTime] is unset and the screen shows the time since [startTime] at
    the instant of rendering; once the game is won [endTime] is set and
    the screen shows the same text at every instant, the one it showed at
    the instant [endTime] records. *)
Theorem clock_stops_when_won puzzle st :
  wellFormed puzzle -> reachable puzzle st ->
  let gs := HookState.gameState st in
  (GameState.status gs = playing ->
     forall now, formatTime now (GameState.startTime gs) (GameState.endTime gs)
                 = formatTime now (GameState.startTime gs) None)
  /\ (GameState.status gs = won ->
      exists finish,
        GameState.endTime gs = Some finish
        /\ forall now, formatTime now (GameState.startTime gs) (GameState.endTime gs)
                       = formatTime finish (GameState.startTime gs) None).
Proof.
  intros Hwf Hreach gs. destruct (reachable_Inv _ _ Hwf Hreach) as [Hgame _].
  pose proof (inv_endTime _ Hgame) as Hend. fold gs in Hend. split.
  - intros Hplaying now. destruct (GameState.endTime gs) as [e|]; [|reflexivity].
    assert (GameState.status gs = won) by (apply Hend; discriminate). congruence.
  - intros Hwon. destruct (GameState.endTime gs) as [e|].
    + exists e. split; reflexivity.
    + apply Hend in Hwon. congruence.
Qed.

Lemma clock_stops_when_won_witness :
  let st := play SAMPLE_PUZZLE keepOrder 0 solveAll in
  exists finish,
    GameState.endTime (HookState.gameState st) = Some finish
    /\ forall now,
         formatTime now (GameState.startTime (HookState.gameState st))
           (GameState.endTime (HookState.gameState st))
         = formatTime finish (GameState.startTime (HookState.gameState st)) None.
Proof.
  intros st.
  destruct (clock_stops_when_won SAMPLE_PUZZLE st) as [_ Hwon].
  - exact SAMPLE_PUZZLE_wellFormed.
  - apply play_reachable.
  - apply Hwon. vm_compute. reflexivity.
Defined.
